(** * The minibatch loader pipeline of [loader/src/loader.hpp]

    A shallow embedding of the three classes of the file
    ([DecodeThreadPool], [ReadThread], [Loader]) together with the
    collaborators they call, and the properties of the pipeline proved
    on it.

    C++ [int] values are integers in [Z]; [/] on [int] is the truncating
    [Z.quot].  Byte regions are [list byte]; a pointer into a region is an
    offset.  [assert] is a no-op (the [NDEBUG] build): the asserted facts
    are proved, never assumed. *)

From Stdlib Require Import ZArith Lia String.
From Stdlib.Strings Require Import Byte.
From stdpp Require Import base tactics option list numbers.

Local Open Scope Z_scope.

(** ** Results of calls that may throw, block or leave defined behaviour *)

Inductive exn :=
| bad_alloc
| runtime_error (msg : string).

Inductive res (A : Type) :=
| Val (a : A)            (* the call returned [a] *)
| Raise (e : exn)        (* the call threw [e] *)
| Blocked                (* the caller is asleep on a condition variable *)
| Undef.                 (* null dereference, out-of-bounds access *)
Arguments Val {A} a.
Arguments Raise {A} e.
Arguments Blocked {A}.
Arguments Undef {A}.

(** State and exception monad for the sequential member functions. *)
Definition M (S A : Type) : Type := S → res A * S.

#[global] Instance M_ret {S} : MRet (M S) := λ A a s, (Val a, s).

#[global] Instance M_bind {S} : MBind (M S) :=
  λ A B k m s, match m s with
               | (Val a, s') => k a s'
               | (Raise e, s') => (Raise e, s')
               | (Blocked, s') => (Blocked, s')
               | (Undef, s') => (Undef, s')
               end.

Definition get {S} : M S S := λ s, (Val s, s).
Definition modify {S} (f : S → S) : M S unit := λ s, (Val tt, f s).
Definition throw {S A} (e : exn) : M S A := λ s, (Raise e, s).
Definition block {S A} : M S A := λ s, (Blocked, s).
Definition undef {S A} : M S A := λ s, (Undef, s).

(** [try { body } catch (std::bad_alloc&) { handler }] *)
Definition try_catch_bad_alloc {S A} (body : M S A) (handler : M S A) : M S A :=
  λ s, match body s with
       | (Raise bad_alloc, s') => handler s'
       | r => r
       end.

(** ** Byte regions *)

Abbreviation bytes := (list byte).

(** Reading [len] bytes at offset [off]; outside the region the read is
    undefined. *)
Definition load (data : bytes) (off len : Z) : option bytes :=
  if (0 <=? off) && (0 <=? len) && (off + len <=? Z.of_nat (length data))
  then Some (take (Z.to_nat len) (drop (Z.to_nat off) data))
  else None.

(** Writing [src] at offset [off]; outside the region the write is
    undefined. *)
Definition store (data : bytes) (off : Z) (src : bytes) : option bytes :=
  if (0 <=? off) && (off + Z.of_nat (length src) <=? Z.of_nat (length data))
  then Some (take (Z.to_nat off) data ++ src
             ++ drop (Z.to_nat off + length src) data)
  else None.

(** [memcpy(dst + dstOff, src + srcOff, n)] between two regions. *)
Definition memcpy (dst : bytes) (dstOff : Z) (src : bytes) (srcOff n : Z)
  : option bytes :=
  match load src srcOff n with
  | Some b => store dst dstOff b
  | None => None
  end.

Global Arguments load : simpl never.
Global Arguments store : simpl never.
Global Arguments memcpy : simpl never.

(** ** Buffer, BufferPair, BufferPool (buffer.hpp is not part of the
    sources at hand) *)

Module Buffer.

(** Modelled from the spec: the [Buffer] class of the missing buffer
    header.  "A contiguous byte region of fixed capacity, plus an item
    index mapping logical item-slot i to an offset and length inside the
    region." *)
Record t := mk {
  _data : bytes;
  _size : Z;
  _items : list (Z * Z);      (* offset and length of every item *)
  _pinned : bool
}.

Definition set_data (d : bytes) (b : t) : t :=
  mk d (_size b) (_items b) (_pinned b).

(** Modelled from the spec: the constructor of the missing [Buffer]
    class; the region has its fixed capacity from the start and no item. *)
Definition new (size : Z) (pinned : bool) : t :=
  mk (replicate (Z.to_nat size) x00) size [] pinned.

(** Modelled from the spec: [Buffer::getItem] of the missing buffer
    header, the "sliced" access mode: "reader asks for item i and gets
    back a pointer/length"; the pointer is null ([None]) when the region
    holds no item [index]. *)
Definition getItem (b : t) (index : Z) : option (Z * Z) :=
  if index <? 0 then None else _items b !! Z.to_nat index.

(** Modelled from the spec: the "appended" access mode of the missing
    [Buffer] class, "writer grows it and records item offsets": the item
    is laid directly behind the items already there. *)
Definition used (b : t) : Z :=
  match reverse (_items b) with
  | (off, len) :: _ => off + len
  | [] => 0
  end.

Definition pushItem (item : bytes) (b : t) : option t :=
  match store (_data b) (used b) item with
  | Some d => Some (mk d (_size b)
                       (_items b ++ [(used b, Z.of_nat (length item))])
                       (_pinned b))
  | None => None
  end.

(** The bytes of item [index]. *)
Definition item (b : t) (index : Z) : option bytes :=
  match getItem b index with
  | Some (off, len) => load (_data b) off len
  | None => None
  end.

End Buffer.

(** [typedef pair<Buffer<char>*, Buffer<char>*> BufferPair]: the data
    half and the target half. *)
Definition BufferPair : Type := Buffer.t * Buffer.t.

Module BufferPool.

(** Modelled from the spec: the [BufferPool] class of the missing buffer
    header.  "A ring of exactly two BufferPair slots with a read cursor
    and a write cursor" and the booleans [empty] and [full]; "two
    condition variables signal nonEmpty and nonFull", kept here as the
    number of notifications sent on each.  The third boolean the spec
    names is read by no operation and is left out. *)
Record t := mk {
  _slot0 : BufferPair;
  _slot1 : BufferPair;
  _readPos : Z;
  _writePos : Z;
  _empty : bool;
  _full : bool;
  _nonEmpty : nat;
  _nonFull : nat
}.

Definition slot (p : t) (k : Z) : BufferPair :=
  if k =? 0 then _slot0 p else _slot1 p.

Definition set_slot (k : Z) (b : BufferPair) (p : t) : t :=
  if k =? 0
  then mk b (_slot1 p) (_readPos p) (_writePos p) (_empty p) (_full p)
          (_nonEmpty p) (_nonFull p)
  else mk (_slot0 p) b (_readPos p) (_writePos p) (_empty p) (_full p)
          (_nonEmpty p) (_nonFull p).

(** Modelled from the spec: the constructor of the missing [BufferPool]
    class; both pairs are allocated with the given capacities, the
    cursors start at slot 0 and the ring is empty. *)
Definition new (dataSize targetSize : Z) (pinned : bool) : t :=
  let pair := (Buffer.new dataSize pinned, Buffer.new targetSize pinned) in
  mk pair pair 0 0 true false 0 0.

(** Modelled from the spec: "[getForWrite()]: returns the slot at the
    write cursor." *)
Definition getForWrite (p : t) : BufferPair := slot p (_writePos p).

(** Modelled from the spec: "[getForRead()]: returns the slot at the
    read cursor; symmetric to write." *)
Definition getForRead (p : t) : BufferPair := slot p (_readPos p).

(** Modelled from the spec: "[advanceWritePos()]: advances write cursor
    mod 2, marks nonEmpty"; the ring is full when the write cursor has
    caught up with the read cursor. *)
Definition advanceWritePos (p : t) : t :=
  let w := (_writePos p + 1) mod 2 in
  mk (_slot0 p) (_slot1 p) (_readPos p) w false (w =? _readPos p)
     (_nonEmpty p) (_nonFull p).

(** Modelled from the spec: "[advanceReadPos()]: symmetric". *)
Definition advanceReadPos (p : t) : t :=
  let r := (_readPos p + 1) mod 2 in
  mk (_slot0 p) (_slot1 p) r (_writePos p) (r =? _writePos p) false
     (_nonEmpty p) (_nonFull p).

Definition empty (p : t) : bool := _empty p.
Definition full (p : t) : bool := _full p.

(** Modelled from the spec: [signalNonEmpty] and [signalNonFull] of the
    missing class notify the respective condition variable. *)
Definition signalNonEmpty (p : t) : t :=
  mk (_slot0 p) (_slot1 p) (_readPos p) (_writePos p) (_empty p) (_full p)
     (S (_nonEmpty p)) (_nonFull p).

Definition signalNonFull (p : t) : t :=
  mk (_slot0 p) (_slot1 p) (_readPos p) (_writePos p) (_empty p) (_full p)
     (_nonEmpty p) (S (_nonFull p)).

End BufferPool.

(** ** The worker count and the batch partition *)

(** [DecodeThreadPool::DecodeThreadPool], line 37:
    [_itemsPerThread((batchSize - 1) / count + 1)]. *)
Definition itemsPerThread (batchSize count : Z) : Z :=
  Z.quot (batchSize - 1) count + 1.

(** The ceiling of a quotient, as the specification writes the two
    computations above. *)
Definition ceil_div (a b : Z) : Z := - ((- a) `div` b).

(** [DecodeThreadPool::run], lines 93-99: the item range of worker [id]. *)
Definition startInd (ipt id : Z) : Z := id * ipt.

Definition itemCount (count ipt batchSize id : Z) : Z :=
  if id =? count - 1 then batchSize - id * ipt else ipt.

Definition endInd (count ipt batchSize id : Z) : Z :=
  startInd ipt id + itemCount count ipt batchSize id.

(** ** Collaborators: Media, Device, Matrix *)

(** Modelled from the spec: the [Media] interface of the missing media
    header.  "[transform(src, srcLen, dst, dstCapacity)]: decode one item;
    writes exactly [dstCapacity] bytes."  The function gives the bytes
    written to [dst] from the [srcLen] bytes at [src]. *)
Class Media := {
  transform : bytes → Z → bytes;
  transform_length (src : bytes) (cap : Z) :
    length (transform src cap) = Z.to_nat cap
}.

Module Device.

(** Modelled from the spec: the [Device] interface of the missing device
    header, "[_type ∈ {CPU, …}]". *)
Inductive type := CPU | GPU.

(** The calls the pipeline makes on the device, in order. *)
Inductive call :=
| init
| copyData (slot : Z) (src : bytes) (nBytes : Z)
| copyLabels (slot : Z) (src : bytes) (nBytes : Z).

Record t := mk {
  _type : type;
  calls : list call
}.

Definition is_CPU (d : t) : bool :=
  match _type d with CPU => true | GPU => false end.

Definition do (c : call) (d : t) : t := mk (_type d) (calls d ++ [c]).

(** The slots of the data copies and of the label copies made so far. *)
Definition dataSlots (d : t) : list Z :=
  omap (λ c, match c with copyData k _ _ => Some k | _ => None end) (calls d).

Definition labelSlots (d : t) : list Z :=
  omap (λ c, match c with copyLabels k _ _ => Some k | _ => None end) (calls d).

End Device.

Module Matrix.

(** Modelled from the spec: [Matrix<char>::transpose] of the missing
    matrix header.  "The data half is interpreted as a matrix with
    batchSize rows of datumSize bytes and transposed in place to
    datumSize rows of batchSize bytes." *)
Definition transpose (data : bytes) (rows cols : Z) : bytes :=
  mjoin ((λ c, (λ r, default x00 (data !! Z.to_nat (r * cols + c)))
               <$> seqZ 0 rows)
         <$> seqZ 0 cols)
  ++ drop (Z.to_nat (rows * cols)) data.

End Matrix.

Global Arguments Matrix.transpose : simpl never.

(** ** class DecodeThreadPool *)

Module DecodeThreadPool.

(** Where a worker thread stands in [run] and [work]. *)
Inductive worker_pc :=
| WInit                           (* run: before line 93 *)
| WRun                            (* run: at the loop test of line 103 *)
| WTop                            (* work: at the loop test of line 114 *)
| WWaiting                        (* work: asleep in [_started.wait] *)
| WData (i dataBuf outBuf : Z)    (* work: at the loop test of line 131 *)
| WSignal                         (* work: before line 149 *)
| WStopped.                       (* run has returned *)

(** Where the manager thread stands in [manage], [consume], [produce]. *)
Inductive manager_pc :=
| MInit                           (* manage: before line 213 *)
| MLoop                           (* manage: at the loop test of line 217 *)
| MConsume                        (* consume: at the loop test of line 198 *)
| MWaitIn                         (* consume: asleep in [waitForNonEmpty] *)
| MProduce                        (* produce: at the loop test of line 160 *)
| MJoin                           (* produce: at the loop test of line 172 *)
| MCopy                           (* produce: before line 178 *)
| MAdvance                        (* consume: before line 206 *)
| MStopped.                       (* manage has returned *)

(** Where the thread that called [stop] stands. *)
Inductive stop_pc :=
| SIdle                           (* stop has not been called *)
| SWorkers                        (* stop: at the loop test of line 74 *)
| SManager                        (* stop: at the loop test of line 81 *)
| SDone.                          (* stop has returned *)

(** The members of the class and of its base [ThreadPool].  A thread
    object is kept as the program counter of its thread; [_inputBuf]
    points to a slot of [_in]. *)
Record t := mk {
  _count : Z;
  _done : bool;
  _stopped : list bool;
  _threads : list worker_pc;
  _itemsPerThread : Z;
  _startSignaled : list Z;
  _endSignaled : Z;
  _manager : option manager_pc;
  _stopManager : bool;
  _managerStopped : bool;
  _inputBuf : option Z;
  _bufferIndex : Z;
  _batchSize : Z;
  _startInds : list Z;
  _endInds : list Z;
  _dataOffsets : list Z;
  _targetOffsets : list Z;
  _targetSpans : list Z;
  _datumSize : Z;
  _targetSize : Z
}.

Definition set_done (v : bool) (p : t) : t :=
  mk (_count p) v (_stopped p) (_threads p) (_itemsPerThread p)
     (_startSignaled p) (_endSignaled p) (_manager p) (_stopManager p)
     (_managerStopped p) (_inputBuf p) (_bufferIndex p) (_batchSize p)
     (_startInds p) (_endInds p) (_dataOffsets p) (_targetOffsets p)
     (_targetSpans p) (_datumSize p) (_targetSize p).

Definition set_stopped (v : list bool) (p : t) : t :=
  mk (_count p) (_done p) v (_threads p) (_itemsPerThread p)
     (_startSignaled p) (_endSignaled p) (_manager p) (_stopManager p)
     (_managerStopped p) (_inputBuf p) (_bufferIndex p) (_batchSize p)
     (_startInds p) (_endInds p) (_dataOffsets p) (_targetOffsets p)
     (_targetSpans p) (_datumSize p) (_targetSize p).

Definition set_threads (v : list worker_pc) (p : t) : t :=
  mk (_count p) (_done p) (_stopped p) v (_itemsPerThread p)
     (_startSignaled p) (_endSignaled p) (_manager p) (_stopManager p)
     (_managerStopped p) (_inputBuf p) (_bufferIndex p) (_batchSize p)
     (_startInds p) (_endInds p) (_dataOffsets p) (_targetOffsets p)
     (_targetSpans p) (_datumSize p) (_targetSize p).

Definition set_startSignaled (v : list Z) (p : t) : t :=
  mk (_count p) (_done p) (_stopped p) (_threads p) (_itemsPerThread p) v
     (_endSignaled p) (_manager p) (_stopManager p) (_managerStopped p)
     (_inputBuf p) (_bufferIndex p) (_batchSize p) (_startInds p)
     (_endInds p) (_dataOffsets p) (_targetOffsets p) (_targetSpans p)
     (_datumSize p) (_targetSize p).

Definition set_endSignaled (v : Z) (p : t) : t :=
  mk (_count p) (_done p) (_stopped p) (_threads p) (_itemsPerThread p)
     (_startSignaled p) v (_manager p) (_stopManager p)
     (_managerStopped p) (_inputBuf p) (_bufferIndex p) (_batchSize p)
     (_startInds p) (_endInds p) (_dataOffsets p) (_targetOffsets p)
     (_targetSpans p) (_datumSize p) (_targetSize p).

Definition set_manager (v : option manager_pc) (p : t) : t :=
  mk (_count p) (_done p) (_stopped p) (_threads p) (_itemsPerThread p)
     (_startSignaled p) (_endSignaled p) v (_stopManager p)
     (_managerStopped p) (_inputBuf p) (_bufferIndex p) (_batchSize p)
     (_startInds p) (_endInds p) (_dataOffsets p) (_targetOffsets p)
     (_targetSpans p) (_datumSize p) (_targetSize p).

Definition set_stopManager (v : bool) (p : t) : t :=
  mk (_count p) (_done p) (_stopped p) (_threads p) (_itemsPerThread p)
     (_startSignaled p) (_endSignaled p) (_manager p) v
     (_managerStopped p) (_inputBuf p) (_bufferIndex p) (_batchSize p)
     (_startInds p) (_endInds p) (_dataOffsets p) (_targetOffsets p)
     (_targetSpans p) (_datumSize p) (_targetSize p).

Definition set_managerStopped (v : bool) (p : t) : t :=
  mk (_count p) (_done p) (_stopped p) (_threads p) (_itemsPerThread p)
     (_startSignaled p) (_endSignaled p) (_manager p) (_stopManager p) v
     (_inputBuf p) (_bufferIndex p) (_batchSize p) (_startInds p)
     (_endInds p) (_dataOffsets p) (_targetOffsets p) (_targetSpans p)
     (_datumSize p) (_targetSize p).

Definition set_inputBuf (v : option Z) (p : t) : t :=
  mk (_count p) (_done p) (_stopped p) (_threads p) (_itemsPerThread p)
     (_startSignaled p) (_endSignaled p) (_manager p) (_stopManager p)
     (_managerStopped p) v (_bufferIndex p) (_batchSize p) (_startInds p)
     (_endInds p) (_dataOffsets p) (_targetOffsets p) (_targetSpans p)
     (_datumSize p) (_targetSize p).

Definition set_bufferIndex (v : Z) (p : t) : t :=
  mk (_count p) (_done p) (_stopped p) (_threads p) (_itemsPerThread p)
     (_startSignaled p) (_endSignaled p) (_manager p) (_stopManager p)
     (_managerStopped p) (_inputBuf p) v (_batchSize p) (_startInds p)
     (_endInds p) (_dataOffsets p) (_targetOffsets p) (_targetSpans p)
     (_datumSize p) (_targetSize p).

Definition set_startInds (v : list Z) (p : t) : t :=
  mk (_count p) (_done p) (_stopped p) (_threads p) (_itemsPerThread p)
     (_startSignaled p) (_endSignaled p) (_manager p) (_stopManager p)
     (_managerStopped p) (_inputBuf p) (_bufferIndex p) (_batchSize p) v
     (_endInds p) (_dataOffsets p) (_targetOffsets p) (_targetSpans p)
     (_datumSize p) (_targetSize p).

Definition set_endInds (v : list Z) (p : t) : t :=
  mk (_count p) (_done p) (_stopped p) (_threads p) (_itemsPerThread p)
     (_startSignaled p) (_endSignaled p) (_manager p) (_stopManager p)
     (_managerStopped p) (_inputBuf p) (_bufferIndex p) (_batchSize p)
     (_startInds p) v (_dataOffsets p) (_targetOffsets p)
     (_targetSpans p) (_datumSize p) (_targetSize p).

Definition set_dataOffsets (v : list Z) (p : t) : t :=
  mk (_count p) (_done p) (_stopped p) (_threads p) (_itemsPerThread p)
     (_startSignaled p) (_endSignaled p) (_manager p) (_stopManager p)
     (_managerStopped p) (_inputBuf p) (_bufferIndex p) (_batchSize p)
     (_startInds p) (_endInds p) v (_targetOffsets p) (_targetSpans p)
     (_datumSize p) (_targetSize p).

Definition set_targetOffsets (v : list Z) (p : t) : t :=
  mk (_count p) (_done p) (_stopped p) (_threads p) (_itemsPerThread p)
     (_startSignaled p) (_endSignaled p) (_manager p) (_stopManager p)
     (_managerStopped p) (_inputBuf p) (_bufferIndex p) (_batchSize p)
     (_startInds p) (_endInds p) (_dataOffsets p) v (_targetSpans p)
     (_datumSize p) (_targetSize p).

Definition set_targetSpans (v : list Z) (p : t) : t :=
  mk (_count p) (_done p) (_stopped p) (_threads p) (_itemsPerThread p)
     (_startSignaled p) (_endSignaled p) (_manager p) (_stopManager p)
     (_managerStopped p) (_inputBuf p) (_bufferIndex p) (_batchSize p)
     (_startInds p) (_endInds p) (_dataOffsets p) (_targetOffsets p) v
     (_datumSize p) (_targetSize p).

(** The constructor, lines 36-54, with [ThreadPool(count)]. *)
Definition new (count batchSize datumSize targetSize : Z) : t :=
  let zeros := replicate (Z.to_nat count) 0 in
  mk count false (replicate (Z.to_nat count) false) []
     (itemsPerThread batchSize count) zeros 0 None false false None 0
     batchSize zeros zeros zeros zeros zeros datumSize targetSize.

(** [start], lines 65-70, when its allocations succeed ([start_alloc]
    below has them fail). *)
Definition start (p : t) : t :=
  set_manager (Some MInit)
    (set_threads (_threads p ++ replicate (Z.to_nat (_count p)) WInit) p).

(** [start], lines 65-70, with its [new thread] expressions, which may
    throw: thread [i] is created by allocation [site + i] of the calling
    function, the manager by allocation [site + _count]; the result is
    the number of the next allocation.  When an allocation fails, the
    threads created before it are running and the exception leaves
    [start]; when none fails, the pool is [start p] above. *)
Fixpoint start_from (alloc_ok : nat → bool) (site n : nat) : M t nat :=
  match n with
  | O =>
      if alloc_ok site
      then _ ← modify (set_manager (Some MInit)); mret (S site)
      else throw bad_alloc
  | S n =>
      if alloc_ok site
      then _ ← modify (λ p, set_threads (_threads p ++ [WInit]) p);
           start_from alloc_ok (S site) n
      else throw bad_alloc
  end.

Definition start_alloc (alloc_ok : nat → bool) (site : nat) : M t nat :=
  p ← get; start_from alloc_ok site (Z.to_nat (_count p)).

(** The pool with the objects it holds references and pointers to, and
    the thread inside [stop]. *)
Record sys := mksys {
  obj : t;
  _in : BufferPool.t;
  _out : BufferPool.t;
  _device : Device.t;
  stopper : stop_pc
}.

Definition upd (f : t → t) (s : sys) : sys :=
  mksys (f (obj s)) (_in s) (_out s) (_device s) (stopper s).
Definition set_in (b : BufferPool.t) (s : sys) : sys :=
  mksys (obj s) b (_out s) (_device s) (stopper s).
Definition set_out (b : BufferPool.t) (s : sys) : sys :=
  mksys (obj s) (_in s) b (_device s) (stopper s).
Definition set_device (d : Device.t) (s : sys) : sys :=
  mksys (obj s) (_in s) (_out s) d (stopper s).
Definition set_stopper (c : stop_pc) (s : sys) : sys :=
  mksys (obj s) (_in s) (_out s) (_device s) c.

Definition set_pc (id : nat) (pc : worker_pc) (p : t) : t :=
  set_threads (<[id := pc]> (_threads p)) p.

(** The scheduler's choice: which thread takes its next step.  The
    manager's label carries what [Device::init] returns, the reader's
    label the pair as [Reader::read] has filled it. *)
Inductive label :=
| LWorker (id : nat)
| LManager (deviceInit : Z)
| LReader (filled : BufferPair)
| LConsumer
| LStop.

Section Steps.
Context `{Media}.

(** [run], lines 93-102. *)
Definition run_init (id : nat) (p : t) : t :=
  let idz := Z.of_nat id in
  let start := startInd (_itemsPerThread p) idz in
  let count :=
    itemCount (_count p) (_itemsPerThread p) (_batchSize p) idz in
  set_targetSpans (<[id := count * _targetSize p]> (_targetSpans p))
    (set_targetOffsets (<[id := start * _targetSize p]> (_targetOffsets p))
      (set_dataOffsets (<[id := start * _datumSize p]> (_dataOffsets p))
        (set_endInds (<[id := start + count]> (_endInds p))
          (set_startInds (<[id := start]> (_startInds p)) p)))).

(** [run], lines 103-107: the loop test. *)
Definition run_loop (id : nat) (s : sys) : sys :=
  if _done (obj s)
  then upd (set_pc id WStopped)
         (upd (λ p, set_stopped (<[id := true]> (_stopped p)) p) s)
  else upd (set_pc id WTop) s.

(** [work], lines 113-129: the test of the wait loop, and past it the
    decrement and the locals [i = start], [dataBuf], [outBuf]. *)
Definition work_top (id : nat) (s : sys) : option sys :=
  let p := obj s in
  v ← _startSignaled p !! id;
  if v =? 0 then Some (upd (set_pc id WWaiting) s)
  else
    start ← _startInds p !! id;
    dataOffset ← _dataOffsets p !! id;
    Some (upd (set_pc id (WData start dataOffset
                            (BufferPool._writePos (_out s))))
           (upd (set_startSignaled (<[id := v - 1]> (_startSignaled p)))
              s)).

(** [work], lines 115-118: woken up inside the wait loop. *)
Definition work_wake (id : nat) (s : sys) : sys :=
  if _done (obj s) then upd (set_pc id WRun) s
  else upd (set_pc id WTop) s.

(** [work], lines 131-139: one turn of the item loop. *)
Definition work_item (id : nat) (i dataBuf outBuf : Z) (s : sys)
  : option sys :=
  let p := obj s in
  inputBuf ← _inputBuf p;
  let inPair := BufferPool.slot (_in s) inputBuf in
  match Buffer.getItem inPair.1 i with
  | None => Some (upd (set_pc id WRun) s)               (* line 135 *)
  | Some (off, itemSize) =>
      item ← load (Buffer._data inPair.1) off itemSize;
      let outPair := BufferPool.slot (_out s) outBuf in
      d ← store (Buffer._data outPair.1) dataBuf
            (transform item (_datumSize p));
      Some (upd (set_pc id (WData (i + 1) (dataBuf + _datumSize p) outBuf))
             (set_out (BufferPool.set_slot outBuf
                         (Buffer.set_data d outPair.1, outPair.2)
                         (_out s)) s))
  end.

(** [work], lines 142-146: the targets of the worker's items. *)
Definition work_targets (id : nat) (outBuf : Z) (s : sys) : option sys :=
  let p := obj s in
  start ← _startInds p !! id;
  targetOffset ← _targetOffsets p !! id;
  targetSpan ← _targetSpans p !! id;
  inputBuf ← _inputBuf p;
  let inPair := BufferPool.slot (_in s) inputBuf in
  '(srcOff, _) ← Buffer.getItem inPair.2 start;
  let outPair := BufferPool.slot (_out s) outBuf in
  d ← memcpy (Buffer._data outPair.2) targetOffset
        (Buffer._data inPair.2) srcOff targetSpan;
  Some (upd (set_pc id WSignal)
         (set_out (BufferPool.set_slot outBuf
                     (outPair.1, Buffer.set_data d outPair.2)
                     (_out s)) s)).

(** [work], lines 148-153. *)
Definition work_signal (id : nat) (s : sys) : sys :=
  upd (set_pc id WRun)
    (upd (λ p, set_endSignaled (_endSignaled p + 1) p) s).

(** One step of worker thread [id].  No step ([None]) when the thread
    has returned, and where the C++ behaviour is undefined. *)
Definition worker_step (id : nat) (s : sys) : option sys :=
  pc ← _threads (obj s) !! id;
  match pc with
  | WInit => Some (upd (set_pc id WRun) (upd (run_init id) s))
  | WRun => Some (run_loop id s)
  | WTop => work_top id s
  | WWaiting => Some (work_wake id s)
  | WData i dataBuf outBuf =>
      endInd ← _endInds (obj s) !! id;
      if i <? endInd then work_item id i dataBuf outBuf s
      else work_targets id outBuf s
  | WSignal => Some (work_signal id s)
  | WStopped => None
  end.

Definition set_mpc (pc : manager_pc) (s : sys) : sys :=
  upd (set_manager (Some pc)) s.

(** [manage], lines 213-216. *)
Definition manage_init (result : Z) (s : sys) : sys :=
  let s := set_device (Device.do Device.init (_device s)) s in
  set_mpc MLoop (if result =? 0 then s else upd (set_stopManager true) s).

(** [manage], lines 217-220. *)
Definition manage_loop (s : sys) : sys :=
  if _stopManager (obj s)
  then set_mpc MStopped (upd (set_managerStopped true) s)
  else set_mpc MConsume s.

(** [consume], lines 197-205, up to the call of [produce]. *)
Definition consume_top (s : sys) : sys :=
  if BufferPool.empty (_in s) then set_mpc MWaitIn s
  else set_mpc MProduce
         (upd (set_inputBuf (Some (BufferPool._readPos (_in s)))) s).

(** [consume], lines 199-202: woken up inside the wait loop. *)
Definition consume_wake (s : sys) : sys :=
  if _stopManager (obj s) then set_mpc MLoop s else set_mpc MConsume s.

(** [produce], lines 159-169: asleep while the decode pool is full,
    then the start signals. *)
Definition produce_dispatch (s : sys) : option sys :=
  if BufferPool.full (_out s) then None
  else Some (set_mpc MJoin
               (upd (λ p, set_startSignaled ((λ _, 1) <$> _startSignaled p) p)
                  s)).

(** [produce], lines 171-176: asleep while [_endSignaled < _count]. *)
Definition produce_join (s : sys) : option sys :=
  if _endSignaled (obj s) <? _count (obj s) then None
  else Some (set_mpc MCopy (upd (set_endSignaled 0) s)).

(** [produce], lines 178-191. *)
Definition produce_copy (s : sys) : sys :=
  let p := obj s in
  let w := BufferPool._writePos (_out s) in
  let outBuf := BufferPool.getForWrite (_out s) in
  let data := Matrix.transpose (Buffer._data outBuf.1)
                (_batchSize p) (_datumSize p) in
  let outBuf := (Buffer.set_data data outBuf.1, outBuf.2) in
  let d := Device.do (Device.copyData (_bufferIndex p)
                        (Buffer._data outBuf.1) (Buffer._size outBuf.1))
             (_device s) in
  let d := Device.do (Device.copyLabels (_bufferIndex p)
                        (Buffer._data outBuf.2) (Buffer._size outBuf.2))
             d in
  set_mpc MAdvance
    (set_out (BufferPool.signalNonEmpty
                (BufferPool.advanceWritePos
                   (BufferPool.set_slot w outBuf (_out s))))
       (upd (set_bufferIndex (if _bufferIndex p =? 0 then 1 else 0))
          (set_device d s))).

(** [consume], lines 206-208. *)
Definition consume_advance (s : sys) : sys :=
  set_mpc MLoop
    (set_in (BufferPool.signalNonFull (BufferPool.advanceReadPos (_in s)))
       s).

(** One step of the manager thread. *)
Definition manager_step (deviceInit : Z) (s : sys) : option sys :=
  pc ← _manager (obj s);
  match pc with
  | MInit => Some (manage_init deviceInit s)
  | MLoop => Some (manage_loop s)
  | MConsume => Some (consume_top s)
  | MWaitIn => Some (consume_wake s)
  | MProduce => produce_dispatch s
  | MJoin => produce_join s
  | MCopy => Some (produce_copy s)
  | MAdvance => Some (consume_advance s)
  | MStopped => None
  end.

(** The manager holds the mutex of [_in] from the end of its wait in
    [consume] to the end of [consume], and the mutex of [_out] from the
    end of its wait in [produce] to the end of [produce]. *)
Definition holds_in (p : t) : bool :=
  match _manager p with
  | Some (MProduce | MJoin | MCopy | MAdvance) => true
  | _ => false
  end.

Definition holds_out (p : t) : bool :=
  match _manager p with
  | Some (MJoin | MCopy) => true
  | _ => false
  end.

(** [ReadThread::produce], lines 264-276, when [Reader::read] has
    filled the write slot of the read pool and returned 0. *)
Definition reader_step (filled : BufferPair) (s : sys) : option sys :=
  if holds_in (obj s) || BufferPool.full (_in s) then None
  else Some (set_in (BufferPool.signalNonEmpty
                       (BufferPool.advanceWritePos
                          (BufferPool.set_slot
                             (BufferPool._writePos (_in s)) filled
                             (_in s)))) s).

(** The consumer releasing a minibatch: [Loader::next], lines 397-398
    and 386-388, and [Loader::drain], lines 424-426. *)
Definition consumer_step (s : sys) : option sys :=
  if holds_out (obj s) then None
  else Some (set_out (BufferPool.signalNonFull
                        (BufferPool.advanceReadPos (_out s))) s).

(** Modelled from the spec: [ThreadPool::stopped] of the missing
    thread-pool header, "reports stopped": every thread has set its
    flag (line 107). *)
Definition stopped (p : t) : bool := forallb (λ b, b) (_stopped p).

(** The poke of lines 76-77 and 83-84. *)
Definition poke_in (s : sys) : sys :=
  set_in (BufferPool.signalNonEmpty (BufferPool.advanceWritePos (_in s))) s.

(** One step of the thread inside [stop], lines 72-88.  Modelled from
    the spec: [ThreadPool::stop] of the missing thread-pool header,
    "signal the worker pool's done". *)
Definition stop_step (s : sys) : option sys :=
  match stopper s with
  | SIdle => Some (set_stopper SWorkers (upd (set_done true) s))
  | SWorkers =>
      if stopped (obj s)
      then Some (set_stopper SManager (upd (set_stopManager true) s))
      else Some (poke_in s)
  | SManager =>
      if _managerStopped (obj s) then Some (set_stopper SDone s)
      else Some (upd (λ p, set_endSignaled (_endSignaled p + 1) p)
                   (poke_in s))
  | SDone => None
  end.

Definition step (l : label) (s : sys) : option sys :=
  match l with
  | LWorker id => worker_step id s
  | LManager deviceInit => manager_step deviceInit s
  | LReader filled => reader_step filled s
  | LConsumer => consumer_step s
  | LStop => stop_step s
  end.

(** A schedule run from a state. *)
Fixpoint exec (ls : list label) (s : sys) : option sys :=
  match ls with
  | [] => Some s
  | l :: ls => s' ← step l s; exec ls s'
  end.

Inductive reachable (s0 : sys) : sys → Prop :=
| reachable_init : reachable s0 s0
| reachable_step s l s' :
    reachable s0 s → step l s = Some s' → reachable s0 s'.

End Steps.

(** The pipeline as [Loader::start] leaves it: the pool constructed
    over the two buffer pools, its threads created. *)
Definition init (count batchSize datumSize targetSize : Z)
    (readBufs decodeBufs : BufferPool.t) (device : Device.t) : sys :=
  mksys (start (new count batchSize datumSize targetSize))
        readBufs decodeBufs device SIdle.

End DecodeThreadPool.

(** ** class ReadThread *)

(** Modelled from the spec: the [Reader] interface of the missing archive
    header.  "[read(pair) → 0 | −1]: fill both halves of [pair] with one
    minibatch; on unrecoverable error, return −1."  [R] is the reader's own
    state. *)
Class Reader (R : Type) := {
  read : R → BufferPair → Z * R * BufferPair;
  reset : R → R
}.

Module ReadThread.

(** The members of the base [ThreadPool] (the class adds references
    only); [_threads] counts the thread objects created. *)
Record t := mk {
  _count : Z;
  _done : bool;
  _threads : nat
}.

Definition set_done (v : bool) (p : t) : t := mk (_count p) v (_threads p).

(** The constructor, lines 251-254. *)
Definition new : t := mk 1 false 0.

(** Modelled from the spec: [ThreadPool::start] of the missing
    thread-pool header creates one thread for each of the [_count]
    workers. *)
Definition start (p : t) : t :=
  mk (_count p) (_done p) (_threads p + Z.to_nat (_count p)).

(** Modelled from the spec: [ThreadPool::start] with the allocations of
    its thread objects, which may throw; thread [i] is created by
    allocation [site + i] of the calling function. *)
Fixpoint start_from (alloc_ok : nat → bool) (site n : nat) : M t nat :=
  match n with
  | O => mret site
  | S n =>
      if alloc_ok site
      then _ ← modify (λ p, mk (_count p) (_done p) (S (_threads p)));
           start_from alloc_ok (S site) n
      else throw bad_alloc
  end.

Definition start_alloc (alloc_ok : nat → bool) (site : nat) : M t nat :=
  p ← get; start_from alloc_ok site (Z.to_nat (_count p)).

(** The thread with the objects it holds references to. *)
Record env (R : Type) := mkenv {
  self : t;
  _out : BufferPool.t;
  _reader : R
}.
Arguments mkenv {R}.
Arguments self {R}.
Arguments _out {R}.
Arguments _reader {R}.

Definition could_not_read : string :=
  String.append "Could not read data" (String (Ascii.ascii_of_nat 10) EmptyString).

Section Produce.
Context {R : Type} `{Reader R}.

(** [produce], lines 261-277. *)
Definition produce : M (env R) unit :=
  e ← get;
  if BufferPool.full (_out e) then block
  else
    let bufPair := BufferPool.getForWrite (_out e) in
    let '(result, reader, bufPair) := read (_reader e) bufPair in
    let out := BufferPool.set_slot (BufferPool._writePos (_out e))
                 bufPair (_out e) in
    _ ← modify (λ e, mkenv (self e) out reader);
    _ ← (if result =? -1
         then _ ← modify (λ e, mkenv (set_done true (self e))
                                 (_out e) (_reader e));
              throw (runtime_error could_not_read)
         else mret tt);
    _ ← modify (λ e, mkenv (self e) (BufferPool.advanceWritePos (_out e))
                       (_reader e));
    modify (λ e, mkenv (self e) (BufferPool.signalNonEmpty (_out e))
                   (_reader e)).

End Produce.

End ReadThread.

(** ** class Loader *)

Module Loader.

(** The members of the class; a null pointer is [None].  The two thread
    pools hold references to [_readBufs] and [_decodeBufs], which live
    here only. *)
Record t := mk {
  _first : bool;
  _batchSize : Z;
  _datumSize : Z;
  _targetSize : Z;
  _readBufs : option BufferPool.t;
  _decodeBufs : option BufferPool.t;
  _readThread : option ReadThread.t;
  _decodeThreads : option DecodeThreadPool.t;
  _device : Device.t
}.

Definition set_first (v : bool) (l : t) : t :=
  mk v (_batchSize l) (_datumSize l) (_targetSize l) (_readBufs l)
     (_decodeBufs l) (_readThread l) (_decodeThreads l) (_device l).
Definition set_readBufs (v : option BufferPool.t) (l : t) : t :=
  mk (_first l) (_batchSize l) (_datumSize l) (_targetSize l) v
     (_decodeBufs l) (_readThread l) (_decodeThreads l) (_device l).
Definition set_decodeBufs (v : option BufferPool.t) (l : t) : t :=
  mk (_first l) (_batchSize l) (_datumSize l) (_targetSize l) (_readBufs l)
     v (_readThread l) (_decodeThreads l) (_device l).
Definition set_readThread (v : option ReadThread.t) (l : t) : t :=
  mk (_first l) (_batchSize l) (_datumSize l) (_targetSize l) (_readBufs l)
     (_decodeBufs l) v (_decodeThreads l) (_device l).
Definition set_decodeThreads (v : option DecodeThreadPool.t) (l : t) : t :=
  mk (_first l) (_batchSize l) (_datumSize l) (_targetSize l) (_readBufs l)
     (_decodeBufs l) (_readThread l) v (_device l).

(** The constructor, lines 296-299. *)
Definition new (batchSize datumSize targetSize : Z) (device : Device.t) : t :=
  mk true batchSize datumSize targetSize None None None None device.

(** A [new] expression: it throws [std::bad_alloc] when the allocation,
    the [site]-th of the call, fails. *)
Definition new_ {A} (alloc_ok : nat → bool) (site : nat) (a : A) : M t A :=
  if alloc_ok site then mret a else throw bad_alloc.

(** [a / b] on [int]; undefined for [b = 0]. *)
Definition div_int (a b : Z) : M t Z :=
  if b =? 0 then undef else mret (Z.quot a b).

(** [p->start()] through a member pointer; undefined for a null one. *)
Definition deref {A} (p : option A) : M t A :=
  match p with Some a => mret a | None => undef end.

(** [_decodeThreads->f()] and [_readThread->f()]: a member function run
    on the object the pointer refers to, whose changes stay when it
    throws; undefined for a null pointer. *)
Definition with_decodeThreads {A} (m : M DecodeThreadPool.t A) : M t A :=
  λ l, match _decodeThreads l with
       | None => (Undef, l)
       | Some p => let '(r, p') := m p in (r, set_decodeThreads (Some p') l)
       end.

Definition with_readThread {A} (m : M ReadThread.t A) : M t A :=
  λ l, match _readThread l with
       | None => (Undef, l)
       | Some p => let '(r, p') := m p in (r, set_readThread (Some p') l)
       end.

(** [start], lines 340-342: the calls after the [try] block.  The
    thread objects they allocate are the allocations 4, 5, ... of
    [start]; an exception they throw is not caught. *)
Definition start_threads (alloc_ok : nat → bool) : M t Z :=
  site ← with_decodeThreads (DecodeThreadPool.start_alloc alloc_ok 4);
  _ ← with_readThread (ReadThread.start_alloc alloc_ok site);
  mret 0.

(** [start], lines 319-343.  [numCores] is what
    [thread::hardware_concurrency()] returns; the body of the [try]
    gives [None] when control leaves it at its end, the handler gives
    the value the function returns.  Allocation 3 is the [new] expression
    of the decode thread pool, whose constructor divides by the thread
    count (line 37).  The sizes of the pools are the products in [Z],
    which are the [int] products of lines 324-329 when these do not
    overflow. *)
Definition start (numCores : Z) (alloc_ok : nat → bool) : M t Z :=
  _ ← modify (set_first true);
  r ← try_catch_bad_alloc
        (l ← get;
         readBufs ← new_ alloc_ok 0
           (BufferPool.new (_batchSize l * _datumSize l)
                           (_batchSize l * _targetSize l) false);
         _ ← modify (set_readBufs (Some readBufs));
         readThread ← new_ alloc_ok 1 ReadThread.new;
         _ ← modify (set_readThread (Some readThread));
         let pinned := negb (Device.is_CPU (_device l)) in
         decodeBufs ← new_ alloc_ok 2
           (BufferPool.new (_batchSize l * _datumSize l)
                           (_batchSize l * _targetSize l) pinned);
         _ ← modify (set_decodeBufs (Some decodeBufs));
         q ← div_int (_batchSize l - 1) numCores;
         let itemsPerThread := q + 1 in
         q ← div_int (_batchSize l - 1) itemsPerThread;
         let threadCount := q + 1 in
         let threadCount := Z.min threadCount (_batchSize l) in
         _ ← new_ alloc_ok 3 tt;
         _ ← div_int (_batchSize l - 1) threadCount;
         _ ← modify (set_decodeThreads
                       (Some (DecodeThreadPool.new threadCount (_batchSize l)
                                (_datumSize l) (_targetSize l))));
         mret None)
        (mret (Some (-1)));
  match r with
  | Some v => mret v
  | None => start_threads alloc_ok
  end.

(** The wait loop of lines 400-402 and 379-381; also what a caller
    asleep in [waitForNonEmpty] does when it is woken up. *)
Definition wait_nonEmpty : M t unit :=
  l ← get;
  decodeBufs ← deref (_decodeBufs l);
  if BufferPool.empty decodeBufs then block else mret tt.

(** [next()], lines 391-403. *)
Definition next : M t unit :=
  l ← get;
  decodeBufs ← deref (_decodeBufs l);
  _ ← (if _first l then modify (set_first false)
       else
         _ ← modify (set_decodeBufs
                       (Some (BufferPool.advanceReadPos decodeBufs)));
         l ← get;
         decodeBufs ← deref (_decodeBufs l);
         modify (set_decodeBufs
                   (Some (BufferPool.signalNonFull decodeBufs))));
  wait_nonEmpty.

(** [next(dataBuf, targetsBuf)], lines 374-389; the result is the
    caller's two buffers after the call. *)
Definition next2 (dataBuf targetsBuf : Buffer.t) : M t (Buffer.t * Buffer.t) :=
  _ ← wait_nonEmpty;
  l ← get;
  decodeBufs ← deref (_decodeBufs l);
  let data := (BufferPool.getForRead decodeBufs).1 in
  match memcpy (Buffer._data dataBuf) 0 (Buffer._data data) 0
               (Buffer._size dataBuf) with
  | None => undef
  | Some d =>
      let targets := (BufferPool.getForRead decodeBufs).2 in
      match memcpy (Buffer._data targetsBuf) 0 (Buffer._data targets) 0
                   (Buffer._size targetsBuf) with
      | None => undef
      | Some g =>
          _ ← modify (set_decodeBufs
                        (Some (BufferPool.advanceReadPos decodeBufs)));
          l ← get;
          decodeBufs ← deref (_decodeBufs l);
          _ ← modify (set_decodeBufs
                        (Some (BufferPool.signalNonFull decodeBufs)));
          mret (Buffer.set_data d dataBuf, Buffer.set_data g targetsBuf)
      end
  end.

(** [drain], lines 418-427. *)
Definition drain : M t unit :=
  l ← get;
  decodeBufs ← deref (_decodeBufs l);
  if BufferPool.empty decodeBufs then mret tt
  else
    _ ← modify (set_decodeBufs
                  (Some (BufferPool.advanceReadPos decodeBufs)));
    l ← get;
    decodeBufs ← deref (_decodeBufs l);
    modify (set_decodeBufs (Some (BufferPool.signalNonFull decodeBufs))).

End Loader.

Global Arguments Loader.start_threads : simpl never.

(** ** Observations on a loader *)

(** The thread objects a loader holds. *)
Definition thread_count (l : Loader.t) : nat :=
  (from_option ReadThread._threads 0 (Loader._readThread l)
   + from_option (λ p, length (DecodeThreadPool._threads p)
                       + from_option (λ _, 1) 0 (DecodeThreadPool._manager p))
       0 (Loader._decodeThreads l))%nat.

(** What [start] leaves behind when its [try] block is left at its
    end. *)
Definition started (l : Loader.t) (N : Z) : Loader.t :=
  let B := Loader._batchSize l in
  Loader.mk true B (Loader._datumSize l) (Loader._targetSize l)
    (Some (BufferPool.new (B * Loader._datumSize l)
                          (B * Loader._targetSize l) false))
    (Some (BufferPool.new (B * Loader._datumSize l)
                          (B * Loader._targetSize l)
                          (negb (Device.is_CPU (Loader._device l)))))
    (Some ReadThread.new)
    (Some (DecodeThreadPool.new N B (Loader._datumSize l)
                                (Loader._targetSize l)))
    (Loader._device l).

(** The values of C++ [int]. *)
Definition in_int (z : Z) : Prop := - 2 ^ 31 ≤ z < 2 ^ 31.

(** The first of the four allocations of the [try] block of [start]
    that fails. *)
Definition first_failure (alloc_ok : nat → bool) : option nat :=
  find (λ k, negb (alloc_ok k)) [0; 1; 2; 3]%nat.

(** ** Collaborators for the examples *)

(** A reader whose [read] fails at once, leaving the pair as it is. *)
Definition failing_reader : Reader unit :=
  {| read := λ _ pair, (-1, tt, pair); reset := λ _, tt |}.

(** A reader whose [read] puts the same pair into every slot. *)
Definition filling_reader (filled : BufferPair) : Reader unit :=
  {| read := λ _ _, (0, tt, filled); reset := λ _, tt |}.

(** A media whose transform keeps the item: cut to the capacity, padded
    with zero bytes. *)
Definition identity_transform (src : bytes) (cap : Z) : bytes :=
  take (Z.to_nat cap) (src ++ replicate (Z.to_nat cap) x00).

Definition identity_media : Media.
Proof.
  refine {| transform := identity_transform |}.
  intros src cap. unfold identity_transform.
  rewrite length_take, length_app, length_replicate. lia.
Defined.

(** ** Invariants of the running pipeline *)

Import DecodeThreadPool.

(** A worker thread between the decrement of its start signal and the
    increment of [_endSignaled]. *)
Definition working (pc : worker_pc) : bool :=
  match pc with
  | WData _ _ _ | WSignal => true
  | _ => false
  end.

(** [stop] has reached the loop of lines 81-87, where it increments
    [_endSignaled] itself. *)
Definition poking (s : sys) : bool :=
  match stopper s with
  | SManager | SDone => true
  | SIdle | SWorkers => false
  end.

Definition workers (s : sys) : nat := Z.to_nat (_count (obj s)).
Definition mpc (s : sys) : option manager_pc := _manager (obj s).

(** The item range [[startOf, endOf)] that [run] gives worker [id]. *)
Definition startOf (p : t) (id : nat) : Z :=
  startInd (_itemsPerThread p) (Z.of_nat id).
Definition countOf (p : t) (id : nat) : Z :=
  itemCount (_count p) (_itemsPerThread p) (_batchSize p) (Z.of_nat id).
Definition endOf (p : t) (id : nat) : Z := startOf p id + countOf p id.

(** The pool as the constructor builds it when its two assertions
    (lines 44-45) hold. *)
Definition wf_config (p : t) : Prop :=
  1 ≤ _count p ∧ 1 ≤ _batchSize p ∧ 0 ≤ _datumSize p ∧ 0 ≤ _targetSize p ∧
  1 ≤ _itemsPerThread p ∧
  _batchSize p ≤ _itemsPerThread p * _count p ∧
  _itemsPerThread p * (_count p - 1) < _batchSize p.

(** The five vectors hold what [run] computes for worker [id]. *)
Definition partition_ok (p : t) (id : nat) : Prop :=
  _startInds p !! id = Some (startOf p id) ∧
  _endInds p !! id = Some (endOf p id) ∧
  _dataOffsets p !! id = Some (startOf p id * _datumSize p) ∧
  _targetOffsets p !! id = Some (startOf p id * _targetSize p) ∧
  _targetSpans p !! id = Some (countOf p id * _targetSize p).

(** Both halves of a slot have the capacity [Loader::start] allocates. *)
Definition pair_sized (p : t) (b : BufferPair) : Prop :=
  Z.of_nat (length (Buffer._data b.1)) = _batchSize p * _datumSize p ∧
  Z.of_nat (length (Buffer._data b.2)) = _batchSize p * _targetSize p.

Definition pool_sized (p : t) (b : BufferPool.t) : Prop :=
  pair_sized p (BufferPool._slot0 b) ∧ pair_sized p (BufferPool._slot1 b).

Record base_inv (s : sys) : Prop := {
  base_config : wf_config (obj s);
  base_manager : is_Some (mpc s);
  base_threads : length (_threads (obj s)) = workers s;
  base_signals : length (_startSignaled (obj s)) = workers s;
  base_stopflags : length (_stopped (obj s)) = workers s;
  base_vectors :
    length (_startInds (obj s)) = workers s ∧
    length (_endInds (obj s)) = workers s ∧
    length (_dataOffsets (obj s)) = workers s ∧
    length (_targetOffsets (obj s)) = workers s ∧
    length (_targetSpans (obj s)) = workers s;
  base_signal_values :
    ∀ id v, _startSignaled (obj s) !! id = Some v → v = 0 ∨ v = 1;
  base_partition :
    ∀ id pc, _threads (obj s) !! id = Some pc → pc ≠ WInit →
             partition_ok (obj s) id;
  base_stopped :
    ∀ id, _stopped (obj s) !! id = Some true →
          _threads (obj s) !! id = Some WStopped;
  base_poking :
    poking s = true →
    ∀ id pc, _threads (obj s) !! id = Some pc → pc = WStopped;
  base_out : pool_sized (obj s) (_out s)
}.

(** The input pair of the batch in flight and the pair it is decoded
    into. *)
Definition input (s : sys) : option BufferPair :=
  k ← _inputBuf (obj s); Some (BufferPool.slot (_in s) k).

Definition output (s : sys) : BufferPair := BufferPool.getForWrite (_out s).

(** Worker [id] is not at work and its start signal is down. *)
Definition idle (s : sys) (id : nat) : Prop :=
  _startSignaled (obj s) !! id = Some 0 ∧
  ∃ pc, _threads (obj s) !! id = Some pc ∧ working pc = false.

Section Regions.
Context `{Media}.

(** Row [j] of the output holds the transform of item [j] of the input. *)
Definition item_done (s : sys) (j : Z) : Prop :=
  ∃ inp item,
    input s = Some inp ∧ Buffer.item inp.1 j = Some item ∧
    load (Buffer._data (output s).1) (j * _datumSize (obj s))
         (_datumSize (obj s))
      = Some (transform item (_datumSize (obj s))).

Definition data_ok (s : sys) (id : nat) (upto : Z) : Prop :=
  ∀ j, startOf (obj s) id ≤ j < upto → item_done s j.

(** The target rows of worker [id] hold the bytes that follow the start
    of target item [startOf id] in the input. *)
Definition target_ok (s : sys) (id : nat) : Prop :=
  ∃ inp srcOff len b,
    input s = Some inp ∧
    Buffer.getItem inp.2 (startOf (obj s) id) = Some (srcOff, len) ∧
    load (Buffer._data inp.2) srcOff (countOf (obj s) id * _targetSize (obj s))
      = Some b ∧
    load (Buffer._data (output s).2)
         (startOf (obj s) id * _targetSize (obj s))
         (countOf (obj s) id * _targetSize (obj s))
      = Some b.

Definition region_ok (s : sys) (id : nat) : Prop :=
  data_ok s id (endOf (obj s) id) ∧ target_ok s id.

Record join_inv (s : sys) : Prop := {
  join_fin :
    poking s = false → mpc s = Some MJoin →
    ∃ fin : list nat,
      NoDup fin ∧ _endSignaled (obj s) = Z.of_nat (length fin) ∧
      ∀ id, id ∈ fin → (id < workers s)%nat ∧ idle s id ∧ region_ok s id;
  join_idle :
    poking s = false → mpc s ≠ Some MJoin →
    _endSignaled (obj s) = 0 ∧ ∀ id, (id < workers s)%nat → idle s id;
  join_copy :
    poking s = false → mpc s = Some MCopy →
    ∀ id, (id < workers s)%nat → region_ok s id;
  join_data :
    ∀ id i d o, _threads (obj s) !! id = Some (WData i d o) →
      mpc s = Some MJoin ∧ o = BufferPool._writePos (_out s) ∧
      startOf (obj s) id ≤ i ≤ endOf (obj s) id ∧
      d = i * _datumSize (obj s) ∧
      _startSignaled (obj s) !! id = Some 0 ∧
      data_ok s id i;
  join_signal :
    ∀ id, _threads (obj s) !! id = Some WSignal →
      mpc s = Some MJoin ∧ _startSignaled (obj s) !! id = Some 0 ∧
      region_ok s id
}.

End Regions.

(** The device slot protocol: the [k]-th minibatch goes to slot
    [k mod 2], data and labels alike, and [_bufferIndex] is the slot of
    the next one. *)
Definition alternating (slots : list Z) : Prop :=
  ∀ (k : nat) (v : Z), slots !! k = Some v → v = Z.of_nat k mod 2.

Record slot_inv (s : sys) : Prop := {
  slot_data : alternating (Device.dataSlots (_device s));
  slot_labels : Device.labelSlots (_device s) = Device.dataSlots (_device s);
  slot_next :
    _bufferIndex (obj s)
      = Z.of_nat (length (Device.dataSlots (_device s))) mod 2
}.

(** ** A concrete run

    Four items of two bytes with one-byte targets, decoded by two workers
    with the identity media. *)

Definition example_input : BufferPair :=
  (Buffer.mk [x10; x11; x20; x21; x30; x31; x40; x41] 8
     [(0, 2); (2, 2); (4, 2); (6, 2)] false,
   Buffer.mk [xa0; xa1; xa2; xa3] 4 [(0, 1); (1, 1); (2, 1); (3, 1)] false).

Definition example_init : sys :=
  init 2 4 2 1 (BufferPool.new 8 4 false) (BufferPool.new 8 4 false)
       (Device.mk Device.CPU []).

(** The manager initialises the device and waits for input, the reader
    fills a pair, the manager dispatches the batch; the two workers
    decode their halves in turns and signal; the manager joins, transposes
    and copies to the device. *)
Definition example_dispatch : list label :=
  [LManager 0; LManager 0; LReader example_input; LManager 0; LManager 0].

Definition example_decode : list label :=
  [LWorker 0; LWorker 1; LWorker 0; LWorker 1; LWorker 0; LWorker 1;
   LWorker 1; LWorker 0; LWorker 0; LWorker 1; LWorker 1; LWorker 0;
   LWorker 0; LWorker 1]%nat.

Definition example_deliver : list label := [LManager 0; LManager 0].

Definition example_schedule : list label :=
  example_dispatch ++ example_decode ++ example_deliver.

(** Two states with the same constants of the pool. *)
Definition same_config (p p' : t) : Prop :=
  _count p' = _count p ∧ _itemsPerThread p' = _itemsPerThread p ∧
  _batchSize p' = _batchSize p ∧ _datumSize p' = _datumSize p ∧
  _targetSize p' = _targetSize p.

(** Two states in which the workers see the same input pair, the same
    output pair and the same constants. *)
Definition same_view (s s' : sys) : Prop :=
  same_config (obj s) (obj s') ∧ input s' = input s ∧ output s' = output s ∧
  BufferPool._writePos (_out s') = BufferPool._writePos (_out s).

(** The state the schedule leaves the pipeline in. *)
Definition example_final : option sys :=
  Eval vm_compute in exec (H := identity_media) example_schedule example_init.

#[global] Instance manager_pc_eq_dec : EqDecision manager_pc.
Proof. solve_decision. Defined.

(** The state after the two workers have decoded and signalled, before
    the manager has joined. *)
Definition example_joined : option sys :=
  Eval vm_compute in
    exec (H := identity_media) (example_dispatch ++ example_decode)
         example_init.

(** The item range of worker [id] as the specification writes it:
    [startInd = id * itemsPerThread] and
    [endInd = min((id+1) * itemsPerThread, batchSize)]. *)
Definition specStart (p : t) (id : nat) : Z :=
  Z.of_nat id * _itemsPerThread p.
Definition specEnd (p : t) (id : nat) : Z :=
  Z.min ((Z.of_nat id + 1) * _itemsPerThread p) (_batchSize p).

(** Two intervals [[lo, hi)] of byte offsets that share no offset. *)
Definition disjoint (a b : Z * Z) : Prop := a.2 ≤ b.1 ∨ b.2 ≤ a.1.

(** The state in the middle of the decoding, after eight of the
    workers' steps. *)
Definition example_decoding : option sys :=
  Eval vm_compute in
    exec (H := identity_media) (example_dispatch ++ take 8 example_decode)
         example_init.

Definition example_decoding_next : option sys :=
  Eval vm_compute in
    (s ← example_decoding; worker_step (H := identity_media) 0 s).

(** The target half of an input pair as the reader lays it: item [j] is
    the [_targetSize] bytes at offset [j * _targetSize]. *)
Definition targets_dense (p : t) (b : Buffer.t) : Prop :=
  ∀ j, 0 ≤ j < _batchSize p →
       Buffer.getItem b j = Some (j * _targetSize p, _targetSize p).

(** The state after the manager has joined the two workers. *)
Definition example_copying : option sys :=
  Eval vm_compute in
    exec (H := identity_media)
         (example_dispatch ++ example_decode ++ [LManager 0]) example_init.

(** A batch in flight that cannot complete: the manager waits in the
    join, the workers in [fin] have signalled, and worker [lost] is back
    outside its work without having signalled. *)
Definition join_blocked (s : sys) : Prop :=
  mpc s = Some MJoin ∧
  ∃ (fin : list nat) (lost : nat),
    NoDup (lost :: fin) ∧
    _endSignaled (obj s) = Z.of_nat (length fin) ∧
    ∀ id, id ∈ lost :: fin → (id < workers s)%nat ∧ idle s id.

(** An input pair whose data half holds three items only. *)
Definition example_short_input : BufferPair :=
  (Buffer.mk [x10; x11; x20; x21; x30; x31; x00; x00] 8
     [(0, 2); (2, 2); (4, 2)] false,
   Buffer.mk [xa0; xa1; xa2; xa3] 4 [(0, 1); (1, 1); (2, 1); (3, 1)] false).

(** Worker 0 decodes its two items and signals; worker 1 decodes item 2
    and stands before item 3, which the input does not hold. *)
Definition example_short_schedule : list label :=
  [LManager 0; LManager 0; LReader example_short_input; LManager 0;
   LManager 0;
   LWorker 0; LWorker 0; LWorker 0; LWorker 0; LWorker 0; LWorker 0;
   LWorker 0;
   LWorker 1; LWorker 1; LWorker 1; LWorker 1]%nat.

Definition example_short : option sys :=
  Eval vm_compute in
    exec (H := identity_media) example_short_schedule example_init.

Definition example_short_next : option sys :=
  Eval vm_compute in
    (s ← example_short; worker_step (H := identity_media) 1 s).

(** The items of a batch, counted over the ranges of the workers. *)
Definition total_items (p : t) : Z :=
  foldr Z.add 0 (countOf p <$> seq 0 (Z.to_nat (_count p))).



(** The flags of the shutdown protocol and the manager's input pointer:
    [_done] is set once [stop] has been called and before any worker
    returns from [run]; [_stopManager] is set before [stop] counts for
    the workers and before the manager returns; [_managerStopped] is set
    exactly when the manager has returned, and before [stop] returns;
    while the manager holds the mutex of the read pool, [_inputBuf]
    points to the slot at its read cursor. *)
Record ctl_inv (s : sys) : Prop := {
  ctl_done : stopper s ≠ SIdle → _done (obj s) = true;
  ctl_stopped :
    ∀ id, _threads (obj s) !! id = Some WStopped → _done (obj s) = true;
  ctl_poking : poking s = true → _stopManager (obj s) = true;
  ctl_manager : _managerStopped (obj s) = true ↔ mpc s = Some MStopped;
  ctl_manager_flag : mpc s = Some MStopped → _stopManager (obj s) = true;
  ctl_returned : stopper s = SDone → _managerStopped (obj s) = true;
  ctl_input :
    holds_in (obj s) = true →
    _inputBuf (obj s) = Some (BufferPool._readPos (_in s))
}.

(** [stop] called at once: the workers leave [run] at its loop test, the
    manager leaves [manage] at its loop test, [stop] returns. *)
Definition example_stop_schedule : list label :=
  [LStop; LWorker 0; LWorker 0; LWorker 1; LWorker 1; LStop;
   LManager 0; LManager 0; LStop]%nat.

Definition example_stopped : option sys :=
  Eval vm_compute in
    exec (H := identity_media) example_stop_schedule example_init.

(** The state in which worker 1 has decoded its items and stands before
    the copy of its targets. *)
Definition example_targets : option sys :=
  Eval vm_compute in
    exec (H := identity_media) (example_dispatch ++ take 10 example_decode)
         example_init.

Definition example_targets_next : option sys :=
  Eval vm_compute in
    (s ← example_targets; worker_step (H := identity_media) 1 s).

(** The manager has its stop flag and no batch in hand, and no worker
    has a start signal to take. *)
Definition never_started (s : sys) : Prop :=
  _stopManager (obj s) = true ∧
  (mpc s = Some MLoop ∨ mpc s = Some MStopped) ∧
  ∀ id pc, _threads (obj s) !! id = Some pc →
    pc = WStopped ∨
    (working pc = false ∧ _startSignaled (obj s) !! id = Some 0).

(** The two device calls of [produce], lines 184-187, for a pair copied
    to slot [k]. *)
Definition batch_calls (k : Z) (pair : BufferPair) : list Device.call :=
  [Device.copyData k (Buffer._data pair.1) (Buffer._size pair.1);
   Device.copyLabels k (Buffer._data pair.2) (Buffer._size pair.2)].

(** The calls the device has seen when the pairs [bs] have been
    delivered, in this order. *)
Definition device_trace (initialised : bool) (bs : list BufferPair)
  : list Device.call :=
  (if initialised then [Device.init] else [])
  ++ mjoin (imap (λ k pair, batch_calls (Z.of_nat k mod 2) pair) bs).

Definition manager_initialised (s : sys) : bool :=
  match mpc s with Some MInit => false | _ => true end.

Definition advancing (s : sys) : nat :=
  match mpc s with Some MAdvance => 1 | _ => 0 end.

(** The pairs [bs] have been delivered since the pools held [n0]
    [nonEmpty] signals (decode pool) and [m0] [nonFull] signals (read
    pool). *)
Record device_inv (n0 m0 : nat) (bs : list BufferPair) (s : sys) : Prop := {
  dev_calls :
    Device.calls (_device s) = device_trace (manager_initialised s) bs;
  dev_first : manager_initialised s = false → bs = [];
  dev_index : _bufferIndex (obj s) = Z.of_nat (length bs) mod 2;
  dev_delivered : BufferPool._nonEmpty (_out s) = (n0 + length bs)%nat;
  dev_consumed :
    (BufferPool._nonFull (_in s) + advancing s = m0 + length bs)%nat
}.

(** * Properties *)

(** ** Arithmetic of the worker count *)

Lemma quot_ceil (a b : Z) :
  1 ≤ a → 1 ≤ b → Z.quot (a - 1) b + 1 = ceil_div a b.
Proof.
  intros Ha Hb. unfold ceil_div.
  rewrite Z.quot_div_nonneg by lia.
  pose proof (Z.div_mod (a - 1) b ltac:(lia)) as E1.
  pose proof (Z.mod_pos_bound (a - 1) b ltac:(lia)) as B1.
  pose proof (Z.div_mod (- a) b ltac:(lia)) as E2.
  pose proof (Z.mod_pos_bound (- a) b ltac:(lia)) as B2.
  nia.
Qed.

Lemma ceil_div_bounds (a b : Z) :
  1 ≤ a → 1 ≤ b →
  b * (ceil_div a b - 1) < a ≤ b * ceil_div a b ∧ 1 ≤ ceil_div a b ≤ a.
Proof.
  intros Ha Hb. unfold ceil_div.
  pose proof (Z.div_mod (- a) b ltac:(lia)) as E2.
  pose proof (Z.mod_pos_bound (- a) b ltac:(lia)) as B2.
  nia.
Qed.

(** The worker count of [Loader::start] and the items per thread of the
    constructor satisfy the two assertions of lines 44-45. *)
Lemma worker_count_arith (B H : Z) :
  1 ≤ B → 1 ≤ H →
  let t := ceil_div B H in
  let N := Z.min (ceil_div B t) B in
  let ipt := ceil_div B N in
  N = ceil_div B t ∧ 1 ≤ N ≤ B ∧ 1 ≤ ipt ∧
  B ≤ ipt * N ∧ ipt * (N - 1) < B ∧ (B < H → N = B ∧ ipt = 1).
Proof.
  intros HB HH t N ipt.
  destruct (ceil_div_bounds B H HB HH) as [Ht1 Ht2]. fold t in Ht1, Ht2.
  destruct (ceil_div_bounds B t HB ltac:(lia)) as [Hm1 Hm2].
  assert (HN : N = ceil_div B t) by (unfold N; lia).
  destruct (ceil_div_bounds B N HB ltac:(lia)) as [Hi1 Hi2]. fold ipt in Hi1, Hi2.
  rewrite <- HN in Hm1, Hm2.
  assert (ipt ≤ t) by nia.
  split; [done|]. split; [lia|]. split; [lia|].
  split; [nia|]. split; [nia|].
  intros Hlt. assert (t = 1) by nia. subst t.
  assert (N = B) by nia. split; [done|]. nia.
Qed.

(** ** [Loader::start] *)

Ltac run_M :=
  unfold Loader.start_threads, Loader.with_decodeThreads,
    Loader.with_readThread, DecodeThreadPool.start_alloc,
    ReadThread.start_alloc;
  unfold mbind, mret, M_bind, M_ret, get, modify, throw, block, undef,
    try_catch_bad_alloc, Loader.new_, Loader.div_int, Loader.deref;
  simpl.

(** [DecodeThreadPool::start] when the allocations of its threads and
    of its manager succeed. *)
Lemma decode_start_from_ok (alloc_ok : nat → bool) (n site : nat)
    (p : DecodeThreadPool.t) :
  (∀ j, (j ≤ n)%nat → alloc_ok (site + j)%nat = true) →
  DecodeThreadPool.start_from alloc_ok site n p
  = (Val (site + S n)%nat,
     set_manager (Some MInit)
       (set_threads (_threads p ++ replicate n WInit) p)).
Proof.
  revert site p. induction n as [|n IH]; intros site p Hok; simpl.
  - pose proof (Hok 0%nat ltac:(lia)) as H0. rewrite Nat.add_0_r in H0.
    rewrite H0. run_M. rewrite app_nil_r, Nat.add_1_r. by destruct p.
  - pose proof (Hok 0%nat ltac:(lia)) as H0. rewrite Nat.add_0_r in H0.
    rewrite H0. run_M. rewrite IH.
    + replace (S site + S n)%nat with (site + S (S n))%nat by lia.
      simpl. by rewrite <- app_assoc.
    + intros j Hj. rewrite <- (Hok (S j)) by lia. f_equal. lia.
Qed.

(** [DecodeThreadPool::start] when allocation [site + k] is the first
    that fails: the [k] threads created before it stay. *)
Lemma decode_start_from_fail (alloc_ok : nat → bool) (n site k : nat)
    (p : DecodeThreadPool.t) :
  (k ≤ n)%nat →
  (∀ j, (j < k)%nat → alloc_ok (site + j)%nat = true) →
  alloc_ok (site + k)%nat = false →
  DecodeThreadPool.start_from alloc_ok site n p
  = (Raise bad_alloc, set_threads (_threads p ++ replicate k WInit) p).
Proof.
  revert site k p. induction n as [|n IH]; intros site k p Hk Hok Hfail.
  - assert (k = 0)%nat as -> by lia. simpl.
    rewrite Nat.add_0_r in Hfail. rewrite Hfail. run_M.
    rewrite app_nil_r. by destruct p.
  - simpl. destruct k as [|k].
    + rewrite Nat.add_0_r in Hfail. rewrite Hfail. run_M.
      rewrite app_nil_r. by destruct p.
    + pose proof (Hok 0%nat ltac:(lia)) as H0. rewrite Nat.add_0_r in H0.
      rewrite H0. run_M. rewrite (IH (S site) k).
      * simpl. by rewrite <- app_assoc.
      * lia.
      * intros j Hj. rewrite <- (Hok (S j)) by lia. f_equal. lia.
      * rewrite <- Hfail. f_equal. lia.
Qed.

(** For [batchSize >= 1] and [hardware_concurrency >= 1], with the four
    allocations of the [try] block successful, [start] is the calls of
    lines 340-342 on the loader with its four members assigned. *)
Lemma start_allocated (numCores : Z) (alloc_ok : nat → bool) (l : Loader.t) :
  1 ≤ Loader._batchSize l → 1 ≤ numCores →
  alloc_ok 0%nat = true → alloc_ok 1%nat = true →
  alloc_ok 2%nat = true → alloc_ok 3%nat = true →
  let B := Loader._batchSize l in
  let N := Z.min (ceil_div B (ceil_div B numCores)) B in
  Loader.start numCores alloc_ok l
  = Loader.start_threads alloc_ok (started l N).
Proof.
  intros HB HH A0 A1 A2 A3 B N.
  unfold Loader.start.
  unfold mbind, mret, M_bind, M_ret, get, modify, throw, block, undef,
    try_catch_bad_alloc, Loader.new_, Loader.div_int. simpl.
  rewrite A0, A1, A2. simpl.
  destruct (Z.eqb_spec numCores 0) as [|_]; [lia|]. simpl.
  rewrite (quot_ceil _ _ HB HH).
  destruct (ceil_div_bounds _ _ HB HH) as [_ Ht].
  destruct (Z.eqb_spec (ceil_div (Loader._batchSize l) numCores) 0) as [|_];
    [lia|]. simpl.
  rewrite (quot_ceil _ _ HB) by lia.
  rewrite A3. simpl.
  destruct (worker_count_arith _ _ HB HH) as (_ & HNB & _).
  fold B. fold N.
  destruct (Z.eqb_spec N 0) as [E|_]; [unfold N, B in E; lia|]. reflexivity.
Qed.

(** What [start] returns and leaves behind when no allocation fails. *)
Lemma start_success (numCores : Z) (alloc_ok : nat → bool) (l : Loader.t) :
  1 ≤ Loader._batchSize l → 1 ≤ numCores →
  (∀ k, alloc_ok k = true) →
  let B := Loader._batchSize l in
  let N := Z.min (ceil_div B (ceil_div B numCores)) B in
  Loader.start numCores alloc_ok l =
    (Val 0,
     Loader.mk true B (Loader._datumSize l) (Loader._targetSize l)
       (Some (BufferPool.new (B * Loader._datumSize l)
                             (B * Loader._targetSize l) false))
       (Some (BufferPool.new (B * Loader._datumSize l)
                             (B * Loader._targetSize l)
                             (negb (Device.is_CPU (Loader._device l)))))
       (Some (ReadThread.start ReadThread.new))
       (Some (DecodeThreadPool.start
                (DecodeThreadPool.new N B (Loader._datumSize l)
                                      (Loader._targetSize l))))
       (Loader._device l)).
Proof.
  intros HB HH Hok B N.
  rewrite start_allocated by done. fold B. fold N.
  unfold started. run_M. rewrite decode_start_from_ok by (intros; apply Hok).
  simpl. by rewrite Hok.
Qed.

(** The item range of every worker is not empty under the two
    assertions of the constructor. *)
Lemma partition_nonempty (N ipt B id : Z) :
  1 ≤ ipt → ipt * (N - 1) < B → 0 ≤ id < N →
  startInd ipt id < endInd N ipt B id.
Proof.
  intros Hipt Hlast Hid. unfold endInd, itemCount, startInd.
  destruct (Z.eqb_spec id (N - 1)) as [->|]; nia.
Qed.

(** C4: for [batchSize >= 1] and [hardware_concurrency >= 1], [start]
    succeeds with a pool whose worker count is
    [N = min(batchSize, ceil(batchSize / ceil(batchSize / cores)))] and whose
    items per thread are [ceil(batchSize / N)]; they satisfy
    [itemsPerThread * N >= batchSize] and
    [itemsPerThread * (N-1) < batchSize]; [N] is at most [batchSize]
    (and equal to it when [batchSize < cores]), and no worker's item
    range [[startInd, endInd)] is empty. *)
Theorem start_worker_count (numCores : Z) (l : Loader.t) :
  1 ≤ Loader._batchSize l → 1 ≤ numCores →
  ∃ l' pool,
    Loader.start numCores (λ _, true) l = (Val 0, l') ∧
    Loader._decodeThreads l' = Some pool ∧
    let B := Loader._batchSize l in
    let N := DecodeThreadPool._count pool in
    let ipt := DecodeThreadPool._itemsPerThread pool in
    N = Z.min B (ceil_div B (ceil_div B numCores)) ∧
    ipt = ceil_div B N ∧
    B ≤ ipt * N ∧ ipt * (N - 1) < B ∧
    1 ≤ N ≤ B ∧ (B < numCores → N = B) ∧
    ∀ id, 0 ≤ id < N → startInd ipt id < endInd N ipt B id.
Proof.
  intros HB HH. eexists _, _.
  split; [by apply start_success|]. split; [reflexivity|].
  cbn -[Z.min ceil_div Z.mul].
  destruct (worker_count_arith _ _ HB HH) as (HN & HNB & Hipt & H1 & H2 & H3).
  set (B := Loader._batchSize l) in *.
  set (N := Z.min (ceil_div B (ceil_div B numCores)) B) in *.
  assert (Hi : itemsPerThread B N = ceil_div B N)
    by (unfold itemsPerThread; apply quot_ceil; lia).
  rewrite Hi.
  split; [unfold N; lia|]. split; [done|]. split; [lia|]. split; [lia|].
  split; [lia|]. split; [intros; by apply H3|].
  intros id Hid. apply partition_nonempty; lia.
Qed.

Lemma start_worker_count_witness :
  ∃ l' pool,
    Loader.start 4 (λ _, true) (Loader.new 5 2 1 (Device.mk Device.CPU [])) =
      (Val 0, l') ∧
    Loader._decodeThreads l' = Some pool ∧
    DecodeThreadPool._count pool = 3 ∧
    DecodeThreadPool._itemsPerThread pool = 2.
Proof.
  destruct (start_worker_count 4 (Loader.new 5 2 1 (Device.mk Device.CPU [])))
    as (l' & pool & E & D & HN & Hi & _); [simpl; lia | lia |].
  exists l', pool. split; [exact E|]. split; [exact D|].
  split; [rewrite HN; reflexivity|].
  rewrite Hi. simpl in HN. rewrite HN. reflexivity.
Defined.

(** [start] leaves [_first] set, however it ends. *)
Lemma start_threads_first (alloc_ok : nat → bool) (l : Loader.t) :
  Loader._first (Loader.start_threads alloc_ok l).2 = Loader._first l.
Proof.
  unfold Loader.start_threads, Loader.with_decodeThreads,
    Loader.with_readThread, mbind, mret, M_bind, M_ret.
  destruct (Loader._decodeThreads l) as [p|]; [|done].
  destruct (DecodeThreadPool.start_alloc alloc_ok 4 p) as [[site| | |] p'];
    simpl; try done.
  destruct (Loader._readThread l) as [rt|]; [|done].
  by destruct (ReadThread.start_alloc alloc_ok site rt) as [[?| | |] ?].
Qed.

Lemma start_first (numCores : Z) (alloc_ok : nat → bool) (l : Loader.t) :
  Loader._first (Loader.start numCores alloc_ok l).2 = true.
Proof.
  unfold Loader.start.
  unfold mbind, mret, M_bind, M_ret, get, modify, throw, undef,
    try_catch_bad_alloc, Loader.new_, Loader.div_int. simpl.
  repeat (match goal with
          | |- context [if ?b then _ else _] => destruct b; simpl
          end); try reflexivity.
  by rewrite start_threads_first.
Qed.

(** C7, as the specification states it, fails in two ways.  When the
    third allocation of [start] (the decode buffer pool) fails, [start]
    returns -1 and the loader keeps the read buffer pool and the read
    thread object that were allocated before, so it is not in the state it
    was in before the call.  And not every failing allocation gives -1:
    when the allocation of the second worker thread fails, inside
    [_decodeThreads->start()] after the [try] block, [std::bad_alloc]
    leaves [start], which returns no code, with the first worker thread
    created. *)
Lemma start_failure_keeps_partial_state :
  let l := Loader.new 4 2 1 (Device.mk Device.CPU []) in
  (∃ l', Loader.start 4 (λ k, negb (k =? 2)%nat) l = (Val (-1), l') ∧
         Loader._readBufs l' = Some (BufferPool.new 8 4 false) ∧
         Loader._readThread l' = Some ReadThread.new ∧
         l' ≠ l) ∧
  (∃ l', Loader.start 4 (λ k, negb (k =? 5)%nat) l = (Raise bad_alloc, l') ∧
         thread_count l' = 1%nat).
Proof.
  split.
  - eexists. split; [reflexivity|]. split; [reflexivity|].
    split; [reflexivity|]. discriminate.
  - eexists. split; reflexivity.
Qed.

(** C7, amended: for [batchSize >= 1] and [hardware_concurrency >= 1],
    with [batchSize * datumSize] and [batchSize * targetSize] values of
    [int], [start] returns 0 when all its allocations succeed and -1 when
    one of the four allocations of its [try] block fails; on the -1 path
    no thread has been started (the loader holds no more thread objects
    than before, and a thread pool object created by the call has none),
    the members assigned before the failing allocation keep the objects
    allocated for them, and the members after it are untouched.  When
    the four succeed and the allocation of thread object [j] in the calls
    after the [try] block fails (the [N] workers, the manager, the read
    thread, in this order), [std::bad_alloc] leaves [start] with the four
    members assigned and the [j] threads created before. *)
Theorem start_return_codes (numCores : Z) (alloc_ok : nat → bool) (l : Loader.t) :
  1 ≤ Loader._batchSize l → 1 ≤ numCores →
  in_int (Loader._batchSize l * Loader._datumSize l) →
  in_int (Loader._batchSize l * Loader._targetSize l) →
  let B := Loader._batchSize l in
  let N := Z.to_nat (Z.min (ceil_div B (ceil_div B numCores)) B) in
  match first_failure alloc_ok with
  | None =>
      ((∀ j, (j ≤ N + 1)%nat → alloc_ok (4 + j)%nat = true) →
       ∃ l', Loader.start numCores alloc_ok l = (Val 0, l') ∧
             thread_count l' = (N + 2)%nat) ∧
      (∀ j, (j ≤ N + 1)%nat →
         (∀ i, (i < j)%nat → alloc_ok (4 + i)%nat = true) →
         alloc_ok (4 + j)%nat = false →
         ∃ l', Loader.start numCores alloc_ok l = (Raise bad_alloc, l') ∧
               thread_count l' = j ∧
               is_Some (Loader._readBufs l') ∧
               is_Some (Loader._readThread l') ∧
               is_Some (Loader._decodeBufs l') ∧
               is_Some (Loader._decodeThreads l'))
  | Some k =>
      ∃ l', Loader.start numCores alloc_ok l = (Val (-1), l') ∧
        (thread_count l' ≤ thread_count l)%nat ∧
        Loader._first l' = true ∧
        Loader._readBufs l' =
          (if (0 <? k)%nat
           then Some (BufferPool.new
                        (Loader._batchSize l * Loader._datumSize l)
                        (Loader._batchSize l * Loader._targetSize l) false)
           else Loader._readBufs l) ∧
        Loader._readThread l' =
          (if (1 <? k)%nat then Some ReadThread.new
           else Loader._readThread l) ∧
        Loader._decodeBufs l' =
          (if (2 <? k)%nat
           then Some (BufferPool.new
                        (Loader._batchSize l * Loader._datumSize l)
                        (Loader._batchSize l * Loader._targetSize l)
                        (negb (Device.is_CPU (Loader._device l))))
           else Loader._decodeBufs l) ∧
        Loader._decodeThreads l' = Loader._decodeThreads l
  end.
Proof.
  intros HB HH _ _ B N. unfold first_failure. simpl.
  destruct (alloc_ok 0%nat) eqn:A0; simpl.
  2:{ eexists. unfold Loader.start. run_M. rewrite A0. simpl.
      split; [reflexivity|].
      repeat split; try done; unfold thread_count; simpl; lia. }
  destruct (alloc_ok 1%nat) eqn:A1; simpl.
  2:{ eexists. unfold Loader.start. run_M. rewrite A0, A1. simpl.
      split; [reflexivity|].
      repeat split; try done; unfold thread_count; simpl; lia. }
  destruct (alloc_ok 2%nat) eqn:A2; simpl.
  2:{ eexists. unfold Loader.start. run_M. rewrite A0, A1, A2. simpl.
      split; [reflexivity|].
      repeat split; try done; unfold thread_count; simpl; lia. }
  destruct (ceil_div_bounds _ _ HB HH) as [_ Ht].
  destruct (alloc_ok 3%nat) eqn:A3; simpl.
  2:{ eexists. unfold Loader.start. run_M. rewrite A0, A1, A2. simpl.
      destruct (Z.eqb_spec numCores 0) as [|_]; [lia|]. simpl.
      rewrite (quot_ceil _ _ HB HH).
      destruct (Z.eqb_spec (ceil_div (Loader._batchSize l) numCores) 0)
        as [|_]; [lia|]. simpl.
      rewrite A3. simpl.
      split; [reflexivity|].
      repeat split; try done; unfold thread_count; simpl; lia. }
  rewrite start_allocated by done. fold B. unfold started. split.
  - intros Hok. eexists. run_M. fold N.
    rewrite decode_start_from_ok by (intros; apply Hok; lia). simpl.
    replace (S N) with (N + 1)%nat by lia.
    rewrite (Hok (N + 1)%nat) by lia. run_M. split; [reflexivity|].
    unfold thread_count. simpl. rewrite length_replicate. lia.
  - intros j Hj Hok Hfail. run_M. fold N.
    destruct (decide (j ≤ N)%nat) as [Hle|Hgt].
    + rewrite (decode_start_from_fail alloc_ok N 4 j) by done. simpl.
      eexists. split; [reflexivity|]. unfold thread_count. simpl.
      rewrite length_replicate. repeat split; try lia; by eexists.
    + assert (j = N + 1)%nat as -> by lia.
      rewrite decode_start_from_ok by (intros; apply Hok; lia). simpl.
      replace (S N) with (N + 1)%nat by lia.
      rewrite Hfail. run_M.
      eexists. split; [reflexivity|]. unfold thread_count. simpl.
      rewrite length_replicate. repeat split; try lia; by eexists.
Qed.

Lemma start_return_codes_witness :
  ∃ l', Loader.start 4 (λ k, negb (k =? 3)%nat)
          (Loader.new 4 2 1 (Device.mk Device.GPU [])) = (Val (-1), l') ∧
        thread_count l' = 0%nat ∧
        Loader._decodeBufs l' = Some (BufferPool.new 8 4 true).
Proof.
  destruct (start_return_codes 4 (λ k, negb (k =? 3)%nat)
              (Loader.new 4 2 1 (Device.mk Device.GPU [])))
    as (l' & E & Hc & _ & _ & _ & Hd & _);
    [simpl; lia | lia | unfold in_int; simpl; lia
    | unfold in_int; simpl; lia |].
  exists l'. split; [exact E|]. split; [|exact Hd].
  apply Nat.le_0_r. exact Hc.
Defined.

(** ** Byte regions *)

Lemma load_Some (data : bytes) (off len : Z) :
  0 ≤ off → 0 ≤ len → off + len ≤ Z.of_nat (length data) →
  load data off len = Some (take (Z.to_nat len) (drop (Z.to_nat off) data)).
Proof.
  intros. unfold load.
  destruct (Z.leb_spec 0 off); [|lia]. destruct (Z.leb_spec 0 len); [|lia].
  destruct (Z.leb_spec (off + len) (Z.of_nat (length data))); [done|lia].
Qed.

Lemma load_inv (data b : bytes) (off len : Z) :
  load data off len = Some b →
  0 ≤ off ∧ 0 ≤ len ∧ off + len ≤ Z.of_nat (length data) ∧
  b = take (Z.to_nat len) (drop (Z.to_nat off) data) ∧
  length b = Z.to_nat len.
Proof.
  unfold load. intros E.
  destruct (Z.leb_spec 0 off); [|done]. destruct (Z.leb_spec 0 len); [|done].
  destruct (Z.leb_spec (off + len) (Z.of_nat (length data))); [|done].
  simpl in E. injection E as <-. repeat split; try done.
  rewrite length_take, length_drop. lia.
Qed.

Lemma store_Some (data src : bytes) (off : Z) :
  0 ≤ off → off + Z.of_nat (length src) ≤ Z.of_nat (length data) →
  store data off src =
    Some (take (Z.to_nat off) data ++ src
          ++ drop (Z.to_nat off + length src) data).
Proof.
  intros. unfold store.
  destruct (Z.leb_spec 0 off); [|lia].
  destruct (Z.leb_spec (off + Z.of_nat (length src)) (Z.of_nat (length data)));
    [done|lia].
Qed.

Lemma store_inv (data src d : bytes) (off : Z) :
  store data off src = Some d →
  0 ≤ off ∧ off + Z.of_nat (length src) ≤ Z.of_nat (length data) ∧
  d = take (Z.to_nat off) data ++ src
      ++ drop (Z.to_nat off + length src) data ∧
  length d = length data.
Proof.
  unfold store. intros E.
  destruct (Z.leb_spec 0 off); [|done].
  destruct (Z.leb_spec (off + Z.of_nat (length src)) (Z.of_nat (length data)));
    [|done].
  simpl in E. injection E as <-. repeat split; try done.
  rewrite !length_app, length_take, length_drop. lia.
Qed.

(** A store leaves every byte outside [[off, off + length src)] alone. *)
Lemma store_lookup_outside (data src d : bytes) (off : Z) (k : nat) :
  store data off src = Some d →
  (Z.of_nat k < off ∨ off + Z.of_nat (length src) ≤ Z.of_nat k) →
  d !! k = data !! k.
Proof.
  intros E Hk. apply store_inv in E as (H0 & H1 & -> & _).
  destruct Hk as [Hk|Hk].
  - rewrite lookup_app_l by (rewrite length_take; lia).
    apply lookup_take_lt. lia.
  - rewrite lookup_app_r by (rewrite length_take; lia).
    rewrite lookup_app_r by (rewrite length_take; lia).
    rewrite lookup_drop, length_take. f_equal. lia.
Qed.

(** A store puts [src] at [[off, off + length src)]. *)
Lemma store_lookup_inside (data src d : bytes) (off : Z) (k : nat) :
  store data off src = Some d →
  (k < length src)%nat →
  d !! (Z.to_nat off + k)%nat = src !! k.
Proof.
  intros E Hk. apply store_inv in E as (H0 & H1 & -> & _).
  rewrite lookup_app_r by (rewrite length_take; lia).
  rewrite length_take, lookup_app_l by lia. f_equal. lia.
Qed.

Lemma memcpy_from_start (dst src : bytes) (n : Z) :
  0 ≤ n → n ≤ Z.of_nat (length src) → n ≤ Z.of_nat (length dst) →
  memcpy dst 0 src 0 n =
    Some (take (Z.to_nat n) src ++ drop (Z.to_nat n) dst).
Proof.
  intros. unfold memcpy. rewrite load_Some by lia.
  change (Z.to_nat 0) with 0%nat. rewrite drop_0. simpl.
  assert (L : length (take (Z.to_nat n) src) = Z.to_nat n)
    by (rewrite length_take; lia).
  rewrite store_Some by (rewrite ?L; lia). rewrite L. reflexivity.
Qed.

(** ** [ReadThread::produce] *)

(** C6: when [Reader::read] on the current write slot returns -1,
    [produce] sets the [_done] flag of the read thread's pool and throws
    the runtime error; the write cursor of the read pool is not advanced
    and [nonEmpty] is not signalled. *)
Theorem produce_read_failure {R : Type} `{Reader R}
    (e : ReadThread.env R) (reader' : R) (pair' : BufferPair) :
  BufferPool.full (ReadThread._out e) = false →
  read (ReadThread._reader e) (BufferPool.getForWrite (ReadThread._out e))
    = (-1, reader', pair') →
  ∃ e',
    ReadThread.produce e
      = (Raise (runtime_error ReadThread.could_not_read), e') ∧
    ReadThread._done (ReadThread.self e') = true ∧
    BufferPool._writePos (ReadThread._out e')
      = BufferPool._writePos (ReadThread._out e) ∧
    BufferPool._nonEmpty (ReadThread._out e')
      = BufferPool._nonEmpty (ReadThread._out e) ∧
    BufferPool._empty (ReadThread._out e')
      = BufferPool._empty (ReadThread._out e).
Proof.
  intros Hfull Hread. eexists. unfold ReadThread.produce. run_M.
  rewrite Hfull, Hread. simpl.
  split; [reflexivity|]. simpl.
  unfold BufferPool.set_slot.
  destruct (BufferPool._writePos (ReadThread._out e) =? 0); done.
Qed.

Lemma produce_read_failure_witness :
  ∃ e',
    ReadThread.produce (H := failing_reader)
        (ReadThread.mkenv ReadThread.new (BufferPool.new 8 4 false) tt)
      = (Raise (runtime_error ReadThread.could_not_read), e') ∧
    ReadThread._done (ReadThread.self e') = true ∧
    BufferPool._writePos (ReadThread._out e') = 0 ∧
    BufferPool._nonEmpty (ReadThread._out e') = 0%nat.
Proof.
  destruct (produce_read_failure (H := failing_reader)
              (ReadThread.mkenv ReadThread.new (BufferPool.new 8 4 false) tt)
              tt (BufferPool.getForWrite (BufferPool.new 8 4 false))
              eq_refl eq_refl)
    as (e' & E & Hd & Hw & Hn & _).
  exists e'. split; [exact E|]. split; [exact Hd|]. split; [exact Hw|exact Hn].
Defined.

(** ** [Loader::next] *)

(** C8: [start] sets [_first]; the call of [next()] that finds [_first]
    set (the first after [start]) clears it and leaves the read cursor of
    the decode pool and its [nonFull] condition alone; every call that
    finds it cleared (every later one) advances the read cursor once and
    signals [nonFull] once.  In both cases the call then returns only if
    the pool is not empty, and sleeps otherwise; woken up, it repeats that
    test only and changes nothing. *)
Theorem next_first_call_keeps_cursor (l : Loader.t) (pool : BufferPool.t) :
  Loader._decodeBufs l = Some pool →
  let pool' :=
    if Loader._first l then pool
    else BufferPool.signalNonFull (BufferPool.advanceReadPos pool) in
  let l' := Loader.set_decodeBufs (Some pool') (Loader.set_first false l) in
  Loader.next l = (if BufferPool.empty pool' then Blocked else Val (), l') ∧
  Loader.wait_nonEmpty l'
    = (if BufferPool.empty pool' then Blocked else Val (), l') ∧
  (Loader._first l = true →
     BufferPool._readPos pool' = BufferPool._readPos pool ∧
     BufferPool._nonFull pool' = BufferPool._nonFull pool) ∧
  (Loader._first l = false →
     BufferPool._readPos pool' = (BufferPool._readPos pool + 1) mod 2 ∧
     BufferPool._nonFull pool' = S (BufferPool._nonFull pool)) ∧
  (∀ numCores alloc_ok l0,
     Loader._first (Loader.start numCores alloc_ok l0).2 = true).
Proof.
  intros Hpool pool' l'. split; [|split; [|split; [|split]]].
  - unfold Loader.next, Loader.wait_nonEmpty. run_M. rewrite Hpool. simpl.
    subst l' pool'. destruct l as [[] ? ? ? ? ? ? ? ?]; simpl in *; subst;
      simpl; by case_match.
  - unfold Loader.wait_nonEmpty. run_M. by case_match.
  - subst pool'. by intros ->.
  - subst pool'. by intros ->.
  - intros numCores alloc_ok l0. apply start_first.
Qed.

Lemma next_first_call_keeps_cursor_witness :
  let pool := BufferPool.advanceWritePos (BufferPool.new 8 4 false) in
  let l := Loader.set_decodeBufs (Some pool)
             (Loader.new 4 2 1 (Device.mk Device.CPU [])) in
  ∃ l1 l2,
    Loader.next l = (Val (), l1) ∧
    Loader._decodeBufs l1 = Some pool ∧
    Loader.next l1 = (Blocked, l2) ∧
    Loader._decodeBufs l2
      = Some (BufferPool.signalNonFull (BufferPool.advanceReadPos pool)).
Proof.
  intros pool l.
  destruct (next_first_call_keeps_cursor l pool eq_refl) as (E1 & _).
  destruct (next_first_call_keeps_cursor
              (Loader.set_decodeBufs (Some pool) (Loader.set_first false l))
              pool eq_refl) as (E2 & _).
  eexists _, _. split; [exact E1|]. split; [reflexivity|].
  split; [exact E2|]. reflexivity.
Defined.

(** C10: [next(dataBuf, targetsBuf)] sleeps while the decode pool is
    empty; otherwise, whatever [_first] is (and without changing it), it
    copies the first [dataBuf->_size] bytes of the data half and the first
    [targetsBuf->_size] bytes of the target half of the current read slot
    into the caller's buffers, advances the read cursor once and signals
    [nonFull] once. *)
Theorem next2_always_advances (l : Loader.t) (pool : BufferPool.t)
    (dataBuf targetsBuf : Buffer.t) :
  Loader._decodeBufs l = Some pool →
  BufferPool.empty pool = false →
  let data := (BufferPool.getForRead pool).1 in
  let targets := (BufferPool.getForRead pool).2 in
  let n := Buffer._size dataBuf in
  let m := Buffer._size targetsBuf in
  0 ≤ n → n ≤ Z.of_nat (length (Buffer._data dataBuf)) →
  n ≤ Z.of_nat (length (Buffer._data data)) →
  0 ≤ m → m ≤ Z.of_nat (length (Buffer._data targetsBuf)) →
  m ≤ Z.of_nat (length (Buffer._data targets)) →
  let pool' := BufferPool.signalNonFull (BufferPool.advanceReadPos pool) in
  let dataBuf' :=
    Buffer.set_data (take (Z.to_nat n) (Buffer._data data)
                     ++ drop (Z.to_nat n) (Buffer._data dataBuf)) dataBuf in
  let targetsBuf' :=
    Buffer.set_data (take (Z.to_nat m) (Buffer._data targets)
                     ++ drop (Z.to_nat m) (Buffer._data targetsBuf))
                    targetsBuf in
  (∀ first,
     Loader.next2 dataBuf targetsBuf (Loader.set_first first l)
       = (Val (dataBuf', targetsBuf'),
          Loader.set_first first (Loader.set_decodeBufs (Some pool') l))) ∧
  BufferPool._readPos pool' = (BufferPool._readPos pool + 1) mod 2 ∧
  BufferPool._nonFull pool' = S (BufferPool._nonFull pool).
Proof.
  intros Hpool Hne data targets n m Hn0 Hn1 Hn2 Hm0 Hm1 Hm2 pool' d' t'.
  split; [|done]. intros first.
  unfold Loader.next2, Loader.wait_nonEmpty. run_M. rewrite Hpool. run_M.
  rewrite Hne. run_M. rewrite Hpool. run_M.
  fold data targets n m.
  rewrite (memcpy_from_start _ _ n) by done.
  rewrite (memcpy_from_start _ _ m) by done.
  by destruct l.
Qed.

Lemma next2_always_advances_witness :
  let pool := BufferPool.advanceWritePos (BufferPool.new 8 4 false) in
  let l := Loader.set_decodeBufs (Some pool)
             (Loader.new 4 2 1 (Device.mk Device.CPU [])) in
  ∃ r l',
    Loader.next2 (Buffer.new 8 false) (Buffer.new 4 false) l = (Val r, l') ∧
    Loader._first l' = true ∧
    Loader._decodeBufs l'
      = Some (BufferPool.signalNonFull (BufferPool.advanceReadPos pool)).
Proof.
  intros pool l.
  destruct (next2_always_advances l pool (Buffer.new 8 false)
              (Buffer.new 4 false) eq_refl eq_refl)
    as (E & _); try (simpl; lia).
  eexists _, _. split; [exact (E true)|]. split; reflexivity.
Defined.

(** ** The structural invariant *)

Ltac norm :=
  unfold workers, mpc, poking, partition_ok, startOf, endOf, countOf,
    pool_sized, pair_sized, wf_config, set_mpc in *;
  simpl in *.

Ltac insert_cases :=
  repeat match goal with
    | H : context [<[?i:=_]> ?l !! ?j] |- _ =>
        destruct (decide (i = j));
        [subst; rewrite list_lookup_insert_eq in H by lia
        |rewrite list_lookup_insert_ne in H by done]
    | |- context [<[?i:=_]> ?l !! ?j] =>
        destruct (decide (i = j));
        [subst; rewrite list_lookup_insert_eq by lia
        |rewrite list_lookup_insert_ne by done]
    end.

(** The clauses of [base_inv] on [_threads] after worker [id] has moved
    to another program counter. *)
Ltac moved Hpc Hp Hst Hpk :=
  first
    [ intros ? ? Hl Hne; insert_cases; [|by eapply Hp]; by eapply Hp
    | intros ? Hl; insert_cases; [|by apply Hst];
      apply Hst in Hl; congruence
    | intros Hk ? ? Hl; insert_cases; [|by eapply Hpk];
      specialize (Hpk Hk _ _ Hpc); done ].

Lemma pool_sized_slot (p : t) (b : BufferPool.t) (k : Z) :
  pool_sized p b → pair_sized p (BufferPool.slot b k).
Proof. intros [H0 H1]. unfold BufferPool.slot. by destruct (k =? 0). Qed.

Lemma pool_sized_set_slot (p : t) (b : BufferPool.t) (k : Z) (pair : BufferPair) :
  pool_sized p b → pair_sized p pair →
  pool_sized p (BufferPool.set_slot k pair b).
Proof.
  intros [H0 H1] Hp. unfold BufferPool.set_slot.
  by destruct (k =? 0); split.
Qed.

Lemma slot_set_slot (b : BufferPool.t) (k k' : Z) (pair : BufferPair) :
  BufferPool.slot (BufferPool.set_slot k pair b) k' =
  if bool_decide ((k =? 0) = (k' =? 0)) then pair else BufferPool.slot b k'.
Proof.
  unfold BufferPool.slot, BufferPool.set_slot.
  by destruct (k =? 0), (k' =? 0).
Qed.

Lemma writePos_set_slot (b : BufferPool.t) (k : Z) (pair : BufferPair) :
  BufferPool._writePos (BufferPool.set_slot k pair b) = BufferPool._writePos b.
Proof. unfold BufferPool.set_slot. by destruct (k =? 0). Qed.

Lemma memcpy_inv (dst src d : bytes) (dstOff srcOff n : Z) :
  memcpy dst dstOff src srcOff n = Some d →
  ∃ b, load src srcOff n = Some b ∧ store dst dstOff b = Some d.
Proof.
  unfold memcpy. destruct (load src srcOff n) as [b|]; [|done]. eauto.
Qed.

Lemma length_transpose (data : bytes) (rows cols : Z) :
  0 ≤ rows → 0 ≤ cols → rows * cols ≤ Z.of_nat (length data) →
  length (Matrix.transpose data rows cols) = length data.
Proof.
  intros Hr Hc Hlen. unfold Matrix.transpose.
  rewrite length_app, length_join, length_drop.
  rewrite (sum_list_fmap_same (Z.to_nat rows)).
  - rewrite length_fmap, length_seqZ. nia.
  - apply Forall_fmap, Forall_forall. intros c _. simpl.
    by rewrite length_fmap, length_seqZ.
Qed.

Section Base.
Context `{Media}.

Lemma base_inv_worker_step (id : nat) (s s' : sys) :
  base_inv s → worker_step id s = Some s' → base_inv s'.
Proof.
  intros [Hc Hm Ht Hs Hf Hv Hsv Hp Hst Hpk Ho] Hstep.
  unfold worker_step in Hstep.
  destruct (_threads (obj s) !! id) as [pc|] eqn:Hpc; simpl in Hstep; [|done].
  pose proof (lookup_lt_Some _ _ _ Hpc) as Hid.
  destruct Hv as (Hv1 & Hv2 & Hv3 & Hv4 & Hv5).
  destruct pc; simplify_eq.
  - (* WInit *) split; norm; rewrite ?length_insert; try done.
    + intros id0 pc Hl Hne. insert_cases; try done.
      apply Hp in Hl; done.
    + moved Hpc Hp Hst Hpk.
    + moved Hpc Hp Hst Hpk.
  - (* WRun *) unfold run_loop. destruct (_done (obj s)).
    + split; norm; rewrite ?length_insert; try done.
      * moved Hpc Hp Hst Hpk.
      * intros id0 Hl. insert_cases; try done. by apply Hst.
      * intros Hk id0 pc Hl. insert_cases; [congruence|by eapply Hpk].
    + split; norm; rewrite ?length_insert; try done; moved Hpc Hp Hst Hpk.
  - (* WTop *) unfold work_top in Hstep.
    destruct (_startSignaled (obj s) !! id) as [v|] eqn:Hv;
      simpl in Hstep; [|done].
    destruct (Z.eqb_spec v 0).
    + simplify_eq.
      split; norm; rewrite ?length_insert; try done; moved Hpc Hp Hst Hpk.
    + simplify_option_eq.
      split; norm; rewrite ?length_insert; try done;
        try moved Hpc Hp Hst Hpk.
      intros id0 v0 Hl. insert_cases; [|by eapply Hsv].
      specialize (Hsv _ _ Hv). simplify_eq. lia.
  - (* WWaiting *) unfold work_wake. destruct (_done (obj s));
      split; norm; rewrite ?length_insert; try done; moved Hpc Hp Hst Hpk.
  - (* WData *)
    destruct (_endInds (obj s) !! id) as [e|] eqn:He; simpl in Hstep; [|done].
    destruct (i <? e).
    + unfold work_item in Hstep. simplify_option_eq.
      repeat case_match; simplify_option_eq.
      * match goal with E : store _ _ _ = Some _ |- _ =>
          apply store_inv in E as (_ & _ & _ & Hlen) end.
        pose proof (pool_sized_slot _ _ outBuf Ho) as [Hd Hg].
        split; try done;
          [norm; by rewrite length_insert
          |norm; moved Hpc Hp Hst Hpk
          |norm; moved Hpc Hp Hst Hpk
          |norm; moved Hpc Hp Hst Hpk
          |].
        apply pool_sized_set_slot; [done|].
        split; simpl; [by rewrite Hlen|done].
      * split; norm; rewrite ?length_insert; try done;
          moved Hpc Hp Hst Hpk.
    + unfold work_targets in Hstep. simplify_option_eq.
      repeat case_match; simplify_option_eq.
      match goal with E : memcpy _ _ _ _ _ = Some _ |- _ =>
        apply memcpy_inv in E as (b & _ & E);
        apply store_inv in E as (_ & _ & _ & Hlen) end.
      pose proof (pool_sized_slot _ _ outBuf Ho) as [Hd Hg].
      split; try done;
        [norm; by rewrite length_insert
        |norm; moved Hpc Hp Hst Hpk
        |norm; moved Hpc Hp Hst Hpk
        |norm; moved Hpc Hp Hst Hpk
        |].
      apply pool_sized_set_slot; [done|].
      split; simpl; [done|by rewrite Hlen].
  - (* WSignal *) unfold work_signal.
    split; norm; rewrite ?length_insert; try done; moved Hpc Hp Hst Hpk.
Qed.

Lemma base_inv_manager_step (r : Z) (s s' : sys) :
  base_inv s → manager_step r s = Some s' → base_inv s'.
Proof.
  intros [Hc Hm Ht Hs Hf Hv Hsv Hp Hst Hpk Ho] Hstep.
  unfold manager_step in Hstep.
  destruct (_manager (obj s)) as [pc|] eqn:Hpc; simpl in Hstep; [|done].
  destruct pc; simplify_eq.
  - unfold manage_init. destruct (r =? 0); by split; norm.
  - unfold manage_loop. destruct (_stopManager (obj s)); by split; norm.
  - unfold consume_top. destruct (BufferPool.empty (_in s)); by split; norm.
  - unfold consume_wake. destruct (_stopManager (obj s)); by split; norm.
  - unfold produce_dispatch in Hstep.
    destruct (BufferPool.full (_out s)); simplify_eq.
    split; norm; rewrite ?length_fmap; try done.
    intros id v Hl. rewrite list_lookup_fmap in Hl.
    destruct (_startSignaled (obj s) !! id); simplify_eq/=. by right.
  - unfold produce_join in Hstep.
    destruct (_endSignaled (obj s) <? _count (obj s)); simplify_eq.
    by split; norm.
  - unfold produce_copy. split; try done.
    pose proof (pool_sized_slot _ _ (BufferPool._writePos (_out s)) Ho)
      as [Hd Hg].
    assert (pool_sized (obj s)
              (BufferPool.set_slot (BufferPool._writePos (_out s))
                 (Buffer.set_data
                    (Matrix.transpose
                       (Buffer._data (BufferPool.getForWrite (_out s)).1)
                       (_batchSize (obj s)) (_datumSize (obj s)))
                    (BufferPool.getForWrite (_out s)).1,
                  (BufferPool.getForWrite (_out s)).2) (_out s))) as [? ?].
    { apply pool_sized_set_slot; [done|].
      destruct Hc as (? & ? & ? & ? & _).
      split; simpl; [|done].
      rewrite length_transpose; [done|lia|lia|].
      unfold BufferPool.getForWrite. lia. }
    by split.
  - unfold consume_advance. by split; norm.
Qed.

Lemma forallb_id_lookup (l : list bool) (id : nat) (b : bool) :
  forallb (λ b, b) l = true → l !! id = Some b → b = true.
Proof.
  revert id. induction l as [|x l IH]; intros id Hall Hl; [done|].
  simpl in Hall. apply andb_prop in Hall as [Hx Hall].
  destruct id; simplify_eq/=; eauto.
Qed.

Lemma base_inv_step (l : label) (s s' : sys) :
  base_inv s → step l s = Some s' → base_inv s'.
Proof.
  intros Hb Hstep. destruct l as [id|r|filled| |]; simpl in Hstep.
  - by eapply base_inv_worker_step.
  - by eapply base_inv_manager_step.
  - destruct Hb. unfold reader_step in Hstep.
    destruct (holds_in (obj s) || BufferPool.full (_in s)); simplify_eq.
    by split.
  - destruct Hb as [Hc Hm Ht Hs Hf Hv Hsv Hp Hst Hpk Ho].
    unfold consumer_step in Hstep.
    destruct (holds_out (obj s)); simplify_eq. by split.
  - destruct Hb as [Hc Hm Ht Hs Hf Hv Hsv Hp Hst Hpk Ho].
    unfold stop_step in Hstep.
    destruct (stopper s) eqn:Hsp; simplify_eq.
    + split; norm; try done; by rewrite Hsp in Hpk.
    + destruct (stopped (obj s)) eqn:Hall; simplify_eq.
      * split; norm; try done. intros _ id pc Hl.
        destruct (lookup_lt_is_Some_2 (_stopped (obj s)) id) as [b Hb];
          [apply lookup_lt_Some in Hl; lia|].
        rewrite (forallb_id_lookup _ _ _ Hall Hb) in Hb.
        apply Hst in Hb. congruence.
      * split; norm; try done; by rewrite Hsp in Hpk.
    + destruct (_managerStopped (obj s)); simplify_eq.
      * split; norm; try done; rewrite Hsp in Hpk; auto.
      * split; norm; try done; by rewrite Hsp in Hpk.
Qed.

(** The pipeline [Loader::start] sets up satisfies the invariant. *)
Lemma base_inv_init (count batchSize datumSize targetSize : Z)
    (readBufs decodeBufs : BufferPool.t) (device : Device.t) :
  let s := init count batchSize datumSize targetSize readBufs decodeBufs
             device in
  wf_config (obj s) → pool_sized (obj s) decodeBufs → base_inv s.
Proof.
  intros s Hc Ho. subst s.
  split; norm; rewrite ?length_replicate; try done.
  - intros id v Hl. apply lookup_replicate in Hl as [-> _]. by left.
  - intros id pc Hl Hne. apply lookup_replicate in Hl as [-> _]. done.
  - intros id Hl. apply lookup_replicate in Hl as [? _]. done.
Qed.

Lemma base_inv_reachable (s0 s : sys) :
  base_inv s0 → reachable s0 s → base_inv s.
Proof. induction 2; eauto using base_inv_step. Qed.

End Base.

(** ** The device slot index *)

Lemma exec_reachable `{Media} (ls : list label) (s0 s : sys) :
  exec ls s0 = Some s → reachable s0 s.
Proof.
  revert s0. induction ls as [|l ls IH]; intros s0 E; simpl in E.
  - injection E as <-. constructor.
  - destruct (step l s0) as [s1|] eqn:E1; simpl in E; [|done].
    specialize (IH _ E). clear E. induction IH.
    + eapply reachable_step; [constructor|done].
    + eapply reachable_step; eauto.
Qed.

Lemma dataSlots_do (c : Device.call) (d : Device.t) :
  Device.dataSlots (Device.do c d) =
  Device.dataSlots d ++
    match c with Device.copyData k _ _ => [k] | _ => [] end.
Proof.
  unfold Device.dataSlots, Device.do. simpl. rewrite omap_app.
  by destruct c.
Qed.

Lemma labelSlots_do (c : Device.call) (d : Device.t) :
  Device.labelSlots (Device.do c d) =
  Device.labelSlots d ++
    match c with Device.copyLabels k _ _ => [k] | _ => [] end.
Proof.
  unfold Device.labelSlots, Device.do. simpl. rewrite omap_app.
  by destruct c.
Qed.

Lemma slot_inv_step `{Media} (l : label) (s s' : sys) :
  slot_inv s → step l s = Some s' → slot_inv s'.
Proof.
  intros [Hd Hl Hn] Hstep.
  destruct l as [id|r|filled| |]; simpl in Hstep.
  - unfold worker_step, work_top, work_item, work_targets, run_loop,
      work_wake, work_signal in Hstep.
    repeat (case_match; simplify_option_eq); by split.
  - unfold manager_step, manage_init, manage_loop, consume_top, consume_wake,
      produce_dispatch, produce_join, consume_advance in Hstep.
    destruct (_manager (obj s)) as [[]|]; simplify_option_eq;
      try (repeat case_match; simplify_option_eq; split; simpl;
           rewrite ?dataSlots_do, ?labelSlots_do, ?app_nil_r; done).
    unfold produce_copy. split; simpl;
      rewrite ?dataSlots_do, ?labelSlots_do, ?app_nil_r.
    + intros k v Hk. apply lookup_app_Some in Hk as [Hk|[Hlen Hk]].
      * by apply Hd.
      * apply list_lookup_singleton_Some in Hk as [Hk <-].
        rewrite Hn. f_equal. lia.
    + by rewrite Hl.
    + rewrite length_app. simpl. rewrite Hn.
      set (n := length (Device.dataSlots (_device s))).
      replace (Z.of_nat (n + 1)) with (Z.of_nat n + 1) by lia.
      pose proof (Z.mod_pos_bound (Z.of_nat n) 2 ltac:(lia)).
      destruct (Z.eqb_spec (Z.of_nat n mod 2) 0) as [E|E].
      * rewrite Zplus_mod, E. done.
      * rewrite Zplus_mod. replace (Z.of_nat n mod 2) with 1 by lia. done.
  - unfold reader_step in Hstep. case_match; simplify_eq. by split.
  - unfold consumer_step in Hstep. case_match; simplify_eq. by split.
  - unfold stop_step in Hstep.
    repeat (case_match; simplify_option_eq); by split.
Qed.

Lemma slot_inv_reachable `{Media} (s0 s : sys) :
  slot_inv s0 → reachable s0 s → slot_inv s.
Proof. induction 2; eauto using slot_inv_step. Qed.

(** A step either leaves the device copies and [_bufferIndex] alone, or
    copies one minibatch (data and labels) to slot [_bufferIndex] and
    toggles [_bufferIndex]. *)
Lemma step_toggles `{Media} (l : label) (s s' : sys) :
  step l s = Some s' →
  (Device.dataSlots (_device s') = Device.dataSlots (_device s) ∧
   Device.labelSlots (_device s') = Device.labelSlots (_device s) ∧
   _bufferIndex (obj s') = _bufferIndex (obj s)) ∨
  (Device.dataSlots (_device s')
     = Device.dataSlots (_device s) ++ [_bufferIndex (obj s)] ∧
   Device.labelSlots (_device s')
     = Device.labelSlots (_device s) ++ [_bufferIndex (obj s)] ∧
   _bufferIndex (obj s') = (if _bufferIndex (obj s) =? 0 then 1 else 0)).
Proof.
  intros Hstep. destruct l as [id|r|filled| |]; simpl in Hstep.
  - left. unfold worker_step, work_top, work_item, work_targets, run_loop,
      work_wake, work_signal in Hstep.
    repeat (case_match; simplify_option_eq); done.
  - unfold manager_step, manage_init, manage_loop, consume_top, consume_wake,
      produce_dispatch, produce_join, consume_advance in Hstep.
    destruct (_manager (obj s)) as [[]|]; simplify_option_eq;
      try (left; repeat case_match; simplify_option_eq; simpl;
           rewrite ?dataSlots_do, ?labelSlots_do, ?app_nil_r; done).
    right. unfold produce_copy. simpl.
    by rewrite ?dataSlots_do, ?labelSlots_do, ?app_nil_r.
  - left. unfold reader_step in Hstep. case_match; by simplify_eq.
  - left. unfold consumer_step in Hstep. case_match; by simplify_eq.
  - left. unfold stop_step in Hstep.
    repeat (case_match; simplify_option_eq); done.
Qed.

(** C9: [_bufferIndex] starts at 0 and is always 0 or 1; a step that
    copies a minibatch to the device copies its data and its labels to
    slot [_bufferIndex] and toggles [_bufferIndex], and no other step
    changes it; so the [k]-th minibatch since [start] (from 0) goes to
    slot [k mod 2]. *)
Theorem bufferIndex_alternates `{Media}
    (count batchSize datumSize targetSize : Z)
    (readBufs decodeBufs : BufferPool.t) (device : Device.t) (s : sys) :
  let s0 := init count batchSize datumSize targetSize readBufs decodeBufs
              device in
  Device.calls device = [] →
  reachable s0 s →
  _bufferIndex (obj s0) = 0 ∧
  (_bufferIndex (obj s) = 0 ∨ _bufferIndex (obj s) = 1) ∧
  _bufferIndex (obj s)
    = Z.of_nat (length (Device.dataSlots (_device s))) mod 2 ∧
  (∀ (k : nat) (slot : Z),
     Device.dataSlots (_device s) !! k = Some slot →
     slot = Z.of_nat k mod 2) ∧
  (∀ (k : nat) (slot : Z),
     Device.labelSlots (_device s) !! k = Some slot →
     slot = Z.of_nat k mod 2) ∧
  (∀ l s', step l s = Some s' →
     (Device.dataSlots (_device s') = Device.dataSlots (_device s) ∧
      Device.labelSlots (_device s') = Device.labelSlots (_device s) ∧
      _bufferIndex (obj s') = _bufferIndex (obj s)) ∨
     (Device.dataSlots (_device s')
        = Device.dataSlots (_device s) ++ [_bufferIndex (obj s)] ∧
      Device.labelSlots (_device s')
        = Device.labelSlots (_device s) ++ [_bufferIndex (obj s)] ∧
      _bufferIndex (obj s') = 1 - _bufferIndex (obj s))).
Proof.
  intros s0 Hdev Hreach.
  assert (H0 : slot_inv s0).
  { split; unfold Device.dataSlots, Device.labelSlots; simpl;
      rewrite Hdev; simpl; done. }
  destruct (slot_inv_reachable _ _ H0 Hreach) as [Hd Hl Hn].
  pose proof (Z.mod_pos_bound
                (Z.of_nat (length (Device.dataSlots (_device s)))) 2
                ltac:(lia)).
  split; [done|]. split; [lia|]. split; [done|]. split; [done|].
  split; [by rewrite Hl|].
  intros l s' Hstep. destruct (step_toggles _ _ _ Hstep) as [?|(?&?&E)];
    [by left|right].
  split; [done|]. split; [done|]. rewrite E.
  destruct (Z.eqb_spec (_bufferIndex (obj s)) 0); lia.
Qed.

Lemma example_run :
  exec (H := identity_media) example_schedule example_init = example_final.
Proof. vm_compute. reflexivity. Qed.

Lemma bufferIndex_alternates_witness :
  ∃ s, example_final = Some s ∧
       reachable (H := identity_media) example_init s ∧
       _bufferIndex (obj s) = 1 ∧
       Device.dataSlots (_device s) = [0] ∧
       Device.labelSlots (_device s) = [0].
Proof.
  eexists. split; [reflexivity|].
  pose proof (exec_reachable (H := identity_media) example_schedule
                example_init _ example_run) as Hreach.
  split; [exact Hreach|].
  pose proof (bufferIndex_alternates (H := identity_media) 2 4 2 1
                (BufferPool.new 8 4 false) (BufferPool.new 8 4 false)
                (Device.mk Device.CPU []) _ eq_refl Hreach)
    as (_ & _ & Hn & _).
  split; [exact Hn|]. split; reflexivity.
Defined.

(** ** The batch partition *)

Lemma partition_bounds (p : t) (id : nat) :
  wf_config p → (id < Z.to_nat (_count p))%nat →
  0 ≤ startOf p id ∧ startOf p id < endOf p id ∧ endOf p id ≤ _batchSize p ∧
  1 ≤ countOf p id.
Proof.
  intros (HN & HB & Hd & Ht & Hi & Hc1 & Hc2) Hid.
  unfold endOf, countOf, startOf, itemCount, startInd.
  destruct (Z.eqb_spec (Z.of_nat id) (_count p - 1)) as [E|E]; [rewrite E|];
    nia.
Qed.

Lemma partition_next (p : t) (id : nat) :
  wf_config p → (S id < Z.to_nat (_count p))%nat →
  endOf p id = startOf p (S id).
Proof.
  intros _ Hid. unfold endOf, countOf, startOf, itemCount, startInd.
  destruct (Z.eqb_spec (Z.of_nat id) (_count p - 1)); lia.
Qed.

Lemma partition_last (p : t) (id : nat) :
  Z.of_nat id = _count p - 1 → endOf p id = _batchSize p.
Proof.
  intros E. unfold endOf, countOf, startOf, itemCount, startInd.
  rewrite E, Z.eqb_refl. lia.
Qed.

Lemma partition_monotone (p : t) (id id' : nat) :
  wf_config p → (id < id')%nat → (id' < Z.to_nat (_count p))%nat →
  endOf p id ≤ startOf p id'.
Proof.
  intros Hwf Hlt Hid'.
  induction Hlt as [|id' Hlt IH].
  - rewrite partition_next by (done || lia). lia.
  - etrans; [apply IH; lia|].
    destruct (partition_bounds p id' Hwf ltac:(lia)) as (_ & ? & _).
    rewrite <- (partition_next p id') by (done || lia). lia.
Qed.

(** The ranges of two different workers share no item. *)
Lemma partition_disjoint (p : t) (id id' : nat) (j : Z) :
  wf_config p →
  (id < Z.to_nat (_count p))%nat → (id' < Z.to_nat (_count p))%nat →
  id ≠ id' →
  startOf p id ≤ j < endOf p id → startOf p id' ≤ j < endOf p id' → False.
Proof.
  intros Hwf Hid Hid' Hne Hj Hj'.
  destruct (Nat.lt_total id id') as [Hlt|[->|Hlt]]; [|done|].
  - pose proof (partition_monotone p id id' Hwf Hlt Hid'). lia.
  - pose proof (partition_monotone p id' id Hwf Hlt Hid). lia.
Qed.

(** Every item of the batch is in the range of some worker. *)
Lemma partition_cover (p : t) (j : Z) :
  wf_config p → 0 ≤ j < _batchSize p →
  ∃ id, (id < Z.to_nat (_count p))%nat ∧ startOf p id ≤ j < endOf p id.
Proof.
  intros Hwf Hj.
  assert (Hcov : ∀ n : nat, (n < Z.to_nat (_count p))%nat →
            j < endOf p n →
            ∃ id, (id < Z.to_nat (_count p))%nat ∧
                  startOf p id ≤ j < endOf p id).
  { induction n as [|n IH]; intros Hn Hlt.
    - exists 0%nat. split; [done|]. split; [|done].
      unfold startOf, startInd. lia.
    - destruct (Z.lt_ge_cases j (startOf p (S n))) as [Hl|Hl].
      + apply IH; [lia|]. by rewrite partition_next.
      + exists (S n). done. }
  destruct Hwf as (HN & Hwf).
  apply (Hcov (Z.to_nat (_count p - 1))); [lia|].
  rewrite partition_last by lia. lia.
Qed.

(** What [run] computes is the range of the specification:
    [endInd = min((id+1) * itemsPerThread, batchSize)]. *)
Lemma endOf_min (p : t) (id : nat) :
  wf_config p → (id < Z.to_nat (_count p))%nat →
  endOf p id = Z.min ((Z.of_nat id + 1) * _itemsPerThread p) (_batchSize p).
Proof.
  intros (HN & HB & Hd & Ht & Hi & Hc1 & Hc2) Hid.
  unfold endOf, countOf, startOf, itemCount, startInd.
  destruct (Z.eqb_spec (Z.of_nat id) (_count p - 1)) as [E|E]; [rewrite E|];
    nia.
Qed.

(** ** Reads after writes *)

Lemma load_store_same (data src d : bytes) (off : Z) :
  store data off src = Some d →
  load d off (Z.of_nat (length src)) = Some src.
Proof.
  intros E. apply store_inv in E as (H0 & H1 & -> & Hlen).
  rewrite load_Some by (rewrite ?Hlen; lia). f_equal.
  rewrite drop_app_length' by (rewrite length_take; lia).
  rewrite Nat2Z.id. by rewrite take_app_length.
Qed.

Lemma load_store_disjoint (data src d : bytes) (off a n : Z) :
  store data off src = Some d →
  a + n ≤ off ∨ off + Z.of_nat (length src) ≤ a →
  load d a n = load data a n.
Proof.
  intros E Hdis. pose proof (store_inv _ _ _ _ E) as (H0 & H1 & _ & Hlen).
  unfold load. rewrite Hlen.
  destruct ((0 <=? a) && (0 <=? n) && (a + n <=? Z.of_nat (length data)))
    eqn:Hb; [|done].
  apply andb_prop in Hb as [Hb Hb3]. apply andb_prop in Hb as [Hb1 Hb2].
  f_equal. apply list_eq. intros k.
  destruct (decide (k < Z.to_nat n)%nat) as [Hk|Hk].
  - rewrite !lookup_take_lt, !lookup_drop by done.
    apply (store_lookup_outside _ _ _ _ _ E). lia.
  - rewrite !lookup_take_ge by lia. done.
Qed.

(** ** Counting the workers that have signalled *)

Lemma all_signalled (fin : list nat) (n : nat) :
  NoDup fin → (∀ id, id ∈ fin → id < n)%nat → (n ≤ length fin)%nat →
  ∀ id, (id < n)%nat → id ∈ fin.
Proof.
  intros Hnd Hlt Hlen id Hid.
  assert (Hsub : fin ⊆+ seq 0 n).
  { apply NoDup_submseteq; [done|]. intros x Hx. apply elem_of_seq.
    specialize (Hlt x Hx). lia. }
  apply submseteq_length_Permutation in Hsub;
    [|by rewrite length_seq].
  rewrite Hsub. apply elem_of_seq. lia.
Qed.

(** ** The join invariant *)

Section Join.
Context `{Media}.

Lemma data_ok_view (s s' : sys) (id : nat) (i : Z) :
  same_view s s' → data_ok s id i → data_ok s' id i.
Proof.
  intros ((Hc & Hi & Hb & Hd & Ht) & Hin & Hout & _) Hok j Hj.
  unfold data_ok, item_done, startOf in *.
  rewrite Hin, Hout, Hd. rewrite Hi in Hj. by apply Hok.
Qed.

Lemma target_ok_view (s s' : sys) (id : nat) :
  same_view s s' → target_ok s id → target_ok s' id.
Proof.
  intros ((Hc & Hi & Hb & Hd & Ht) & Hin & Hout & _) Hok.
  unfold target_ok, countOf, startOf in *.
  by rewrite Hin, Hout, Hc, Hi, Hb, Ht.
Qed.

Lemma region_ok_view (s s' : sys) (id : nat) :
  same_view s s' → region_ok s id → region_ok s' id.
Proof.
  intros Hv [Hd Ht]. split; [|by eapply target_ok_view].
  destruct Hv as (Hc & Hv). pose proof Hc as (Hc1 & Hc2 & Hc3 & _).
  unfold endOf, countOf, startOf. rewrite Hc1, Hc2, Hc3.
  by eapply data_ok_view.
Qed.

(** A step that leaves alone what the workers see, lets no worker start
    its work and does not touch [_endSignaled] before [stop] pokes. *)
Lemma join_inv_frame (s s' : sys) :
  join_inv s →
  (∀ id, idle s id → idle s' id) →
  (∀ id pc, _threads (obj s') !! id = Some pc → working pc = true →
            _threads (obj s) !! id = Some pc) →
  _startSignaled (obj s') = _startSignaled (obj s) →
  (poking s' = false →
   poking s = false ∧ _endSignaled (obj s') = _endSignaled (obj s)) →
  mpc s' = mpc s → same_view s s' →
  join_inv s'.
Proof.
  intros [Hfin Hidle Hcopy Hdata Hsig] Hidle' Hthr' Hsg Hpk Hm Hv.
  pose proof Hv as ((Hc & Hi & Hb & Hd & Ht) & Hin & Hout & Hwp).
  assert (Hw : workers s' = workers s) by (unfold workers; by rewrite Hc).
  split; rewrite ?Hm, ?Hw.
  - intros Hp Hj. destruct (Hpk Hp) as [Hp0 ->].
    destruct (Hfin Hp0 Hj) as (fin & Hnd & Hlen & Hall).
    exists fin. split; [done|]. split; [done|].
    intros id0 Hin0. destruct (Hall id0 Hin0) as (? & ? & ?).
    split; [done|]. split; [by apply Hidle'|by eapply region_ok_view].
  - intros Hp Hj. destruct (Hpk Hp) as [Hp0 ->].
    destruct (Hidle Hp0 Hj) as [? Hall]. split; [done|].
    intros id0 Hid0. apply Hidle'. by apply Hall.
  - intros Hp Hj id0 Hid0. destruct (Hpk Hp) as [Hp0 _].
    eapply region_ok_view; [done|]. by apply Hcopy.
  - intros id0 i d o Hl. apply Hthr' in Hl; [|done].
    destruct (Hdata _ _ _ _ Hl) as (? & ? & ? & ? & ? & ?).
    unfold endOf, countOf, startOf. rewrite Hwp, Hsg, Hc, Hi, Hb, Hd.
    split; [done|]. split; [done|]. split; [done|]. split; [done|].
    split; [done|]. by eapply data_ok_view.
  - intros id0 Hl. apply Hthr' in Hl; [|done].
    destruct (Hsig _ Hl) as (? & ? & ?). rewrite Hsg.
    split; [done|]. split; [done|]. by eapply region_ok_view.
Qed.

(** A worker moves between two program counters outside its work on a
    batch; nothing else changes. *)
Lemma join_inv_move (s s' : sys) (id : nat) (pc' : worker_pc) :
  join_inv s →
  (id < length (_threads (obj s)))%nat →
  working pc' = false →
  _threads (obj s') = <[id := pc']> (_threads (obj s)) →
  _startSignaled (obj s') = _startSignaled (obj s) →
  _endSignaled (obj s') = _endSignaled (obj s) →
  mpc s' = mpc s → poking s' = poking s → same_view s s' →
  join_inv s'.
Proof.
  intros Hinv Hlt Hw' Hthr Hsg Hend Hm Hpk Hv.
  apply (join_inv_frame s s'); try done.
  - intros id0 (Hs0 & pc0 & Hp0 & Hw0). unfold idle. rewrite Hsg, Hthr.
    split; [done|]. destruct (decide (id = id0)) as [->|Hne].
    + exists pc'. by rewrite list_lookup_insert_eq.
    + exists pc0. by rewrite list_lookup_insert_ne.
  - intros id0 pc0 Hl Hw0. rewrite Hthr in Hl.
    destruct (decide (id = id0)) as [->|Hne].
    + rewrite list_lookup_insert_eq in Hl by done. congruence.
    + by rewrite list_lookup_insert_ne in Hl.
  - intros Hp. by rewrite <- Hpk.
Qed.

(** A step outside the join: the manager is not waiting for the workers
    before it, nor waiting or copying after it, and no worker moves. *)
Lemma join_inv_not_joining (s s' : sys) :
  join_inv s →
  mpc s ≠ Some MJoin → mpc s' ≠ Some MJoin → mpc s' ≠ Some MCopy →
  _threads (obj s') = _threads (obj s) →
  _startSignaled (obj s') = _startSignaled (obj s) →
  (poking s' = false →
   poking s = false ∧ _endSignaled (obj s') = _endSignaled (obj s)) →
  _count (obj s') = _count (obj s) →
  join_inv s'.
Proof.
  intros [Hfin Hidle Hcopy Hdata Hsig] Hm Hm' Hm'' Hthr Hsg Hpk Hc.
  assert (Hw : workers s' = workers s) by (unfold workers; by rewrite Hc).
  split; rewrite ?Hthr, ?Hw.
  - done.
  - intros Hp _. destruct (Hpk Hp) as [Hp0 ->].
    destruct (Hidle Hp0 Hm) as [? Hall]. split; [done|].
    intros id0 Hid0. unfold idle. rewrite Hsg, Hthr. by apply Hall.
  - done.
  - intros id0 i d o Hl. by destruct (Hdata _ _ _ _ Hl) as (? & _).
  - intros id0 Hl. by destruct (Hsig _ Hl) as (? & _).
Qed.

Lemma getForWrite_set_slot (b : BufferPool.t) (pair : BufferPair) :
  BufferPool.getForWrite (BufferPool.set_slot (BufferPool._writePos b) pair b)
  = pair.
Proof.
  unfold BufferPool.getForWrite.
  rewrite writePos_set_slot, slot_set_slot. by rewrite bool_decide_eq_true_2.
Qed.

(** Row [j] is untouched by a store to another row [i]. *)
Lemma item_done_store (s s' : sys) (i j : Z) (src d' : bytes) :
  same_config (obj s) (obj s') → input s' = input s →
  0 ≤ _datumSize (obj s) →
  store (Buffer._data (output s).1) (i * _datumSize (obj s)) src = Some d' →
  Z.of_nat (length src) = _datumSize (obj s) →
  Buffer._data (output s').1 = d' →
  j ≠ i → item_done s j → item_done s' j.
Proof.
  intros (_ & _ & _ & Hd & _) Hin Hds Hst Hlen Hout Hne
    (inp & item & Hi & Hit & Hl).
  exists inp, item. rewrite Hin, Hd, Hout. split; [done|]. split; [done|].
  rewrite (load_store_disjoint _ _ _ _ _ _ Hst); [done|]. nia.
Qed.

Lemma item_done_data (s s' : sys) (j : Z) :
  same_config (obj s) (obj s') → input s' = input s →
  Buffer._data (output s').1 = Buffer._data (output s).1 →
  item_done s j → item_done s' j.
Proof.
  intros (_ & _ & _ & Hd & _) Hin Hout (inp & item & Hi & Hit & Hl).
  exists inp, item. by rewrite Hin, Hd, Hout.
Qed.

Lemma target_ok_targets (s s' : sys) (id : nat) :
  same_config (obj s) (obj s') → input s' = input s →
  Buffer._data (output s').2 = Buffer._data (output s).2 →
  target_ok s id → target_ok s' id.
Proof.
  intros (Hc & Hi & Hb & Hd & Ht) Hin Hout Hok.
  unfold target_ok, countOf, startOf in *.
  by rewrite Hin, Hout, Hc, Hi, Hb, Ht.
Qed.

(** The target rows of worker [id] are untouched by the copy of the
    target rows of another worker [id']. *)
Lemma target_ok_store (s s' : sys) (id id' : nat) (src d' : bytes) :
  wf_config (obj s) →
  same_config (obj s) (obj s') → input s' = input s →
  (id < workers s)%nat → (id' < workers s)%nat → id ≠ id' →
  store (Buffer._data (output s).2)
        (startOf (obj s) id' * _targetSize (obj s)) src = Some d' →
  Z.of_nat (length src) = countOf (obj s) id' * _targetSize (obj s) →
  Buffer._data (output s').2 = d' →
  target_ok s id → target_ok s' id.
Proof.
  intros Hwf (Hc & Hi & Hb & Hd & Ht) Hin Hid Hid' Hne Hst Hlen Hout
    (inp & srcOff & len & b & Hinp & Hit & Hl1 & Hl2).
  exists inp, srcOff, len, b. unfold countOf, startOf in *.
  rewrite Hin, Hout, Hc, Hi, Hb, Ht. split; [done|]. split; [done|].
  split; [done|].
  rewrite (load_store_disjoint _ _ _ _ _ _ Hst); [done|].
  pose proof Hwf as (_ & _ & _ & Hts & _).
  destruct (Nat.lt_total id id') as [Hlt|[->|Hlt]]; [|done|].
  - pose proof (partition_monotone _ id id' Hwf Hlt Hid') as Hm.
    unfold endOf, countOf, startOf in Hm. left. nia.
  - pose proof (partition_monotone _ id' id Hwf Hlt Hid) as Hm.
    unfold endOf, countOf, startOf in Hm. right. nia.
Qed.

Lemma worker_lt (s : sys) (id : nat) (pc : worker_pc) :
  base_inv s → _threads (obj s) !! id = Some pc → (id < workers s)%nat.
Proof.
  intros Hb Hl. rewrite <- (base_threads _ Hb). by eapply lookup_lt_Some.
Qed.

(** A worker with a raised start signal is awaited by the manager, and
    [stop] is not poking. *)
Lemma signalled_joining (s : sys) (id : nat) (pc : worker_pc) (v : Z) :
  base_inv s → join_inv s →
  _threads (obj s) !! id = Some pc → pc ≠ WStopped →
  _startSignaled (obj s) !! id = Some v → v ≠ 0 →
  poking s = false ∧ mpc s = Some MJoin.
Proof.
  intros Hb Hinv Hpc Hne Hv Hv0.
  destruct (poking s) eqn:Hp.
  { by specialize (base_poking _ Hb Hp _ _ Hpc). }
  split; [done|].
  destruct (decide (mpc s = Some MJoin)) as [|Hm]; [done|].
  destruct (join_idle _ Hinv Hp Hm) as [_ Hall].
  destruct (Hall id) as [Hs _].
  - by eapply worker_lt.
  - congruence.
Qed.

Lemma working_joining (s : sys) (id : nat) (pc : worker_pc) :
  base_inv s → join_inv s →
  _threads (obj s) !! id = Some pc → working pc = true →
  poking s = false ∧ mpc s = Some MJoin ∧
  _startSignaled (obj s) !! id = Some 0.
Proof.
  intros Hb Hinv Hpc Hw.
  destruct (poking s) eqn:Hp.
  { specialize (base_poking _ Hb Hp _ _ Hpc). by intros ->. }
  split; [done|]. destruct pc; try done.
  - by destruct (join_data _ Hinv _ _ _ _ Hpc) as (? & _ & _ & _ & ? & _).
  - by destruct (join_signal _ Hinv _ Hpc) as (? & ? & _).
Qed.

(** A step of worker [id] inside its work on a batch: the other
    workers keep their program counters, start signals and rows. *)
Lemma join_inv_work (s s' : sys) (id : nat) :
  base_inv s → join_inv s →
  poking s = false → mpc s = Some MJoin →
  same_config (obj s) (obj s') →
  mpc s' = mpc s → poking s' = poking s →
  _endSignaled (obj s') = _endSignaled (obj s) →
  BufferPool._writePos (_out s') = BufferPool._writePos (_out s) →
  (∀ id0, id0 ≠ id →
     _threads (obj s') !! id0 = _threads (obj s) !! id0 ∧
     _startSignaled (obj s') !! id0 = _startSignaled (obj s) !! id0) →
  ¬ idle s id →
  (∀ id0 u, id0 ≠ id → (id0 < workers s)%nat → u ≤ endOf (obj s) id0 →
     data_ok s id0 u → data_ok s' id0 u) →
  (∀ id0, id0 ≠ id → (id0 < workers s)%nat →
     target_ok s id0 → target_ok s' id0) →
  (∀ i d o, _threads (obj s') !! id = Some (WData i d o) →
     o = BufferPool._writePos (_out s) ∧
     startOf (obj s) id ≤ i ≤ endOf (obj s) id ∧
     d = i * _datumSize (obj s) ∧
     _startSignaled (obj s') !! id = Some 0 ∧ data_ok s' id i) →
  (_threads (obj s') !! id = Some WSignal →
     _startSignaled (obj s') !! id = Some 0 ∧ region_ok s' id) →
  join_inv s'.
Proof.
  intros Hb Hinv Hp Hm Hcfg Hm' Hp' Hend Hwp Hother Hbusy Hrow Htgt
    Hnewd Hnews.
  pose proof Hcfg as (Hc & Hi & HB & Hd & Ht).
  assert (Hw : workers s' = workers s) by (unfold workers; by rewrite Hc).
  assert (Hso : ∀ id0, startOf (obj s') id0 = startOf (obj s) id0)
    by (intros; unfold startOf; by rewrite Hi).
  assert (Heo : ∀ id0, endOf (obj s') id0 = endOf (obj s) id0)
    by (intros; unfold endOf, countOf, startOf; by rewrite Hc, Hi, HB).
  destruct Hinv as [Hfin Hidle Hcopy Hdata Hsig].
  assert (Hidle' : ∀ id0, idle s id0 → idle s' id0).
  { intros id0 Hid0. assert (id0 ≠ id) by (by intros ->).
    unfold idle. by destruct (Hother id0) as [-> ->]. }
  assert (Hreg : ∀ id0, id0 ≠ id → (id0 < workers s)%nat →
            region_ok s id0 → region_ok s' id0).
  { intros id0 Hne Hlt [Hd0 Ht0]. split; [|by apply Htgt].
    rewrite Heo. by apply Hrow. }
  split; rewrite ?Hm', ?Hp', ?Hend, ?Hw, ?Hwp.
  - intros _ _. destruct (Hfin Hp Hm) as (fin & Hnd & Hlen & Hall).
    exists fin. split; [done|]. split; [done|].
    intros id0 Hin0. destruct (Hall id0 Hin0) as (? & Hi0 & ?).
    assert (id0 ≠ id) by (by intros ->).
    split; [done|]. split; [by apply Hidle'|by apply Hreg].
  - done.
  - intros _ Hm''. congruence.
  - intros id0 i d o Hl. rewrite Hso, Heo, Hd.
    destruct (decide (id0 = id)) as [->|Hne].
    + by destruct (Hnewd _ _ _ Hl) as (? & ? & ? & ? & ?).
    + destruct (Hother id0 Hne) as [E1 E2]. rewrite E1 in Hl. rewrite E2.
      destruct (Hdata _ _ _ _ Hl) as (? & ? & ? & ? & ? & ?).
      split; [done|]. split; [done|]. split; [done|]. split; [done|].
      split; [done|]. apply Hrow; try done; [by eapply worker_lt|lia].
  - intros id0 Hl. destruct (decide (id0 = id)) as [->|Hne].
    + by destruct (Hnews Hl).
    + destruct (Hother id0 Hne) as [E1 E2]. rewrite E1 in Hl. rewrite E2.
      destruct (Hsig _ Hl) as (? & ? & ?).
      split; [done|]. split; [done|]. apply Hreg; try done.
      by eapply worker_lt.
Qed.

(** [work], lines 120-129: the worker takes its start signal down and
    enters the item loop. *)
Lemma join_inv_begin (s : sys) (id : nat) (v st doff : Z) :
  base_inv s → join_inv s →
  _threads (obj s) !! id = Some WTop →
  _startSignaled (obj s) !! id = Some v → v ≠ 0 →
  _startInds (obj s) !! id = Some st →
  _dataOffsets (obj s) !! id = Some doff →
  join_inv
    (upd (set_pc id (WData st doff (BufferPool._writePos (_out s))))
       (upd (set_startSignaled (<[id := v - 1]> (_startSignaled (obj s)))) s)).
Proof.
  intros Hb Hinv Hpc Hv Hv0 Hst Hdo.
  destruct (signalled_joining s id WTop v) as [Hp Hm]; try done.
  pose proof (lookup_lt_Some _ _ _ Hpc) as Hid.
  pose proof (lookup_lt_Some _ _ _ Hv) as Hid'.
  destruct (base_partition _ Hb _ _ Hpc ltac:(done)) as (Hst' & _ & Hdo' & _).
  assert (v = 1) as -> by (destruct (base_signal_values _ Hb _ _ Hv); lia).
  assert (st = startOf (obj s) id) as -> by congruence.
  assert (doff = startOf (obj s) id * _datumSize (obj s)) as -> by congruence.
  destruct (partition_bounds (obj s) id (base_config _ Hb)) as (? & ? & ? & ?).
  { by eapply (worker_lt s). }
  apply (join_inv_work s _ id); try done.
  - intros id0 Hne. simpl. by rewrite !list_lookup_insert_ne.
  - intros [Hs0 _]. congruence.
  - intros i d o Hl. simpl in Hl.
    rewrite list_lookup_insert_eq in Hl by done. simplify_eq.
    split; [done|]. split; [lia|]. split; [done|].
    split; [simpl; by rewrite list_lookup_insert_eq|].
    intros j Hj. unfold startOf in Hj. simpl in Hj. unfold startOf in *. lia.
  - intros Hl. simpl in Hl. by rewrite list_lookup_insert_eq in Hl.
Qed.

(** [work], lines 133-138: the worker decodes item [i] into its row. *)
Lemma join_inv_item (s : sys) (id : nat) (i d o k off len : Z)
    (item d' : bytes) :
  base_inv s → join_inv s →
  _threads (obj s) !! id = Some (WData i d o) →
  i < endOf (obj s) id →
  _inputBuf (obj s) = Some k →
  Buffer.getItem (BufferPool.slot (_in s) k).1 i = Some (off, len) →
  load (Buffer._data (BufferPool.slot (_in s) k).1) off len = Some item →
  store (Buffer._data (BufferPool.slot (_out s) o).1) d
        (transform item (_datumSize (obj s))) = Some d' →
  join_inv
    (upd (set_pc id (WData (i + 1) (d + _datumSize (obj s)) o))
       (set_out (BufferPool.set_slot o
                   (Buffer.set_data d' (BufferPool.slot (_out s) o).1,
                    (BufferPool.slot (_out s) o).2) (_out s)) s)).
Proof.
  intros Hb Hinv Hpc Hie Hk Hget Hload Hstore.
  destruct (working_joining s id _ Hb Hinv Hpc) as (Hp & Hm & Hs0); [done|].
  pose proof (lookup_lt_Some _ _ _ Hpc) as Hid.
  pose proof (base_config _ Hb) as Hwf.
  pose proof Hwf as (_ & _ & Hds & _).
  assert (Hidw : (id < workers s)%nat) by by eapply worker_lt.
  destruct (join_data _ Hinv _ _ _ _ Hpc) as (_ & -> & Hrange & -> & _ & Hdone).
  set (s' := upd _ _).
  assert (Hcfg : same_config (obj s) (obj s')) by (repeat split; reflexivity).
  assert (Hin : input s' = input s) by reflexivity.
  assert (Hout : output s' = (Buffer.set_data d' (output s).1, (output s).2)).
  { unfold output. simpl. apply getForWrite_set_slot. }
  assert (Hlen : Z.of_nat (length (transform item (_datumSize (obj s))))
                 = _datumSize (obj s))
    by (rewrite transform_length; lia).
  assert (Hrow : ∀ j, j ≠ i → item_done s j → item_done s' j).
  { intros j Hne. eapply item_done_store; try done. by rewrite Hout. }
  assert (Hthr : _threads (obj s') !! id
                 = Some (WData (i + 1) (i * _datumSize (obj s)
                                        + _datumSize (obj s))
                           (BufferPool._writePos (_out s)))).
  { simpl. by rewrite list_lookup_insert_eq. }
  apply (join_inv_work s s' id); try done.
  - simpl. by rewrite writePos_set_slot.
  - intros id0 Hne. simpl. by rewrite !list_lookup_insert_ne.
  - intros (_ & pc & ? & ?). by simplify_eq.
  - intros id0 u Hne Hid0 Hu Hok j Hj. apply Hrow; [|by apply Hok].
    intros ->. eapply (partition_disjoint (obj s) id id0 i); try done.
    + lia.
    + change (startOf (obj s') id0) with (startOf (obj s) id0) in Hj. lia.
  - intros id0 _ _. apply target_ok_targets; try done. by rewrite Hout.
  - intros i0 d0 o0 Hl. rewrite Hthr in Hl. simplify_eq.
    split; [done|]. split; [lia|]. split; [lia|]. split; [done|].
    intros j Hj. change (startOf (obj s') id) with (startOf (obj s) id) in Hj.
    destruct (decide (j = i)) as [->|Hne].
    + exists (BufferPool.slot (_in s) k), item.
      split; [unfold input; simpl; by rewrite Hk|].
      split; [unfold Buffer.item; by rewrite Hget|].
      rewrite Hout. simpl. rewrite <- Hlen at 2.
      by eapply load_store_same.
    + apply Hrow; [done|]. apply Hdone. lia.
  - intros Hl. rewrite Hthr in Hl. done.
Qed.

(** [work], lines 142-146: the worker copies the targets of its items. *)
Lemma join_inv_targets (s : sys) (id : nat) (i d o k srcOff len : Z)
    (d' : bytes) :
  base_inv s → join_inv s →
  _threads (obj s) !! id = Some (WData i d o) →
  endOf (obj s) id ≤ i →
  _inputBuf (obj s) = Some k →
  Buffer.getItem (BufferPool.slot (_in s) k).2 (startOf (obj s) id)
    = Some (srcOff, len) →
  memcpy (Buffer._data (BufferPool.slot (_out s) o).2)
         (startOf (obj s) id * _targetSize (obj s))
         (Buffer._data (BufferPool.slot (_in s) k).2) srcOff
         (countOf (obj s) id * _targetSize (obj s)) = Some d' →
  join_inv
    (upd (set_pc id WSignal)
       (set_out (BufferPool.set_slot o
                   ((BufferPool.slot (_out s) o).1,
                    Buffer.set_data d' (BufferPool.slot (_out s) o).2)
                   (_out s)) s)).
Proof.
  intros Hb Hinv Hpc Hie Hk Hget Hcpy.
  destruct (working_joining s id _ Hb Hinv Hpc) as (Hp & Hm & Hs0); [done|].
  pose proof (lookup_lt_Some _ _ _ Hpc) as Hid.
  pose proof (base_config _ Hb) as Hwf.
  assert (Hidw : (id < workers s)%nat) by by eapply worker_lt.
  destruct (join_data _ Hinv _ _ _ _ Hpc) as (_ & -> & Hrange & -> & _ & Hdone).
  assert (i = endOf (obj s) id) as -> by lia.
  apply memcpy_inv in Hcpy as (b & Hsrc & Hstore).
  pose proof (load_inv _ _ _ _ Hsrc) as (_ & Hspan & _ & _ & Hlenb).
  set (s' := upd _ _).
  assert (Hcfg : same_config (obj s) (obj s')) by (repeat split; reflexivity).
  assert (Hin : input s' = input s) by reflexivity.
  assert (Hout : output s' = ((output s).1, Buffer.set_data d' (output s).2)).
  { unfold output. simpl. apply getForWrite_set_slot. }
  assert (Hrow : ∀ id0 u, data_ok s id0 u → data_ok s' id0 u).
  { intros id0 u Hok j Hj. eapply item_done_data; try done.
    - by rewrite Hout.
    - by apply Hok. }
  assert (Hthr : _threads (obj s') !! id = Some WSignal).
  { simpl. by rewrite list_lookup_insert_eq. }
  apply (join_inv_work s s' id); try done.
  - simpl. by rewrite writePos_set_slot.
  - intros id0 Hne. simpl. by rewrite !list_lookup_insert_ne.
  - intros (_ & pc & ? & ?). by simplify_eq.
  - intros id0 u _ _ _. apply Hrow.
  - intros id0 Hne Hid0.
    eapply (target_ok_store s s' id0 id _ d'); try done.
    + lia.
    + by rewrite Hout.
  - intros i0 d0 o0 Hl. rewrite Hthr in Hl. done.
  - intros _. split; [done|]. split; [by apply Hrow|].
    exists (BufferPool.slot (_in s) k), srcOff, len, b.
    change (startOf (obj s') id) with (startOf (obj s) id).
    change (countOf (obj s') id) with (countOf (obj s) id).
    change (_targetSize (obj s')) with (_targetSize (obj s)).
    split; [unfold input; simpl; by rewrite Hk|]. split; [done|].
    split; [done|]. rewrite Hout.
    replace (countOf (obj s) id * _targetSize (obj s))
      with (Z.of_nat (length b)) by lia.
    by eapply load_store_same.
Qed.

(** [work], lines 148-153: the worker signals the end of its work. *)
Lemma join_inv_signal (s : sys) (id : nat) :
  base_inv s → join_inv s →
  _threads (obj s) !! id = Some WSignal →
  join_inv (work_signal id s).
Proof.
  intros Hb Hinv Hpc.
  destruct (working_joining s id _ Hb Hinv Hpc) as (Hp & Hm & Hs0); [done|].
  pose proof (lookup_lt_Some _ _ _ Hpc) as Hid.
  assert (Hidw : (id < workers s)%nat) by by eapply worker_lt.
  destruct Hinv as [Hfin Hidle Hcopy Hdata Hsig].
  destruct (Hsig _ Hpc) as (_ & _ & Hreg).
  unfold work_signal. set (s' := upd _ _).
  assert (Hview : same_view s s') by (repeat split; reflexivity).
  assert (Hthr : _threads (obj s') = <[id := WRun]> (_threads (obj s)))
    by reflexivity.
  assert (Hsg : _startSignaled (obj s') = _startSignaled (obj s))
    by reflexivity.
  assert (Hend : _endSignaled (obj s') = _endSignaled (obj s) + 1)
    by reflexivity.
  assert (Hm' : mpc s' = mpc s) by reflexivity.
  assert (Hw : workers s' = workers s) by reflexivity.
  clearbody s'.
  assert (Hother : ∀ id0, id0 ≠ id →
            _threads (obj s') !! id0 = _threads (obj s) !! id0).
  { intros id0 Hne. rewrite Hthr. by rewrite list_lookup_insert_ne. }
  assert (Hidle' : ∀ id0, idle s id0 → idle s' id0).
  { intros id0 Hi. assert (id0 ≠ id).
    { intros ->. destruct Hi as (_ & pc & ? & ?). by simplify_eq. }
    unfold idle. by rewrite Hsg, (Hother id0). }
  split; rewrite ?Hm', ?Hw.
  - intros _ _. destruct (Hfin Hp Hm) as (fin & Hnd & Hlenf & Hall).
    exists (id :: fin). split; [|split].
    + constructor; [|done]. intros Hin0.
      destruct (Hall id Hin0) as (_ & (_ & pc & ? & ?) & _). by simplify_eq.
    + rewrite Hend. simpl. lia.
    + intros id0 Hin0. apply elem_of_cons in Hin0 as [->|Hin0].
      * split; [done|]. split; [|by eapply region_ok_view].
        split; [by rewrite Hsg|]. exists WRun. rewrite Hthr.
        by rewrite list_lookup_insert_eq.
      * destruct (Hall id0 Hin0) as (? & ? & ?).
        split; [done|]. split; [by apply Hidle'|by eapply region_ok_view].
  - intros _ Hm''. done.
  - intros _ Hm''. congruence.
  - intros id0 i0 d0 o0 Hl. destruct (decide (id0 = id)) as [->|Hne].
    + rewrite Hthr, list_lookup_insert_eq in Hl by done. done.
    + rewrite Hother in Hl by done.
      destruct Hview as ((Hc & Hi & HB & Hd & Ht) & Hin & Hout & Hwp).
      destruct (Hdata _ _ _ _ Hl) as (? & ? & ? & ? & ? & ?).
      unfold endOf, countOf, startOf. rewrite Hwp, Hsg, Hc, Hi, HB, Hd.
      split; [done|]. split; [done|]. split; [done|]. split; [done|].
      split; [done|]. eapply data_ok_view; [|done]. by repeat split.
  - intros id0 Hl. destruct (decide (id0 = id)) as [->|Hne].
    + rewrite Hthr, list_lookup_insert_eq in Hl by done. done.
    + rewrite Hother in Hl by done.
      destruct (Hsig _ Hl) as (? & ? & ?). rewrite Hsg.
      split; [done|]. split; [done|]. by eapply region_ok_view.
Qed.

Ltac same_view := repeat split; reflexivity.

Lemma join_inv_worker_step (id : nat) (s s' : sys) :
  base_inv s → join_inv s → worker_step id s = Some s' → join_inv s'.
Proof.
  intros Hb Hinv Hstep.
  unfold worker_step in Hstep.
  destruct (_threads (obj s) !! id) as [pc|] eqn:Hpc; simpl in Hstep; [|done].
  pose proof (lookup_lt_Some _ _ _ Hpc) as Hid.
  destruct pc; simplify_eq.
  - (* WInit *)
    by apply (join_inv_move s _ id WRun); try done; same_view.
  - (* WRun *) unfold run_loop. destruct (_done (obj s)).
    + by apply (join_inv_move s _ id WStopped); try done; same_view.
    + by apply (join_inv_move s _ id WTop); try done; same_view.
  - (* WTop *) unfold work_top in Hstep.
    destruct (_startSignaled (obj s) !! id) as [v|] eqn:Hv;
      simpl in Hstep; [|done].
    destruct (Z.eqb_spec v 0) as [->|Hv0].
    + simplify_eq.
      by apply (join_inv_move s _ id WWaiting); try done; same_view.
    + simplify_option_eq. by eapply join_inv_begin.
  - (* WWaiting *) unfold work_wake. destruct (_done (obj s)).
    + by apply (join_inv_move s _ id WRun); try done; same_view.
    + by apply (join_inv_move s _ id WTop); try done; same_view.
  - (* WData *)
    destruct (_endInds (obj s) !! id) as [e|] eqn:He; simpl in Hstep; [|done].
    destruct (base_partition _ Hb _ _ Hpc ltac:(done))
      as (Hst & He' & _ & Hto & Hts).
    assert (e = endOf (obj s) id) as -> by congruence.
    destruct (Z.ltb_spec i (endOf (obj s) id)) as [Hie|Hie].
    + unfold work_item in Hstep.
      destruct (_inputBuf (obj s)) as [k|] eqn:Hk; simpl in Hstep; [|done].
      destruct (Buffer.getItem _ i) as [[off len]|] eqn:Hget.
      * destruct (load _ off len) as [item|] eqn:Hload;
          simpl in Hstep; [|done].
        destruct (store _ dataBuf _) as [d'|] eqn:Hstore;
          simpl in Hstep; [|done].
        simplify_eq. by eapply join_inv_item.
      * simplify_eq.
        by apply (join_inv_move s _ id WRun); try done; same_view.
    + unfold work_targets in Hstep. rewrite Hst, Hto, Hts in Hstep.
      simpl in Hstep.
      destruct (_inputBuf (obj s)) as [k|] eqn:Hk; simpl in Hstep; [|done].
      destruct (Buffer.getItem _ _) as [[srcOff len]|] eqn:Hget;
        simpl in Hstep; [|done].
      destruct (memcpy _ _ _ _ _) as [d'|] eqn:Hcpy; simpl in Hstep; [|done].
      simplify_eq. by eapply join_inv_targets.
  - (* WSignal *) by apply join_inv_signal.
Qed.

Lemma join_inv_manager_step (r : Z) (s s' : sys) :
  base_inv s → join_inv s → manager_step r s = Some s' → join_inv s'.
Proof.
  intros Hb Hinv Hstep. unfold manager_step in Hstep.
  destruct (_manager (obj s)) as [pc|] eqn:Hpc; simpl in Hstep; [|done].
  assert (Hmpc : ∀ pc', pc' ≠ pc → mpc s ≠ Some pc').
  { intros pc' Hne. unfold mpc. rewrite Hpc. congruence. }
  assert (Hm : mpc s = Some pc) by done.
  destruct pc; simplify_eq.
  - unfold manage_init. destruct (r =? 0);
      apply (join_inv_not_joining s); try done; by apply Hmpc.
  - unfold manage_loop. destruct (_stopManager (obj s));
      apply (join_inv_not_joining s); try done; by apply Hmpc.
  - unfold consume_top. destruct (BufferPool.empty (_in s));
      apply (join_inv_not_joining s); try done; by apply Hmpc.
  - unfold consume_wake. destruct (_stopManager (obj s));
      apply (join_inv_not_joining s); try done; by apply Hmpc.
  - (* the start signals *)
    unfold produce_dispatch in Hstep.
    destruct (BufferPool.full (_out s)); simplify_eq.
    assert (Hm : mpc s = Some MProduce) by done.
    destruct Hinv as [Hfin Hidle Hcopy Hdata Hsig]. split.
    + intros Hp _. destruct (Hidle Hp) as [He _]; [by apply Hmpc|].
      exists []. split; [constructor|]. split; [done|].
      intros id Hin. by apply elem_of_nil in Hin.
    + intros _ Hm'. done.
    + intros _ Hm'. done.
    + intros id i d o Hl. destruct (Hdata _ _ _ _ Hl) as (? & _). congruence.
    + intros id Hl. destruct (Hsig _ Hl) as (? & _). congruence.
  - (* the join *)
    unfold produce_join in Hstep.
    destruct (Z.ltb_spec (_endSignaled (obj s)) (_count (obj s))) as [|Hge];
      simplify_eq.
    assert (Hm : mpc s = Some MJoin) by done.
    set (s' := set_mpc MCopy _).
    assert (Hview : same_view s s') by (repeat split; reflexivity).
    assert (Hall : poking s = false →
              ∀ id, (id < workers s)%nat → idle s id ∧ region_ok s id).
    { intros Hp id Hid.
      destruct (join_fin _ Hinv Hp Hm) as (fin & Hnd & Hlen & Hall).
      apply Hall. apply (all_signalled fin (workers s)); try done.
      - intros id0 Hin. by destruct (Hall id0 Hin).
      - unfold workers. lia. }
    assert (Hnone : ∀ id pc, _threads (obj s) !! id = Some pc →
              working pc = false).
    { intros id pc Hl. destruct (working pc) eqn:Hw; [|done].
      destruct (working_joining s id pc Hb Hinv Hl Hw) as (Hp & _).
      destruct (Hall Hp id) as [(_ & pc' & ? & ?) _].
      - by eapply worker_lt.
      - simplify_eq. congruence. }
    split.
    + intros _ Hm'. done.
    + intros Hp _. split; [done|]. intros id Hid. by apply Hall.
    + intros Hp _ id Hid. eapply region_ok_view; [done|]. by apply Hall.
    + intros id i d o Hl. by specialize (Hnone _ _ Hl).
    + intros id Hl. by specialize (Hnone _ _ Hl).
  - unfold produce_copy. apply (join_inv_not_joining s); try done;
      by apply Hmpc.
  - unfold consume_advance. apply (join_inv_not_joining s); try done;
      by apply Hmpc.
Qed.

Lemma join_inv_step (l : label) (s s' : sys) :
  base_inv s → join_inv s → step l s = Some s' → join_inv s'.
Proof.
  intros Hb Hinv Hstep. destruct l as [id|r|filled| |]; simpl in Hstep.
  - by eapply join_inv_worker_step.
  - by eapply join_inv_manager_step.
  - unfold reader_step in Hstep.
    destruct (holds_in (obj s)) eqn:Hh; simpl in Hstep; [done|].
    destruct (BufferPool.full (_in s)); simplify_eq.
    unfold holds_in in Hh.
    apply (join_inv_not_joining s); try done; unfold mpc; simpl;
      by destruct (_manager (obj s)) as [[]|].
  - unfold consumer_step in Hstep.
    destruct (holds_out (obj s)) eqn:Hh; simplify_eq.
    unfold holds_out in Hh.
    apply (join_inv_not_joining s); try done; unfold mpc; simpl;
      by destruct (_manager (obj s)) as [[]|].
  - unfold stop_step in Hstep.
    destruct (stopper s) eqn:Hsp; simplify_eq;
      repeat case_match; simplify_eq;
      (apply (join_inv_frame s); try done; try solve [same_view];
       unfold poking; simpl; rewrite ?Hsp; done).
Qed.

Lemma join_inv_init (count batchSize datumSize targetSize : Z)
    (readBufs decodeBufs : BufferPool.t) (device : Device.t) :
  join_inv (init count batchSize datumSize targetSize readBufs decodeBufs
              device).
Proof.
  split; unfold mpc, workers; simpl.
  - done.
  - intros _ _. split; [done|]. intros id Hid. split.
    + by apply lookup_replicate_2.
    + exists WInit. split; [|done]. by apply lookup_replicate_2.
  - done.
  - intros id i d o Hl. by apply lookup_replicate in Hl as [? _].
  - intros id Hl. by apply lookup_replicate in Hl as [? _].
Qed.

Lemma invariants_reachable (s0 s : sys) :
  base_inv s0 → join_inv s0 → reachable s0 s → base_inv s ∧ join_inv s.
Proof.
  intros Hb Hj. induction 1 as [|s l s' _ [IHb IHj] Hstep]; [done|].
  split; [by eapply base_inv_step|by eapply join_inv_step].
Qed.

End Join.

(** ** The pipeline that [Loader::start] sets up *)

Lemma init_invariants `{Media} (count batchSize datumSize targetSize : Z)
    (readBufs decodeBufs : BufferPool.t) (device : Device.t) (s : sys) :
  let s0 := init count batchSize datumSize targetSize readBufs decodeBufs
              device in
  wf_config (obj s0) → pool_sized (obj s0) decodeBufs → reachable s0 s →
  base_inv s ∧ join_inv s.
Proof.
  intros s0 Hwf Hsz Hreach.
  apply (invariants_reachable s0); [by apply base_inv_init| |done].
  apply join_inv_init.
Qed.

Lemma example_wf : wf_config (obj example_init).
Proof. repeat split; vm_compute; (reflexivity || discriminate). Qed.

Lemma example_sized : pool_sized (obj example_init) (_out example_init).
Proof. repeat split. Qed.

Lemma example_joined_run :
  exec (H := identity_media) (example_dispatch ++ example_decode)
       example_init = example_joined.
Proof. vm_compute. reflexivity. Qed.

Lemma signalled_le (fin : list nat) (n : nat) :
  NoDup fin → (∀ id, id ∈ fin → id < n)%nat → (length fin ≤ n)%nat.
Proof.
  intros Hnd Hlt.
  assert (Hsub : fin ⊆+ seq 0 n).
  { apply NoDup_submseteq; [done|]. intros x Hx. apply elem_of_seq.
    specialize (Hlt x Hx). lia. }
  apply submseteq_length in Hsub. by rewrite length_seq in Hsub.
Qed.

(** ** The join counter *)

(** C5: as long as [stop] has not begun to poke the manager,
    [_endSignaled] is between 0 and the worker count; it is 0 whenever the
    manager is not waiting for the workers, in particular when the manager
    raises the start signals of a batch, which it does as soon as the
    decode pool is not full; the manager stays in its wait while
    [_endSignaled] is below the worker count; and once [_endSignaled]
    equals the worker count the manager does leave the wait and resets
    [_endSignaled] to 0, which is the only way it leaves it. *)
Theorem endSignaled_bounded `{Media}
    (count batchSize datumSize targetSize : Z)
    (readBufs decodeBufs : BufferPool.t) (device : Device.t) (s : sys) :
  let s0 := init count batchSize datumSize targetSize readBufs decodeBufs
              device in
  wf_config (obj s0) → pool_sized (obj s0) decodeBufs → reachable s0 s →
  poking s = false →
  0 ≤ _endSignaled (obj s) ≤ _count (obj s) ∧
  (mpc s ≠ Some MJoin → _endSignaled (obj s) = 0) ∧
  (∀ r s', mpc s = Some MProduce → manager_step r s = Some s' →
     _endSignaled (obj s) = 0 ∧ mpc s' = Some MJoin ∧
     _endSignaled (obj s') = 0 ∧
     ∀ id, (id < workers s)%nat → _startSignaled (obj s') !! id = Some 1) ∧
  (∀ r s', mpc s = Some MJoin → manager_step r s = Some s' →
     _endSignaled (obj s) = _count (obj s) ∧ mpc s' = Some MCopy ∧
     _endSignaled (obj s') = 0) ∧
  (∀ r, mpc s = Some MProduce → BufferPool.full (_out s) = false →
     ∃ s', manager_step r s = Some s' ∧ mpc s' = Some MJoin ∧
           _endSignaled (obj s') = 0) ∧
  (∀ r, mpc s = Some MJoin → _endSignaled (obj s) < _count (obj s) →
     manager_step r s = None) ∧
  (∀ r, mpc s = Some MJoin → _endSignaled (obj s) = _count (obj s) →
     ∃ s', manager_step r s = Some s' ∧ mpc s' = Some MCopy ∧
           _endSignaled (obj s') = 0 ∧
           _threads (obj s') = _threads (obj s) ∧ _out s' = _out s).
Proof.
  intros s0 Hwf Hsz Hreach Hp.
  destruct (init_invariants _ _ _ _ _ _ _ _ Hwf Hsz Hreach) as [Hb Hinv].
  assert (Hbound : 0 ≤ _endSignaled (obj s) ≤ _count (obj s)).
  { destruct (base_config _ Hb) as (Hcount & _).
    destruct (decide (mpc s = Some MJoin)) as [Hm|Hm].
    - destruct (join_fin _ Hinv Hp Hm) as (fin & Hnd & -> & Hall).
      pose proof (signalled_le fin (workers s) Hnd) as Hle.
      unfold workers in Hle. split; [lia|].
      assert (length fin ≤ Z.to_nat (_count (obj s)))%nat; [|lia].
      apply Hle. intros id Hin. by destruct (Hall id Hin).
    - destruct (join_idle _ Hinv Hp Hm) as [-> _]. lia. }
  split; [done|]. split; [|split; [|split; [|split; [|split]]]].
  - intros Hm. by destruct (join_idle _ Hinv Hp Hm).
  - intros r s' Hm Hstep. unfold manager_step in Hstep.
    unfold mpc in Hm. rewrite Hm in Hstep. simpl in Hstep.
    unfold produce_dispatch in Hstep.
    destruct (BufferPool.full (_out s)); simplify_eq.
    destruct (join_idle _ Hinv Hp) as [He _]; [unfold mpc; congruence|].
    split; [done|]. split; [done|]. split; [done|].
    intros id Hid. simpl. rewrite list_lookup_fmap.
    destruct (lookup_lt_is_Some_2 (_startSignaled (obj s)) id) as [v ->];
      [by rewrite (base_signals _ Hb)|done].
  - intros r s' Hm Hstep. unfold manager_step in Hstep.
    unfold mpc in Hm. rewrite Hm in Hstep. simpl in Hstep.
    unfold produce_join in Hstep.
    destruct (Z.ltb_spec (_endSignaled (obj s)) (_count (obj s)));
      simplify_eq.
    split; [lia|]. done.
  - intros r Hm Hfull. unfold manager_step. unfold mpc in Hm.
    rewrite Hm. simpl. unfold produce_dispatch. rewrite Hfull.
    eexists. split; [reflexivity|]. split; [done|]. simpl.
    destruct (join_idle _ Hinv Hp) as [He _]; [unfold mpc; congruence|].
    done.
  - intros r Hm Hlt. unfold manager_step. unfold mpc in Hm.
    rewrite Hm. simpl. unfold produce_join.
    by destruct (Z.ltb_spec (_endSignaled (obj s)) (_count (obj s)));
      [|lia].
  - intros r Hm He. unfold manager_step. unfold mpc in Hm.
    rewrite Hm. simpl. unfold produce_join.
    destruct (Z.ltb_spec (_endSignaled (obj s)) (_count (obj s))); [lia|].
    eexists. split; [reflexivity|]. done.
Qed.

Lemma endSignaled_bounded_witness :
  ∃ s, example_joined = Some s ∧
       mpc s = Some MJoin ∧
       0 ≤ _endSignaled (obj s) ≤ 2 ∧ _endSignaled (obj s) = 2 ∧
       ∃ s', manager_step 0 s = Some s' ∧ mpc s' = Some MCopy ∧
             _endSignaled (obj s') = 0.
Proof.
  eexists. split; [reflexivity|]. split; [reflexivity|].
  pose proof (endSignaled_bounded (H := identity_media) 2 4 2 1
                (BufferPool.new 8 4 false) (BufferPool.new 8 4 false)
                (Device.mk Device.CPU []) _ example_wf example_sized
                (exec_reachable (H := identity_media) _ example_init _
                   example_joined_run) eq_refl)
    as (Hb & _ & _ & _ & _ & _ & Hjoin).
  split; [exact Hb|]. split; [reflexivity|].
  destruct (Hjoin 0 eq_refl eq_refl) as (s' & Hstep & Hm & He & _).
  exists s'. split; [exact Hstep|]. split; [exact Hm|exact He].
Defined.

(** ** The bytes a worker writes *)

Section Writes.
Context `{Media}.

(** What a step of worker [id] does to the decode pool: nothing, or one
    store of a decoded row into the data half of the write slot, or one
    store of the worker's target rows into its target half. *)
Lemma worker_step_out (id : nat) (s s' : sys) :
  base_inv s → join_inv s → worker_step id s = Some s' →
  _out s' = _out s ∨
  (∃ i src d',
     startOf (obj s) id ≤ i < endOf (obj s) id ∧
     Z.of_nat (length src) = _datumSize (obj s) ∧
     store (Buffer._data (output s).1) (i * _datumSize (obj s)) src
       = Some d' ∧
     _out s' = BufferPool.set_slot (BufferPool._writePos (_out s))
                 (Buffer.set_data d' (output s).1, (output s).2) (_out s)) ∨
  (∃ src d',
     Z.of_nat (length src) = countOf (obj s) id * _targetSize (obj s) ∧
     store (Buffer._data (output s).2)
           (startOf (obj s) id * _targetSize (obj s)) src = Some d' ∧
     _out s' = BufferPool.set_slot (BufferPool._writePos (_out s))
                 ((output s).1, Buffer.set_data d' (output s).2) (_out s)).
Proof.
  intros Hb Hinv Hstep. unfold worker_step in Hstep.
  destruct (_threads (obj s) !! id) as [pc|] eqn:Hpc; simpl in Hstep; [|done].
  destruct pc; simplify_eq; try by left.
  - unfold run_loop. left. by case_match.
  - unfold work_top in Hstep. left.
    destruct (_startSignaled (obj s) !! id) as [v|]; simpl in Hstep; [|done].
    destruct (v =? 0); [by simplify_eq|].
    destruct (_startInds (obj s) !! id); simpl in Hstep; [|done].
    destruct (_dataOffsets (obj s) !! id); simpl in Hstep; [|done].
    by simplify_eq.
  - unfold work_wake. left. by case_match.
  - destruct (_endInds (obj s) !! id) as [e|] eqn:He; simpl in Hstep; [|done].
    destruct (base_partition _ Hb _ _ Hpc ltac:(done))
      as (Hst & He' & _ & Hto & Hts).
    assert (e = endOf (obj s) id) as -> by congruence.
    destruct (join_data _ Hinv _ _ _ _ Hpc)
      as (_ & -> & Hrange & -> & _ & _).
    pose proof (base_config _ Hb) as (_ & _ & Hds & _).
    destruct (Z.ltb_spec i (endOf (obj s) id)) as [Hie|Hie].
    + unfold work_item in Hstep.
      destruct (_inputBuf (obj s)) as [k|] eqn:Hk; simpl in Hstep; [|done].
      destruct (Buffer.getItem _ i) as [[off len]|] eqn:Hget;
        [|left; by simplify_eq].
      destruct (load _ off len) as [item|] eqn:Hload;
        simpl in Hstep; [|done].
      destruct (store _ _ _) as [d'|] eqn:Hstore; simpl in Hstep; [|done].
      simplify_eq. right. left.
      exists i, (transform item (_datumSize (obj s))), d'.
      split; [lia|]. split; [rewrite transform_length; lia|]. done.
    + unfold work_targets in Hstep. rewrite Hst, Hto, Hts in Hstep.
      simpl in Hstep.
      destruct (_inputBuf (obj s)) as [k|] eqn:Hk; simpl in Hstep; [|done].
      destruct (Buffer.getItem _ _) as [[srcOff len]|] eqn:Hget;
        simpl in Hstep; [|done].
      destruct (memcpy _ _ _ _ _) as [d'|] eqn:Hcpy; simpl in Hstep; [|done].
      simplify_eq. right. right.
      apply memcpy_inv in Hcpy as (b & Hsrc & Hstore).
      pose proof (load_inv _ _ _ _ Hsrc) as (_ & Hspan & _ & _ & Hlenb).
      exists b, d'. split; [lia|]. done.
Qed.

Lemma ranges_disjoint (p : t) (id1 id2 : nat) (w : Z) :
  wf_config p → 0 ≤ w →
  (id1 < Z.to_nat (_count p))%nat → (id2 < Z.to_nat (_count p))%nat →
  id1 ≠ id2 →
  disjoint (startOf p id1 * w, endOf p id1 * w)
           (startOf p id2 * w, endOf p id2 * w).
Proof.
  intros Hwf Hw H1 H2 Hne. unfold disjoint. simpl.
  destruct (Nat.lt_total id1 id2) as [Hlt|[->|Hlt]]; [|done|].
  - pose proof (partition_monotone p id1 id2 Hwf Hlt H2). left. nia.
  - pose proof (partition_monotone p id2 id1 Hwf Hlt H1). right. nia.
Qed.

Lemma ranges_cover (p : t) (w q : Z) :
  wf_config p → 0 ≤ w →
  0 ≤ q < _batchSize p * w ↔
  ∃ id, (id < Z.to_nat (_count p))%nat ∧
        startOf p id * w ≤ q < endOf p id * w.
Proof.
  intros Hwf Hw. split.
  - intros Hq. assert (0 < w) by (destruct (decide (w = 0)) as [->|]; lia).
    pose proof (Z.div_mod q w ltac:(lia)) as E.
    pose proof (Z.mod_pos_bound q w ltac:(lia)) as Hm.
    assert (0 ≤ q `div` w) by (apply Z.div_pos; lia).
    assert (q `div` w < _batchSize p)
      by (apply Z.div_lt_upper_bound; lia).
    destruct (partition_cover p (q `div` w) Hwf) as (id & Hid & Hj); [lia|].
    exists id. split; [done|]. nia.
  - intros (id & Hid & Hq).
    destruct (partition_bounds p id Hwf Hid) as (? & ? & ? & ?). nia.
Qed.

(** C3: the range [run] gives worker [id] is
    [[id * itemsPerThread, min((id+1) * itemsPerThread, batchSize))]; a
    step of the worker changes no byte of the data half of either output
    slot outside [[startInd * datumSize, endInd * datumSize)] and no byte
    of the target half outside [[startInd * targetSize, endInd *
    targetSize)]; the byte intervals of two different workers are
    disjoint, and an offset lies in [[0, batchSize * datumSize)] (in
    [[0, batchSize * targetSize)]) exactly when it lies in the data
    (target) interval of some worker. *)
Theorem worker_writes_disjoint
    (count batchSize datumSize targetSize : Z)
    (readBufs decodeBufs : BufferPool.t) (device : Device.t)
    (s s' : sys) (id : nat) :
  let s0 := init count batchSize datumSize targetSize readBufs decodeBufs
              device in
  wf_config (obj s0) → pool_sized (obj s0) decodeBufs → reachable s0 s →
  worker_step id s = Some s' →
  let p := obj s in
  let dataRange (w : nat) :=
    (specStart p w * _datumSize p, specEnd p w * _datumSize p) in
  let targetRange (w : nat) :=
    (specStart p w * _targetSize p, specEnd p w * _targetSize p) in
  (id < workers s)%nat ∧
  (∀ w, (w < workers s)%nat →
     startOf p w = specStart p w ∧ endOf p w = specEnd p w) ∧
  (∀ (k : Z) (q : nat),
     ¬ ((dataRange id).1 ≤ Z.of_nat q < (dataRange id).2) →
     Buffer._data (BufferPool.slot (_out s') k).1 !! q
       = Buffer._data (BufferPool.slot (_out s) k).1 !! q) ∧
  (∀ (k : Z) (q : nat),
     ¬ ((targetRange id).1 ≤ Z.of_nat q < (targetRange id).2) →
     Buffer._data (BufferPool.slot (_out s') k).2 !! q
       = Buffer._data (BufferPool.slot (_out s) k).2 !! q) ∧
  (∀ w1 w2, (w1 < workers s)%nat → (w2 < workers s)%nat → w1 ≠ w2 →
     disjoint (dataRange w1) (dataRange w2) ∧
     disjoint (targetRange w1) (targetRange w2)) ∧
  (∀ q, 0 ≤ q < _batchSize p * _datumSize p ↔
        ∃ w, (w < workers s)%nat ∧
             (dataRange w).1 ≤ q < (dataRange w).2) ∧
  (∀ q, 0 ≤ q < _batchSize p * _targetSize p ↔
        ∃ w, (w < workers s)%nat ∧
             (targetRange w).1 ≤ q < (targetRange w).2).
Proof.
  intros s0 Hwf0 Hsz Hreach Hstep p dataRange targetRange.
  destruct (init_invariants _ _ _ _ _ _ _ _ Hwf0 Hsz Hreach) as [Hb Hinv].
  pose proof (base_config _ Hb) as Hwf.
  pose proof Hwf as (_ & _ & Hds & Hts & _).
  assert (Hid : (id < workers s)%nat).
  { unfold worker_step in Hstep.
    destruct (_threads (obj s) !! id) as [pc|] eqn:Hpc; [|done].
    by eapply worker_lt. }
  assert (Hspec : ∀ w, (w < workers s)%nat →
            startOf p w = specStart p w ∧ endOf p w = specEnd p w).
  { intros w Hw. split; [unfold startOf, startInd, specStart; lia|].
    by apply endOf_min. }
  assert (Hrd : ∀ w, (w < workers s)%nat →
            dataRange w = (startOf p w * _datumSize p,
                           endOf p w * _datumSize p)).
  { intros w Hw. subst dataRange. simpl. by destruct (Hspec w Hw) as [-> ->]. }
  assert (Hrt : ∀ w, (w < workers s)%nat →
            targetRange w = (startOf p w * _targetSize p,
                             endOf p w * _targetSize p)).
  { intros w Hw. subst targetRange. simpl.
    by destruct (Hspec w Hw) as [-> ->]. }
  split; [done|]. split; [done|].
  split; [|split; [|split; [|split]]].
  - intros k q Hq. rewrite (Hrd id Hid) in Hq. simpl in Hq.
    destruct (worker_step_out id s s' Hb Hinv Hstep)
      as [->|[(i & src & d' & Hi & Hlen & Hst & ->)|(src & d' & _ & _ & ->)]];
      [done| |].
    + rewrite slot_set_slot. case_bool_decide; [|done]. simpl.
      assert (BufferPool.slot (_out s) k = output s) as ->.
      { unfold output, BufferPool.getForWrite, BufferPool.slot in *.
        by destruct (BufferPool._writePos (_out s) =? 0), (k =? 0). }
      apply (store_lookup_outside _ _ _ _ _ Hst). unfold p in *.
      assert (startOf (obj s) id * _datumSize (obj s)
              ≤ i * _datumSize (obj s)) by nia.
      assert ((i + 1) * _datumSize (obj s)
              ≤ endOf (obj s) id * _datumSize (obj s)) by nia.
      lia.
    + rewrite slot_set_slot. case_bool_decide; [|done]. simpl.
      unfold output, BufferPool.getForWrite, BufferPool.slot in *.
      by destruct (BufferPool._writePos (_out s) =? 0), (k =? 0).
  - intros k q Hq. rewrite (Hrt id Hid) in Hq. simpl in Hq.
    destruct (worker_step_out id s s' Hb Hinv Hstep)
      as [->|[(i & src & d' & _ & _ & _ & ->)|(src & d' & Hlen & Hst & ->)]];
      [done| |].
    + rewrite slot_set_slot. case_bool_decide; [|done]. simpl.
      unfold output, BufferPool.getForWrite, BufferPool.slot in *.
      by destruct (BufferPool._writePos (_out s) =? 0), (k =? 0).
    + rewrite slot_set_slot. case_bool_decide; [|done]. simpl.
      assert (BufferPool.slot (_out s) k = output s) as ->.
      { unfold output, BufferPool.getForWrite, BufferPool.slot in *.
        by destruct (BufferPool._writePos (_out s) =? 0), (k =? 0). }
      apply (store_lookup_outside _ _ _ _ _ Hst). unfold p in *.
      unfold endOf in Hq. lia.
  - intros w1 w2 H1 H2 Hne. rewrite !Hrd, !Hrt by done.
    split; by apply ranges_disjoint.
  - intros q. rewrite (ranges_cover p (_datumSize p) q Hwf Hds).
    split; intros (w & Hw & Hq); exists w; (split; [done|]);
      rewrite (Hrd w Hw) in *; done.
  - intros q. rewrite (ranges_cover p (_targetSize p) q Hwf Hts).
    split; intros (w & Hw & Hq); exists w; (split; [done|]);
      rewrite (Hrt w Hw) in *; done.
Qed.

End Writes.

Lemma example_decoding_run :
  exec (H := identity_media) (example_dispatch ++ take 8 example_decode)
       example_init = example_decoding.
Proof. vm_compute. reflexivity. Qed.

Lemma example_decoding_step :
  (s ← example_decoding; worker_step (H := identity_media) 0 s)
  = example_decoding_next.
Proof. vm_compute. reflexivity. Qed.

Lemma worker_writes_disjoint_witness :
  ∃ s s', example_decoding = Some s ∧ example_decoding_next = Some s' ∧
    worker_step (H := identity_media) 0 s = Some s' ∧
    Buffer._data (BufferPool.slot (_out s') 0).1 !! 5%nat
      = Buffer._data (BufferPool.slot (_out s) 0).1 !! 5%nat.
Proof.
  eexists _, _. split; [reflexivity|]. split; [reflexivity|].
  split; [exact example_decoding_step|].
  destruct (worker_writes_disjoint (H := identity_media) 2 4 2 1
              (BufferPool.new 8 4 false) (BufferPool.new 8 4 false)
              (Device.mk Device.CPU []) _ _ 0%nat example_wf example_sized
              (exec_reachable (H := identity_media) _ example_init _
                 example_decoding_run) example_decoding_step)
    as (_ & _ & Hd & _).
  apply (Hd 0 5%nat). vm_compute. intros [_ Hlt]. discriminate Hlt.
Defined.

(** ** The minibatch the manager delivers *)

Lemma load_sub (data b : bytes) (a n k m : Z) :
  load data a n = Some b → 0 ≤ k → 0 ≤ m → k + m ≤ n →
  load data (a + k) m = Some (take (Z.to_nat m) (drop (Z.to_nat k) b)).
Proof.
  intros Hl Hk Hm Hkm. apply load_inv in Hl as (Ha & Hn & Hlen & -> & _).
  rewrite load_Some by lia. f_equal. apply list_eq. intros i.
  destruct (decide (i < Z.to_nat m)%nat) as [Hi|Hi].
  - rewrite !lookup_take_lt, !lookup_drop by done.
    rewrite lookup_take_lt, lookup_drop by lia. f_equal. lia.
  - by rewrite !lookup_take_ge by lia.
Qed.

Lemma load_take (data b : bytes) (n : nat) (a k : Z) :
  load data a k = Some b → a + k ≤ Z.of_nat n →
  load (take n data) a k = Some b.
Proof.
  intros Hl Hn. apply load_inv in Hl as (Ha & Hk & Hlen & -> & _).
  rewrite load_Some by (rewrite ?length_take; lia). f_equal.
  apply list_eq. intros i.
  destruct (decide (i < Z.to_nat k)%nat) as [Hi|Hi].
  - rewrite !lookup_take_lt, !lookup_drop by done.
    rewrite lookup_take_lt by lia. done.
  - by rewrite !lookup_take_ge by lia.
Qed.

(** A region all of whose rows are known is the concatenation of the
    rows. *)
Lemma rows_join (n : nat) (w : Z) (f : Z → bytes) (data : bytes) :
  0 ≤ w → Z.of_nat (length data) = Z.of_nat n * w →
  (∀ j, 0 ≤ j < Z.of_nat n → load data (j * w) w = Some (f j)) →
  data = mjoin (f <$> seqZ 0 (Z.of_nat n)).
Proof.
  intros Hw. revert data. induction n as [|n IH]; intros data Hlen Hrows.
  - simpl. apply nil_length_inv. lia.
  - rewrite seqZ_S, fmap_app, join_app. simpl. rewrite app_nil_r.
    rewrite <- (take_drop (Z.to_nat (Z.of_nat n * w)) data) at 1.
    f_equal.
    + apply IH.
      * rewrite length_take. nia.
      * intros j Hj. apply load_take; [apply Hrows; lia|]. nia.
    + destruct (load_inv _ _ _ _ (Hrows (Z.of_nat n) ltac:(lia)))
        as (_ & _ & _ & E & _).
      rewrite Z.add_0_l, E. rewrite take_ge; [done|].
      rewrite length_drop. nia.
Qed.

Section Delivery.
Context `{Media}.

(** When the manager has joined, every row of the output is decoded. *)
Lemma joined_rows (s : sys) (inp : BufferPair) (j : Z) :
  base_inv s → join_inv s → poking s = false → mpc s = Some MCopy →
  input s = Some inp → 0 ≤ j < _batchSize (obj s) →
  ∃ item, Buffer.item inp.1 j = Some item ∧
    load (Buffer._data (output s).1) (j * _datumSize (obj s))
         (_datumSize (obj s))
      = Some (transform item (_datumSize (obj s))).
Proof.
  intros Hb Hinv Hp Hm Hin Hj.
  destruct (partition_cover (obj s) j (base_config _ Hb) Hj)
    as (id & Hid & Hr).
  destruct (join_copy _ Hinv Hp Hm id Hid) as [Hd _].
  destruct (Hd j Hr) as (inp' & item & Hin' & Hit & Hl).
  exists item. by simplify_eq.
Qed.

Lemma joined_targets (s : sys) (inp : BufferPair) (j : Z) :
  base_inv s → join_inv s → poking s = false → mpc s = Some MCopy →
  input s = Some inp → targets_dense (obj s) inp.2 →
  0 ≤ j < _batchSize (obj s) →
  ∃ item, Buffer.item inp.2 j = Some item ∧
    load (Buffer._data (output s).2) (j * _targetSize (obj s))
         (_targetSize (obj s)) = Some item.
Proof.
  intros Hb Hinv Hp Hm Hin Hdense Hj.
  pose proof (base_config _ Hb) as Hwf.
  pose proof Hwf as (_ & _ & _ & Hts & _).
  destruct (partition_cover (obj s) j Hwf Hj) as (id & Hid & Hr).
  destruct (partition_bounds (obj s) id Hwf Hid) as (Hs0 & _ & He & _).
  destruct (join_copy _ Hinv Hp Hm id Hid) as [_ Ht].
  destruct Ht as (inp' & srcOff & len & b & Hin' & Hget & Hl1 & Hl2).
  simplify_eq. rewrite Hdense in Hget by lia. simplify_eq.
  set (ts := _targetSize (obj s)) in *.
  set (k := (j - startOf (obj s) id) * ts).
  assert (Hk : 0 ≤ k ∧ k + ts ≤ countOf (obj s) id * ts)
    by (unfold k, endOf in *; nia).
  exists (take (Z.to_nat ts) (drop (Z.to_nat k) b)). split.
  - unfold Buffer.item. rewrite Hdense by done.
    replace (j * _targetSize (obj s)) with (startOf (obj s) id * ts + k)
      by (unfold k, ts; lia).
    eapply load_sub; [done|lia..].
  - replace (j * ts) with (startOf (obj s) id * ts + k) by (unfold k; lia).
    eapply load_sub; [done|lia..].
Qed.

(** C1: when the manager, having joined the workers of a batch,
    performs the rest of [produce], the pair it delivers (the slot at the
    write cursor, which it then advances) has as data half the transpose,
    from [batchSize] rows of [datumSize] bytes to [datumSize] rows of
    [batchSize] bytes, of the concatenation of [transform] of the items
    0..batchSize-1 of the input pair, and as target half the concatenation
    of the targets of these items; the same bytes are copied to the
    device.  The input pair holds all its items, and its targets are laid
    densely. *)
Theorem minibatch_delivered
    (count batchSize datumSize targetSize : Z)
    (readBufs decodeBufs : BufferPool.t) (device : Device.t)
    (s s' : sys) (r : Z) :
  let s0 := init count batchSize datumSize targetSize readBufs decodeBufs
              device in
  wf_config (obj s0) → pool_sized (obj s0) decodeBufs → reachable s0 s →
  poking s = false → mpc s = Some MCopy →
  manager_step r s = Some s' →
  ∃ inp, input s = Some inp ∧
    (∀ j, 0 ≤ j < _batchSize (obj s) → is_Some (Buffer.item inp.1 j)) ∧
    let delivered := BufferPool.slot (_out s') (BufferPool._writePos (_out s)) in
    let decoded :=
      mjoin ((λ j, transform (default [] (Buffer.item inp.1 j))
                             (_datumSize (obj s)))
             <$> seqZ 0 (_batchSize (obj s))) in
    let targets :=
      mjoin ((λ j, default [] (Buffer.item inp.2 j))
             <$> seqZ 0 (_batchSize (obj s))) in
    Buffer._data delivered.1
      = Matrix.transpose decoded (_batchSize (obj s)) (_datumSize (obj s)) ∧
    (targets_dense (obj s) inp.2 → Buffer._data delivered.2 = targets) ∧
    BufferPool._writePos (_out s')
      = (BufferPool._writePos (_out s) + 1) mod 2 ∧
    BufferPool.empty (_out s') = false ∧
    Device.calls (_device s')
      = Device.calls (_device s)
        ++ [Device.copyData (_bufferIndex (obj s))
              (Buffer._data delivered.1) (Buffer._size delivered.1);
            Device.copyLabels (_bufferIndex (obj s))
              (Buffer._data delivered.2) (Buffer._size delivered.2)].
Proof.
  intros s0 Hwf0 Hsz Hreach Hp Hm Hstep.
  destruct (init_invariants _ _ _ _ _ _ _ _ Hwf0 Hsz Hreach) as [Hb Hinv].
  pose proof (base_config _ Hb) as Hwf.
  pose proof Hwf as (HN & HB & Hds & Hts & _).
  unfold manager_step in Hstep. unfold mpc in Hm. rewrite Hm in Hstep.
  simpl in Hstep. simplify_eq.
  assert (Hin : is_Some (input s)).
  { destruct (join_copy _ Hinv Hp Hm 0%nat) as [_ Ht];
      [unfold workers; lia|].
    destruct Ht as (inp & ? & ? & ? & ? & _). eauto. }
  destruct Hin as [inp Hin]. exists inp. split; [done|].
  pose proof (pool_sized_slot _ _ (BufferPool._writePos (_out s))
                (base_out _ Hb)) as [Hld Hlt].
  fold (BufferPool.getForWrite (_out s)) in Hld, Hlt. fold (output s) in *.
  split.
  { intros j Hj.
    destruct (joined_rows s inp j Hb Hinv Hp Hm Hin Hj) as (item & -> & _).
    eauto. }
  assert (Hslot : BufferPool.slot (_out (produce_copy s))
                    (BufferPool._writePos (_out s))
                  = (Buffer.set_data
                       (Matrix.transpose (Buffer._data (output s).1)
                          (_batchSize (obj s)) (_datumSize (obj s)))
                       (output s).1, (output s).2)).
  { unfold produce_copy. simpl.
    change (BufferPool.slot (BufferPool.signalNonEmpty
              (BufferPool.advanceWritePos ?b)) ?k)
      with (BufferPool.slot b k).
    rewrite slot_set_slot. by rewrite bool_decide_eq_true_2. }
  intros delivered decoded targets.
  assert (Hdel : delivered
            = (Buffer.set_data
                 (Matrix.transpose (Buffer._data (output s).1)
                    (_batchSize (obj s)) (_datumSize (obj s)))
                 (output s).1, (output s).2)) by exact Hslot.
  clearbody delivered. subst delivered. simpl.
  assert (Hdata : Buffer._data (output s).1 = decoded).
  { subst decoded.
    rewrite <- (Z2Nat.id (_batchSize (obj s))) at 1 by lia.
    apply (rows_join _ (_datumSize (obj s))); [done|lia|].
    intros j Hj.
    destruct (joined_rows s inp j Hb Hinv Hp Hm Hin) as (item & -> & Hl);
      [lia|done]. }
  split; [by rewrite Hdata|]. split; [|split; [|split]].
  - intros Hdense. subst targets.
    rewrite <- (Z2Nat.id (_batchSize (obj s))) at 1 by lia.
    apply (rows_join _ (_targetSize (obj s))); [done|lia|].
    intros j Hj.
    destruct (joined_targets s inp j Hb Hinv Hp Hm Hin Hdense)
      as (item & -> & Hl); [lia|done].
  - unfold produce_copy. simpl. by rewrite writePos_set_slot.
  - unfold produce_copy. simpl. unfold BufferPool.set_slot.
    by destruct (BufferPool._writePos (_out s) =? 0).
  - unfold produce_copy, Device.do. simpl. by rewrite <- app_assoc.
Qed.

End Delivery.

Lemma example_copying_run :
  exec (H := identity_media)
       (example_dispatch ++ example_decode ++ [LManager 0]) example_init
  = example_copying.
Proof. vm_compute. reflexivity. Qed.

Lemma example_copying_step :
  (s ← example_copying; manager_step 0 s)
  = example_final.
Proof. vm_compute. reflexivity. Qed.

Lemma example_targets_dense :
  targets_dense (obj example_init) example_input.2.
Proof.
  intros j Hj. change (_batchSize (obj example_init)) with 4 in Hj.
  assert (j = 0 ∨ j = 1 ∨ j = 2 ∨ j = 3) as [->|[->|[->| ->]]] by lia;
    reflexivity.
Qed.

Lemma minibatch_delivered_witness :
  ∃ s s', example_copying = Some s ∧ example_final = Some s' ∧
    input s = Some example_input ∧
    Buffer._data (BufferPool.slot (_out s') 0).1
      = [x10; x20; x30; x40; x11; x21; x31; x41] ∧
    Buffer._data (BufferPool.slot (_out s') 0).2 = [xa0; xa1; xa2; xa3].
Proof.
  eexists _, _. split; [reflexivity|]. split; [reflexivity|].
  split; [reflexivity|].
  destruct (minibatch_delivered (H := identity_media) 2 4 2 1
              (BufferPool.new 8 4 false) (BufferPool.new 8 4 false)
              (Device.mk Device.CPU []) _ _ 0 example_wf example_sized
              (exec_reachable (H := identity_media) _ example_init _
                 example_copying_run) eq_refl eq_refl example_copying_step)
    as (inp & Hin & _ & Hd & Ht & _).
  injection Hin as <-.
  split; [exact Hd|]. exact (Ht example_targets_dense).
Defined.


(** ** The exit of [work] without a signal *)

Section Blocked.
Context `{Media}.

Local Ltac idle_goal := do 3 (split; [done|]); split; [|by left].

Lemma idle_other (s s' : sys) (id0 : nat) :
  _threads (obj s') !! id0 = _threads (obj s) !! id0 →
  _startSignaled (obj s') !! id0 = _startSignaled (obj s) !! id0 →
  idle s id0 → idle s' id0.
Proof. unfold idle. by intros -> ->. Qed.

(** A worker that moves to a program counter outside its work leaves
    every idle worker idle. *)
Lemma idle_moved (s s' : sys) (id id0 : nat) (pc' : worker_pc) :
  _threads (obj s') = <[id := pc']> (_threads (obj s)) →
  _startSignaled (obj s') = _startSignaled (obj s) →
  working pc' = false →
  idle s id0 → idle s' id0.
Proof.
  intros Hthr Hsg Hw (Hs & pc0 & Hp0 & Hw0). unfold idle.
  rewrite Hthr, Hsg. split; [done|].
  destruct (decide (id = id0)) as [->|Hne].
  - exists pc'. rewrite list_lookup_insert_eq; [done|].
    by eapply lookup_lt_Some.
  - exists pc0. by rewrite list_lookup_insert_ne.
Qed.

(** A step of worker [id]: the manager and [stop] do not move, idle
    workers stay idle, and [_endSignaled] changes only by the increment of
    a worker that was at work and is idle after it. *)
Lemma worker_step_idle (id : nat) (s s' : sys) :
  base_inv s → join_inv s → worker_step id s = Some s' →
  mpc s' = mpc s ∧ stopper s' = stopper s ∧
  _count (obj s') = _count (obj s) ∧
  (∀ id0, idle s id0 → idle s' id0) ∧
  (_endSignaled (obj s') = _endSignaled (obj s) ∨
   _endSignaled (obj s') = _endSignaled (obj s) + 1 ∧
   ¬ idle s id ∧ idle s' id).
Proof.
  intros Hb Hinv Hstep. unfold worker_step in Hstep.
  destruct (_threads (obj s) !! id) as [pc|] eqn:Hpc; simpl in Hstep; [|done].
  assert (Hbusy : working pc = true → ∀ id0, idle s id0 → id0 ≠ id).
  { intros Hw id0 (_ & pc0 & Hp0 & Hw0) ->. congruence. }
  destruct pc; simplify_eq.
  - (* WInit *)
    idle_goal.
    intros id0. by apply (idle_moved _ _ id id0 WRun).
  - (* WRun *)
    unfold run_loop. destruct (_done (obj s)).
    + idle_goal.
      intros id0. by apply (idle_moved _ _ id id0 WStopped).
    + idle_goal.
      intros id0. by apply (idle_moved _ _ id id0 WTop).
  - (* WTop *)
    unfold work_top in Hstep.
    destruct (_startSignaled (obj s) !! id) as [v|] eqn:Hv;
      simpl in Hstep; [|done].
    destruct (Z.eqb_spec v 0) as [->|Hv0].
    + simplify_eq. idle_goal.
      intros id0. by apply (idle_moved _ _ id id0 WWaiting).
    + destruct (_startInds (obj s) !! id); simpl in Hstep; [|done].
      destruct (_dataOffsets (obj s) !! id); simpl in Hstep; [|done].
      simplify_eq. idle_goal.
      intros id0 Hid0. assert (id0 ≠ id).
      { intros ->. destruct Hid0 as [Hs _]. congruence. }
      apply (idle_other s); simpl; [| |done];
        by rewrite list_lookup_insert_ne.
  - (* WWaiting *)
    unfold work_wake. destruct (_done (obj s)).
    + idle_goal.
      intros id0. by apply (idle_moved _ _ id id0 WRun).
    + idle_goal.
      intros id0. by apply (idle_moved _ _ id id0 WTop).
  - (* WData *)
    destruct (_endInds (obj s) !! id) as [e|] eqn:He; simpl in Hstep; [|done].
    destruct (i <? e).
    + unfold work_item in Hstep.
      destruct (_inputBuf (obj s)) as [k|] eqn:Hk; simpl in Hstep; [|done].
      destruct (Buffer.getItem _ i) as [[off len]|] eqn:Hget.
      * destruct (load _ off len) as [item|] eqn:Hload;
          simpl in Hstep; [|done].
        destruct (store _ _ _) as [d'|] eqn:Hstore; simpl in Hstep; [|done].
        simplify_eq. idle_goal.
        intros id0 Hid0. apply (idle_other s); simpl; [|done|done].
        rewrite list_lookup_insert_ne; [done|].
        intros ->. by apply (Hbusy eq_refl id0).
      * simplify_eq. idle_goal.
        intros id0. by apply (idle_moved _ _ id id0 WRun).
    + unfold work_targets in Hstep.
      destruct (_startInds (obj s) !! id); simpl in Hstep; [|done].
      destruct (_targetOffsets (obj s) !! id); simpl in Hstep; [|done].
      destruct (_targetSpans (obj s) !! id); simpl in Hstep; [|done].
      destruct (_inputBuf (obj s)) as [k|] eqn:Hk; simpl in Hstep; [|done].
      destruct (Buffer.getItem _ _) as [[srcOff len]|] eqn:Hget;
        simpl in Hstep; [|done].
      destruct (memcpy _ _ _ _ _) as [d'|] eqn:Hcpy; simpl in Hstep; [|done].
      simplify_eq. idle_goal.
      intros id0 Hid0. apply (idle_other s); simpl; [|done|done].
      rewrite list_lookup_insert_ne; [done|].
      intros ->. by apply (Hbusy eq_refl id0).
  - (* WSignal *)
    unfold work_signal. do 3 (split; [done|]). split.
    + intros id0. by apply (idle_moved _ _ id id0 WRun).
    + right. split; [done|]. split.
      * intros Hid. by apply (Hbusy eq_refl id).
      * destruct (join_signal _ Hinv _ Hpc) as (_ & Hs & _).
        split; [done|]. exists WRun. simpl.
        rewrite list_lookup_insert_eq; [done|]. by eapply lookup_lt_Some.
Qed.

Lemma join_blocked_count (s : sys) :
  join_blocked s → _endSignaled (obj s) < _count (obj s).
Proof.
  intros (_ & fin & lost & Hnd & -> & Hall).
  pose proof (signalled_le (lost :: fin) (workers s) Hnd) as Hle.
  unfold workers in Hle. simpl in Hle.
  assert (S (length fin) ≤ Z.to_nat (_count (obj s)))%nat; [|lia].
  apply Hle. intros id Hin. by destruct (Hall id Hin).
Qed.

(** [stop] does not leave its last loop again. *)
Lemma poking_step (l : label) (s s' : sys) :
  step l s = Some s' → poking s' = false → poking s = false.
Proof.
  intros Hstep Hp'. destruct l as [id|r|filled| |]; simpl in Hstep.
  - unfold worker_step, work_top, work_item, work_targets, run_loop,
      work_wake, work_signal in Hstep.
    repeat (case_match; simplify_option_eq); done.
  - unfold manager_step, manage_init, manage_loop, consume_top,
      consume_wake, produce_dispatch, produce_join, produce_copy,
      consume_advance in Hstep.
    repeat (case_match; simplify_option_eq); done.
  - unfold reader_step in Hstep. by case_match; simplify_eq.
  - unfold consumer_step in Hstep. by case_match; simplify_eq.
  - unfold stop_step in Hstep. unfold poking in *.
    destruct (stopper s) eqn:Hsp; try done;
      repeat case_match; simplify_eq; simpl in *; congruence.
Qed.

(** Once a worker has left a batch without its signal, no step of any
    thread lets the manager out of the join, [stop] apart. *)
Lemma join_blocked_step (l : label) (s s' : sys) :
  base_inv s → join_inv s → join_blocked s →
  step l s = Some s' → poking s' = false → join_blocked s'.
Proof.
  intros Hb Hinv Hbl Hstep Hp'.
  pose proof (join_blocked_count s Hbl) as Hlt.
  destruct Hbl as (Hm & fin & lost & Hnd & Hend & Hall).
  destruct l as [id|r|filled| |]; simpl in Hstep.
  - destruct (worker_step_idle id s s' Hb Hinv Hstep)
      as (Hm' & _ & Hc & Hidle & Hcases).
    assert (Hw : workers s' = workers s) by (unfold workers; by rewrite Hc).
    split; [congruence|]. destruct Hcases as [He|(He & Hbusy & Hid)].
    + exists fin, lost. split; [done|]. split; [congruence|].
      intros id0 Hin. rewrite Hw. destruct (Hall id0 Hin).
      split; [done|]. by apply Hidle.
    + assert (Hnin : id ∉ lost :: fin).
      { intros Hin. by destruct (Hall id Hin). }
      apply not_elem_of_cons in Hnin as [Hne Hnin].
      apply list.NoDup_cons in Hnd as [Hl Hnd].
      exists (id :: fin), lost. split.
      { apply list.NoDup_cons. split.
        - intros [->|?]%elem_of_cons; done.
        - by apply list.NoDup_cons. }
      split; [rewrite He, Hend; simpl; lia|].
      intros id0 Hin. rewrite Hw.
      assert (id0 = id ∨ id0 ∈ lost :: fin) as [->|Hin'].
      { apply elem_of_cons in Hin as [->|Hin];
          [right; by apply elem_of_cons; left|].
        apply elem_of_cons in Hin as [->|Hin]; [by left|].
        right. apply elem_of_cons. by right. }
      * split; [|done].
        assert (is_Some (_threads (obj s) !! id)) as [pc0 Hpc0].
        { unfold worker_step in Hstep.
          destruct (_threads (obj s) !! id); [by eexists|done]. }
        by eapply worker_lt.
      * destruct (Hall id0 Hin'). split; [done|]. by apply Hidle.
  - unfold manager_step in Hstep. unfold mpc in Hm. rewrite Hm in Hstep.
    simpl in Hstep. unfold produce_join in Hstep.
    by destruct (Z.ltb_spec (_endSignaled (obj s)) (_count (obj s)));
      [|lia].
  - unfold reader_step, holds_in in Hstep. unfold mpc in Hm.
    by rewrite Hm in Hstep.
  - unfold consumer_step, holds_out in Hstep. unfold mpc in Hm.
    by rewrite Hm in Hstep.
  - assert (Hp : poking s = false) by by eapply (poking_step LStop).
    unfold stop_step in Hstep. unfold poking in Hp.
    destruct (stopper s) eqn:Hsp; try done.
    + simplify_eq. split; [done|]. by exists fin, lost.
    + destruct (stopped (obj s)); simplify_eq.
      split; [done|]. by exists fin, lost.
Qed.

Lemma join_blocked_reachable (s s' : sys) :
  base_inv s → join_inv s → join_blocked s →
  reachable s s' → poking s' = false →
  base_inv s' ∧ join_inv s' ∧ join_blocked s'.
Proof.
  intros Hb Hinv Hbl. induction 1 as [|s1 l s2 _ IH Hstep]; [done|].
  intros Hp. destruct IH as (Hb1 & Hinv1 & Hbl1); [by eapply poking_step|].
  split; [by eapply base_inv_step|].
  split; [by eapply join_inv_step|by eapply join_blocked_step].
Qed.

End Blocked.


(** C2: the exit of line 135, taken when [getItem] returns a null item,
    leaves [work] without the increment of [_endSignaled].  The worker
    is back in the loop of [run] with [_endSignaled] as it was, and from
    then on, until [stop] counts for the workers itself, the manager
    stays in its wait with [_endSignaled] below the worker count: the
    join condition of that batch is never reached. *)
Theorem early_return_skips_signal `{Media}
    (count batchSize datumSize targetSize : Z)
    (readBufs decodeBufs : BufferPool.t) (device : Device.t) (s : sys)
    (id : nat) (i d o : Z) (inp : BufferPair) :
  let s0 := init count batchSize datumSize targetSize readBufs decodeBufs
              device in
  wf_config (obj s0) → pool_sized (obj s0) decodeBufs → reachable s0 s →
  _threads (obj s) !! id = Some (WData i d o) → i < endOf (obj s) id →
  input s = Some inp → Buffer.getItem inp.1 i = None →
  ∃ s1, worker_step id s = Some s1 ∧
    _threads (obj s1) !! id = Some WRun ∧
    _endSignaled (obj s1) = _endSignaled (obj s) ∧
    ∀ s2, reachable s1 s2 → poking s2 = false →
      mpc s2 = Some MJoin ∧
      _endSignaled (obj s2) < _count (obj s2) ∧
      ∀ r, manager_step r s2 = None.
Proof.
  intros s0 Hwf Hsz Hreach Hpc Hi Hin Hget.
  destruct (init_invariants _ _ _ _ _ _ _ _ Hwf Hsz Hreach) as [Hb Hinv].
  destruct (base_partition _ Hb _ _ Hpc ltac:(done)) as (_ & He & _).
  destruct (working_joining s id _ Hb Hinv Hpc eq_refl) as (Hp & Hm & Hsg).
  unfold input in Hin.
  destruct (_inputBuf (obj s)) as [k|] eqn:Hk; simpl in Hin; [|done].
  injection Hin as <-.
  assert (Hlt : (id < length (_threads (obj s)))%nat)
    by (by eapply lookup_lt_Some).
  assert (Hstep : worker_step id s = Some (upd (set_pc id WRun) s)).
  { unfold worker_step. rewrite Hpc. simpl. rewrite He. simpl.
    destruct (Z.ltb_spec i (endOf (obj s) id)); [|lia].
    unfold work_item. rewrite Hk. simpl. by rewrite Hget. }
  exists (upd (set_pc id WRun) s). split; [done|].
  split; [simpl; by rewrite list_lookup_insert_eq|]. split; [done|].
  set (s1 := upd (set_pc id WRun) s) in *.
  assert (Hb1 : base_inv s1)
    by exact (base_inv_step (LWorker id) s s1 Hb Hstep).
  assert (Hinv1 : join_inv s1)
    by exact (join_inv_step (LWorker id) s s1 Hb Hinv Hstep).
  assert (Hbl : join_blocked s1).
  { split; [done|].
    destruct (join_fin _ Hinv Hp Hm) as (fin & Hnd & Hlen & Hall).
    exists fin, id. split.
    { apply list.NoDup_cons. split; [|done]. intros Hfin.
      destruct (Hall id Hfin) as (_ & (_ & pc & Hpc' & Hw) & _).
      rewrite Hpc in Hpc'. by injection Hpc' as <-. }
    split; [done|]. intros id0 [->|Hin0]%elem_of_cons.
    - split; [exact (worker_lt s id _ Hb Hpc)|]. split; [done|].
      exists WRun. simpl. by rewrite list_lookup_insert_eq.
    - destruct (Hall id0 Hin0) as (? & ? & _). split; [done|].
      by apply (idle_moved s s1 id id0 WRun). }
  intros s2 Hreach2 Hp2.
  destruct (join_blocked_reachable s1 s2 Hb1 Hinv1 Hbl Hreach2 Hp2)
    as (_ & _ & Hbl2).
  pose proof (join_blocked_count s2 Hbl2) as Hc2.
  destruct Hbl2 as (Hm2 & _). split; [done|]. split; [done|].
  intros r. unfold manager_step. unfold mpc in Hm2. rewrite Hm2. simpl.
  unfold produce_join.
  by destruct (Z.ltb_spec (_endSignaled (obj s2)) (_count (obj s2)));
    [|lia].
Qed.

Lemma example_short_run :
  exec (H := identity_media) example_short_schedule example_init
  = example_short.
Proof. vm_compute. reflexivity. Qed.

Lemma early_return_skips_signal_witness :
  ∃ s, example_short = Some s ∧
    _endSignaled (obj s) = 1 ∧
    ∃ s1, worker_step (H := identity_media) 1 s = Some s1 ∧
      _threads (obj s1) !! 1%nat = Some WRun ∧
      _endSignaled (obj s1) = _endSignaled (obj s) ∧
      manager_step 0 s1 = None.
Proof.
  eexists. split; [reflexivity|]. split; [reflexivity|].
  destruct (early_return_skips_signal (H := identity_media) 2 4 2 1
              (BufferPool.new 8 4 false) (BufferPool.new 8 4 false)
              (Device.mk Device.CPU []) _ 1%nat 3 6 0 example_short_input
              example_wf example_sized
              (exec_reachable (H := identity_media) _ example_init _
                 example_short_run) eq_refl eq_refl eq_refl eq_refl)
    as (s1 & Hstep & Hpc & Hend & Hall).
  assert (Hp : poking s1 = false).
  { pose proof Hstep as E. vm_compute in E. injection E as <-. reflexivity. }
  exists s1. split; [exact Hstep|]. split; [exact Hpc|].
  split; [exact Hend|].
  destruct (Hall s1 (reachable_init _) Hp) as (_ & _ & Hnone).
  apply Hnone.
Defined.


(** * Further properties of the pipeline *)

(** ** The workers and the manager *)

(** A worker is inside its work on a batch (between the decrement of
    its start signal and the increment of [_endSignaled]) only while the
    manager waits in the join of [produce] and [stop] has not begun to
    count for the workers; its start signal is down, the slot it writes
    is the slot at the write cursor of the decode pool, and its
    destination pointer [dataBuf] stands at row [i] of that slot. *)
Theorem work_only_during_join `{Media}
    (count batchSize datumSize targetSize : Z)
    (readBufs decodeBufs : BufferPool.t) (device : Device.t) (s : sys)
    (id : nat) (pc : worker_pc) :
  let s0 := init count batchSize datumSize targetSize readBufs decodeBufs
              device in
  wf_config (obj s0) → pool_sized (obj s0) decodeBufs → reachable s0 s →
  _threads (obj s) !! id = Some pc → working pc = true →
  mpc s = Some MJoin ∧ poking s = false ∧
  _startSignaled (obj s) !! id = Some 0 ∧
  ∀ i d o, pc = WData i d o →
    o = BufferPool._writePos (_out s) ∧ d = i * _datumSize (obj s) ∧
    startOf (obj s) id ≤ i ≤ endOf (obj s) id.
Proof.
  intros s0 Hwf Hsz Hreach Hpc Hw.
  destruct (init_invariants _ _ _ _ _ _ _ _ Hwf Hsz Hreach) as [Hb Hinv].
  destruct (working_joining s id pc Hb Hinv Hpc Hw) as (Hp & Hm & Hs).
  split; [done|]. split; [done|]. split; [done|].
  intros i d o ->.
  by destruct (join_data _ Hinv _ _ _ _ Hpc) as (_ & ? & ? & ? & _).
Qed.

Lemma work_only_during_join_witness :
  ∃ s, example_decoding = Some s ∧
    _threads (obj s) !! 1%nat = Some (WData 3 6 0) ∧
    mpc s = Some MJoin ∧ poking s = false.
Proof.
  eexists. split; [reflexivity|]. split; [reflexivity|].
  destruct (work_only_during_join (H := identity_media) 2 4 2 1
              (BufferPool.new 8 4 false) (BufferPool.new 8 4 false)
              (Device.mk Device.CPU []) _ 1%nat (WData 3 6 0)
              example_wf example_sized
              (exec_reachable (H := identity_media) _ example_init _
                 example_decoding_run) eq_refl eq_refl)
    as (Hm & Hp & _).
  split; [exact Hm|exact Hp].
Defined.





(** ** The item ranges of [run] *)

Lemma sum_full_ranges (p : t) (n : nat) :
  (n < Z.to_nat (_count p))%nat →
  foldr Z.add 0 (countOf p <$> seq 0 n) = startOf p n.
Proof.
  intros Hn. induction n as [|n IH].
  - unfold startOf, startInd. simpl. lia.
  - rewrite seq_S, fmap_app, foldr_app. simpl.
    assert (E : ∀ (l : list Z) (a : Z),
              foldr Z.add a l = foldr Z.add 0 l + a).
    { induction l as [|x l IHl]; intros a; simpl; [lia|].
      rewrite IHl. lia. }
    rewrite E, IH by lia.
    unfold countOf, startOf, itemCount, startInd.
    destruct (Z.eqb_spec (Z.of_nat n) (_count p - 1)); lia.
Qed.

(** The ranges [run] computes: every worker but the last has
    [_itemsPerThread] items, the last has between 1 and
    [_itemsPerThread], and together they have [_batchSize] items. *)
Theorem run_item_counts (p : t) :
  wf_config p →
  (∀ id : nat, Z.of_nat id < _count p - 1 →
     countOf p id = _itemsPerThread p) ∧
  (∀ id : nat, Z.of_nat id = _count p - 1 →
     1 ≤ countOf p id ≤ _itemsPerThread p) ∧
  total_items p = _batchSize p.
Proof.
  intros (HN & HB & Hd & Ht & Hi & Hc1 & Hc2). split; [|split].
  - intros id Hid. unfold countOf, itemCount.
    destruct (Z.eqb_spec (Z.of_nat id) (_count p - 1)); lia.
  - intros id Hid. unfold countOf, itemCount. rewrite Hid, Z.eqb_refl. nia.
  - unfold total_items.
    assert (E : Z.to_nat (_count p) = S (Z.to_nat (_count p - 1))) by lia.
    rewrite E, seq_S, fmap_app, foldr_app. simpl.
    assert (E' : ∀ (l : list Z) (a : Z),
              foldr Z.add a l = foldr Z.add 0 l + a).
    { induction l as [|x l IHl]; intros a; simpl; [lia|].
      rewrite IHl. lia. }
    rewrite E', sum_full_ranges by lia.
    unfold countOf, startOf, itemCount, startInd.
    rewrite Z2Nat.id by lia. rewrite Z.eqb_refl. lia.
Qed.

Lemma run_item_counts_witness :
  total_items (obj example_init) = 4 ∧
  countOf (obj example_init) 1 = 2.
Proof.
  destruct (run_item_counts (obj example_init) example_wf) as (_ & _ & Hs).
  split; [exact Hs|reflexivity].
Defined.


(** ** [Loader::start], its other outcomes *)





(** After a [start] that returned -1 on a freshly constructed loader, no
    thread exists, and neither [next] ever returns: when one of the first
    three allocations failed, [_decodeBufs] is null and the call
    dereferences it; when the last one failed, the decode pool is there
    and empty, the caller goes to sleep in [waitForNonEmpty], and is
    asleep again whenever it is woken up. *)
Theorem next_after_failed_start (numCores : Z) (alloc_ok : nat → bool)
    (batchSize datumSize targetSize : Z) (device : Device.t) (k : nat) :
  1 ≤ batchSize → 1 ≤ numCores → first_failure alloc_ok = Some k →
  ∃ l',
    Loader.start numCores alloc_ok
      (Loader.new batchSize datumSize targetSize device) = (Val (-1), l') ∧
    thread_count l' = 0%nat ∧
    let stuck : res unit := if (k <? 3)%nat then Undef else Blocked in
    (Loader.next l').1 = stuck ∧
    (Loader.wait_nonEmpty (Loader.next l').2).1 = stuck ∧
    ∀ dataBuf targetsBuf,
      (Loader.next2 dataBuf targetsBuf l').1
      = if (k <? 3)%nat then Undef else Blocked.
Proof.
  intros HB HH. unfold first_failure. simpl.
  destruct (alloc_ok 0%nat) eqn:A0; simpl.
  2:{ intros [= <-]. eexists. unfold Loader.start. run_M. rewrite A0. run_M.
      split; [reflexivity|]. done. }
  destruct (alloc_ok 1%nat) eqn:A1; simpl.
  2:{ intros [= <-]. eexists. unfold Loader.start. run_M.
      rewrite A0, A1. run_M. split; [reflexivity|]. done. }
  destruct (alloc_ok 2%nat) eqn:A2; simpl.
  2:{ intros [= <-]. eexists. unfold Loader.start. run_M.
      rewrite A0, A1, A2. run_M. split; [reflexivity|]. done. }
  destruct (alloc_ok 3%nat) eqn:A3; simpl; [done|].
  intros [= <-]. eexists. unfold Loader.start. run_M.
  rewrite A0, A1, A2. run_M.
  destruct (Z.eqb_spec numCores 0) as [|_]; [lia|]. run_M.
  rewrite (quot_ceil _ _ HB HH).
  destruct (ceil_div_bounds _ _ HB HH) as [_ Ht].
  destruct (Z.eqb_spec (ceil_div batchSize numCores) 0) as [|_]; [lia|].
  run_M. rewrite A3. run_M.
  split; [reflexivity|]. done.
Qed.

Lemma next_after_failed_start_witness :
  ∃ l',
    Loader.start 4 (λ k, negb (k =? 3)%nat)
      (Loader.new 4 2 1 (Device.mk Device.CPU [])) = (Val (-1), l') ∧
    (Loader.next l').1 = Blocked.
Proof.
  destruct (next_after_failed_start 4 (λ k, negb (k =? 3)%nat) 4 2 1
              (Device.mk Device.CPU []) 3)
    as (l' & E & _ & Hn & _); [lia | lia | reflexivity |].
  exists l'. split; [exact E|exact Hn].
Defined.




(** ** [ReadThread::produce], its other outcomes *)

(** When the read pool is full, [produce] goes to sleep with nothing
    changed and the reader not called.  Otherwise, whatever [Reader::read]
    returns other than -1 counts as success: [produce] returns, the pair
    the reader filled is the slot at the old write cursor and the other
    slot is as it was, the write cursor has advanced by one modulo 2, the
    pool is not empty, [nonEmpty] has been signalled once, and [_done] is
    as before.  This is the step of the reader in the running system
    when the manager does not hold the mutex of the read pool. *)
Theorem produce_fills_slot {R : Type} `{Reader R}
    (e : ReadThread.env R) (result : Z) (reader' : R) (pair' : BufferPair) :
  read (ReadThread._reader e) (BufferPool.getForWrite (ReadThread._out e))
    = (result, reader', pair') →
  result ≠ -1 →
  let pool := ReadThread._out e in
  let w := BufferPool._writePos pool in
  (BufferPool.full pool = true → ReadThread.produce e = (Blocked, e)) ∧
  (BufferPool.full pool = false →
   ∃ pool',
     ReadThread.produce e
       = (Val tt, ReadThread.mkenv (ReadThread.self e) pool' reader') ∧
     BufferPool.slot pool' w = pair' ∧
     (∀ k, (k =? 0) ≠ (w =? 0) →
           BufferPool.slot pool' k = BufferPool.slot pool k) ∧
     BufferPool._writePos pool' = (w + 1) mod 2 ∧
     BufferPool._readPos pool' = BufferPool._readPos pool ∧
     BufferPool.empty pool' = false ∧
     BufferPool._nonEmpty pool' = S (BufferPool._nonEmpty pool) ∧
     BufferPool._nonFull pool' = BufferPool._nonFull pool ∧
     ∀ s, _in s = pool → holds_in (obj s) = false →
          reader_step pair' s = Some (set_in pool' s)).
Proof.
  intros Hread Hres pool w. subst pool w. split.
  - intros Hfull. unfold ReadThread.produce. run_M. by rewrite Hfull.
  - intros Hfull. eexists. unfold ReadThread.produce. run_M.
    rewrite Hfull, Hread. run_M.
    destruct (Z.eqb_spec result (-1)) as [|_]; [done|]. run_M.
    split; [reflexivity|].
    split.
    { unfold BufferPool.slot, BufferPool.set_slot.
      by destruct (BufferPool._writePos (ReadThread._out e) =? 0). }
    split.
    { intros k Hk. unfold BufferPool.slot, BufferPool.set_slot.
      by destruct (BufferPool._writePos (ReadThread._out e) =? 0),
           (k =? 0). }
    simpl. rewrite writePos_set_slot.
    unfold BufferPool.set_slot.
    destruct (BufferPool._writePos (ReadThread._out e) =? 0) eqn:Hw;
      simpl; (do 5 (split; [done|]));
      intros s Hin Hh; unfold reader_step; rewrite Hh, Hin;
      unfold BufferPool.full in *; rewrite Hfull; simpl;
      unfold BufferPool.set_slot; by rewrite Hw.
Qed.

Lemma produce_fills_slot_witness :
  ∃ pool',
    ReadThread.produce (H := filling_reader example_input)
        (ReadThread.mkenv ReadThread.new (BufferPool.new 8 4 false) tt)
      = (Val tt, ReadThread.mkenv ReadThread.new pool' tt) ∧
    BufferPool.slot pool' 0 = example_input ∧
    BufferPool._writePos pool' = 1.
Proof.
  destruct (produce_fills_slot (H := filling_reader example_input)
              (ReadThread.mkenv ReadThread.new (BufferPool.new 8 4 false) tt)
              0 tt example_input eq_refl) as [_ Hok]; [discriminate|].
  destruct (Hok eq_refl) as (pool' & E & Hs & _ & Hw & _).
  exists pool'. split; [exact E|]. split; [exact Hs|exact Hw].
Defined.

(** ** [Loader::drain] *)

(** [drain] never blocks and never throws.  On an empty decode pool it
    changes nothing; otherwise it advances the read cursor once and
    signals [nonFull] once, which leaves the pool not full, the slots and
    the write cursor as they were, and every other member of the loader
    untouched: it releases a minibatch as [next()] does, without waiting
    for the next one. *)
Theorem drain_releases_one (l : Loader.t) (pool : BufferPool.t) :
  Loader._decodeBufs l = Some pool →
  ∃ l', Loader.drain l = (Val tt, l') ∧
    (BufferPool.empty pool = true → l' = l) ∧
    (BufferPool.empty pool = false →
     l' = Loader.set_decodeBufs
            (Some (BufferPool.signalNonFull (BufferPool.advanceReadPos pool)))
            l ∧
     (Loader._first l = false → (Loader.next l).2 = l') ∧
     ∃ pool', Loader._decodeBufs l' = Some pool' ∧
       BufferPool._readPos pool' = (BufferPool._readPos pool + 1) mod 2 ∧
       BufferPool._writePos pool' = BufferPool._writePos pool ∧
       BufferPool._nonFull pool' = S (BufferPool._nonFull pool) ∧
       BufferPool.full pool' = false ∧
       ∀ k, BufferPool.slot pool' k = BufferPool.slot pool k).
Proof.
  intros Hp. unfold Loader.drain. run_M. rewrite Hp. run_M.
  destruct (BufferPool.empty pool) eqn:He; run_M.
  - eexists. split; [reflexivity|]. split; [done|]. done.
  - eexists. split; [reflexivity|]. split; [done|]. intros _.
    split; [done|]. split.
    { intros Hf. unfold Loader.next, Loader.wait_nonEmpty. run_M.
      rewrite Hp, Hf. run_M.
      by case_match. }
    eexists. split; [reflexivity|]. done.
Qed.

Lemma drain_releases_one_witness :
  ∃ l', Loader.drain
          (Loader.mk false 4 2 1 None
             (Some (BufferPool.advanceWritePos (BufferPool.new 8 4 false)))
             None None (Device.mk Device.CPU []))
        = (Val tt, l') ∧
    ∃ pool', Loader._decodeBufs l' = Some pool' ∧
      BufferPool._readPos pool' = 1 ∧ BufferPool.empty pool' = true.
Proof.
  destruct (drain_releases_one
              (Loader.mk false 4 2 1 None
                 (Some (BufferPool.advanceWritePos (BufferPool.new 8 4 false)))
                 None None (Device.mk Device.CPU []))
              _ eq_refl) as (l' & E & _ & Hne).
  exists l'. split; [exact E|].
  destruct (Hne eq_refl) as (-> & _). eexists. split; [reflexivity|].
  split; reflexivity.
Defined.


(** ** The shutdown protocol *)

Section Control.
Context `{Media}.

(** What a step of a worker changes of the members the protocol reads. *)
Lemma worker_step_frame (id : nat) (s s' : sys) :
  worker_step id s = Some s' →
  stopper s' = stopper s ∧ _in s' = _in s ∧ _device s' = _device s ∧
  _manager (obj s') = _manager (obj s) ∧
  _done (obj s') = _done (obj s) ∧
  _stopManager (obj s') = _stopManager (obj s) ∧
  _managerStopped (obj s') = _managerStopped (obj s) ∧
  _inputBuf (obj s') = _inputBuf (obj s) ∧
  _bufferIndex (obj s') = _bufferIndex (obj s) ∧
  ∃ pc pc', _threads (obj s) !! id = Some pc ∧
    _threads (obj s') = <[id := pc']> (_threads (obj s)) ∧
    (pc' = WStopped → _done (obj s) = true).
Proof.
  intros Hstep. unfold worker_step in Hstep.
  destruct (_threads (obj s) !! id) as [pc|] eqn:Hpc; simpl in Hstep; [|done].
  unfold work_top, work_item, work_targets, run_loop, work_wake,
    work_signal in Hstep.
  do 9 (split; [by repeat (case_match; simplify_option_eq)|]).
  exists pc.
  repeat (case_match; simplify_option_eq); eexists; split; try done;
    (split; [reflexivity|done]).
Qed.

Lemma ctl_inv_step (l : label) (s s' : sys) :
  ctl_inv s → step l s = Some s' → ctl_inv s'.
Proof.
  intros [Hd Hst Hpk Hm Hmf Hr Hin] Hstep.
  destruct l as [id|r|filled| |]; simpl in Hstep.
  - destruct (worker_step_frame id s s' Hstep)
      as (E1 & E2 & E3 & E4 & E5 & E6 & E7 & E8 & _ & pc & pc' & Hpc & Ht & Hw).
    split; unfold poking, mpc, holds_in in *; rewrite ?E1, ?E2, ?E4, ?E5, ?E6,
      ?E7, ?E8; try done.
    intros id0. rewrite Ht. destruct (decide (id = id0)) as [->|Hne].
    + rewrite list_lookup_insert_eq by (by eapply lookup_lt_Some).
      intros [= ->]. by apply Hw.
    + rewrite list_lookup_insert_ne by done. apply Hst.
  - unfold manager_step in Hstep.
    destruct (_manager (obj s)) as [pc|] eqn:Hpc; simpl in Hstep; [|done].
    unfold mpc, holds_in in *. rewrite Hpc in *. destruct Hm as [Hm1 Hm2].
    destruct pc; simplify_eq.
    + unfold manage_init. destruct (r =? 0);
        split; unfold poking, mpc, holds_in; simpl; naive_solver.
    + unfold manage_loop. destruct (_stopManager (obj s)) eqn:Hsm;
        split; unfold poking, mpc, holds_in; simpl; naive_solver.
    + unfold consume_top. destruct (BufferPool.empty (_in s));
        split; unfold poking, mpc, holds_in; simpl; naive_solver.
    + unfold consume_wake. destruct (_stopManager (obj s)) eqn:Hsm;
        split; unfold poking, mpc, holds_in; simpl; naive_solver.
    + unfold produce_dispatch in Hstep.
      destruct (BufferPool.full (_out s)); simplify_eq.
      split; unfold poking, mpc, holds_in; simpl; naive_solver.
    + unfold produce_join in Hstep.
      destruct (_endSignaled (obj s) <? _count (obj s)); simplify_eq.
      split; unfold poking, mpc, holds_in; simpl; naive_solver.
    + unfold produce_copy.
      split; unfold poking, mpc, holds_in; simpl; naive_solver.
    + unfold consume_advance.
      split; unfold poking, mpc, holds_in; simpl; naive_solver.
  - unfold reader_step in Hstep.
    destruct (holds_in (obj s)) eqn:Hh; simpl in Hstep; [done|].
    destruct (BufferPool.full (_in s)); simplify_eq.
    split; try done. simpl. by rewrite Hh.
  - unfold consumer_step in Hstep.
    destruct (holds_out (obj s)); by simplify_eq.
  - unfold stop_step in Hstep. destruct Hm as [Hm1 Hm2].
    destruct (stopper s) eqn:Hsp.
    + simplify_eq.
      split; unfold poking, mpc, holds_in in *; simpl; rewrite ?Hsp in *;
        naive_solver.
    + destruct (stopped (obj s)); simplify_eq;
        split; unfold poking, mpc, holds_in in *; simpl; rewrite ?Hsp in *;
        naive_solver.
    + destruct (_managerStopped (obj s)) eqn:Hms; simplify_eq;
        split; unfold poking, mpc, holds_in in *; simpl; rewrite ?Hsp in *;
        naive_solver.
    + done.
Qed.

Lemma ctl_inv_init (count batchSize datumSize targetSize : Z)
    (readBufs decodeBufs : BufferPool.t) (device : Device.t) :
  ctl_inv (init count batchSize datumSize targetSize readBufs decodeBufs
             device).
Proof.
  split; try done.
  intros id Hl. simpl in Hl. by apply lookup_replicate in Hl as [? _].
Qed.

Lemma ctl_inv_reachable (s0 s : sys) :
  ctl_inv s0 → reachable s0 s → ctl_inv s.
Proof.
  intros H0. induction 1 as [|s l s' _ IH Hstep]; [done|].
  by eapply ctl_inv_step.
Qed.

End Control.


(** All three invariants hold in the pipeline [Loader::start] sets up. *)
Lemma pipeline_invariants `{Media} (count batchSize datumSize targetSize : Z)
    (readBufs decodeBufs : BufferPool.t) (device : Device.t) (s : sys) :
  let s0 := init count batchSize datumSize targetSize readBufs decodeBufs
              device in
  wf_config (obj s0) → pool_sized (obj s0) decodeBufs → reachable s0 s →
  base_inv s ∧ join_inv s ∧ ctl_inv s.
Proof.
  intros s0 Hwf Hsz Hreach.
  destruct (init_invariants _ _ _ _ _ _ _ _ Hwf Hsz Hreach) as [Hb Hinv].
  split; [done|]. split; [done|].
  apply (ctl_inv_reachable s0); [apply ctl_inv_init|done].
Qed.

(** [stop] sets [_done] first; it sets [_stopManager] and begins to
    count for the workers only when every worker has returned from
    [run]; and when it has returned, the manager has returned from
    [manage] too: no thread of the pool takes another step, so the
    [delete] that follows [stop] in [Loader::stop] meets no running
    thread. *)
Theorem stop_returns_after_threads `{Media}
    (count batchSize datumSize targetSize : Z)
    (readBufs decodeBufs : BufferPool.t) (device : Device.t) (s : sys) :
  let s0 := init count batchSize datumSize targetSize readBufs decodeBufs
              device in
  wf_config (obj s0) → pool_sized (obj s0) decodeBufs → reachable s0 s →
  (stopper s ≠ SIdle → _done (obj s) = true) ∧
  (poking s = true →
   _stopManager (obj s) = true ∧
   ∀ id pc, _threads (obj s) !! id = Some pc → pc = WStopped) ∧
  (stopper s = SDone →
   mpc s = Some MStopped ∧ _managerStopped (obj s) = true ∧
   (∀ id, worker_step id s = None) ∧ (∀ r, manager_step r s = None) ∧
   stop_step s = None).
Proof.
  intros s0 Hwf Hsz Hreach.
  destruct (pipeline_invariants _ _ _ _ _ _ _ _ Hwf Hsz Hreach)
    as (Hb & _ & Hc).
  split; [apply (ctl_done _ Hc)|]. split.
  - intros Hp. split; [by apply (ctl_poking _ Hc)|].
    by apply (base_poking _ Hb).
  - intros Hsp. pose proof (ctl_returned _ Hc Hsp) as Hms.
    pose proof (proj1 (ctl_manager _ Hc) Hms) as Hm.
    split; [done|]. split; [done|]. split; [|split].
    + intros id. unfold worker_step.
      destruct (_threads (obj s) !! id) as [pc|] eqn:Hpc; [|done].
      rewrite (base_poking _ Hb) with (pc := pc) (id := id); try done.
      unfold poking. by rewrite Hsp.
    + intros r. unfold manager_step. unfold mpc in Hm. by rewrite Hm.
    + unfold stop_step. by rewrite Hsp.
Qed.

Lemma example_stop_run :
  exec (H := identity_media) example_stop_schedule example_init
  = example_stopped.
Proof. vm_compute. reflexivity. Qed.

Lemma stop_returns_after_threads_witness :
  ∃ s, example_stopped = Some s ∧ stopper s = SDone ∧
    mpc s = Some MStopped ∧ worker_step (H := identity_media) 0 s = None.
Proof.
  eexists. split; [reflexivity|]. split; [reflexivity|].
  destruct (stop_returns_after_threads (H := identity_media) 2 4 2 1
              (BufferPool.new 8 4 false) (BufferPool.new 8 4 false)
              (Device.mk Device.CPU []) _ example_wf example_sized
              (exec_reachable (H := identity_media) _ example_init _
                 example_stop_run)) as (_ & _ & Hdone).
  destruct (Hdone eq_refl) as (Hm & _ & Hw & _).
  split; [exact Hm|apply Hw].
Defined.

(** ** The bounds of the workers' accesses *)

(** A worker inside the item loop reads the pair at the read cursor of
    the read pool, which [_inputBuf] points to.  When that pair holds
    item [i], the turn of the loop is defined whatever the size of the
    item: the [_datumSize] bytes [transform] writes lie inside the data
    half of the output slot, they are row [i] of it afterwards, and
    [dataBuf] has moved on by one row. *)
Theorem decode_write_in_bounds `{Media}
    (count batchSize datumSize targetSize : Z)
    (readBufs decodeBufs : BufferPool.t) (device : Device.t) (s : sys)
    (id : nat) (i d o : Z) :
  let s0 := init count batchSize datumSize targetSize readBufs decodeBufs
              device in
  wf_config (obj s0) → pool_sized (obj s0) decodeBufs → reachable s0 s →
  _threads (obj s) !! id = Some (WData i d o) → i < endOf (obj s) id →
  let ds := _datumSize (obj s) in
  input s = Some (BufferPool.getForRead (_in s)) ∧
  0 ≤ d ∧ d + ds ≤ Z.of_nat (length (Buffer._data (output s).1)) ∧
  ∀ item, Buffer.item (BufferPool.getForRead (_in s)).1 i = Some item →
    ∃ s', worker_step id s = Some s' ∧
      _threads (obj s') !! id = Some (WData (i + 1) (d + ds) o) ∧
      load (Buffer._data (output s').1) d ds = Some (transform item ds) ∧
      length (Buffer._data (output s').1)
        = length (Buffer._data (output s).1).
Proof.
  intros s0 Hwf Hsz Hreach Hpc Hi ds.
  destruct (pipeline_invariants _ _ _ _ _ _ _ _ Hwf Hsz Hreach)
    as (Hb & Hinv & Hc).
  destruct (join_data _ Hinv _ _ _ _ Hpc) as (Hm & -> & Hrange & -> & _).
  destruct (base_partition _ Hb _ _ Hpc ltac:(done)) as (_ & He & _).
  pose proof (worker_lt s id _ Hb Hpc) as Hid.
  destruct (partition_bounds _ id (base_config _ Hb) Hid)
    as (Hs0 & _ & HeB & _).
  pose proof (base_config _ Hb) as (_ & _ & Hds & _).
  destruct (pool_sized_slot _ _ (BufferPool._writePos (_out s))
              (base_out _ Hb)) as [Hlen _].
  assert (Hk : _inputBuf (obj s) = Some (BufferPool._readPos (_in s))).
  { apply (ctl_input _ Hc). unfold holds_in. unfold mpc in Hm.
    by rewrite Hm. }
  fold ds in Hlen.
  split; [unfold input; by rewrite Hk|].
  unfold output, BufferPool.getForWrite.
  split; [nia|]. split; [nia|].
  intros item Hitem. unfold Buffer.item in Hitem.
  unfold BufferPool.getForRead in Hitem.
  destruct (Buffer.getItem _ i) as [[off len]|] eqn:Hget; [|done].
  assert (Hst : is_Some (store
            (Buffer._data
               (BufferPool.slot (_out s) (BufferPool._writePos (_out s))).1)
            (i * ds) (transform item ds))).
  { rewrite store_Some; [done|nia|]. rewrite transform_length. nia. }
  destruct Hst as [d' Hst].
  exists (upd (set_pc id (WData (i + 1) (i * ds + ds)
                            (BufferPool._writePos (_out s))))
            (set_out (BufferPool.set_slot (BufferPool._writePos (_out s))
                        (Buffer.set_data d'
                           (BufferPool.slot (_out s)
                              (BufferPool._writePos (_out s))).1,
                         (BufferPool.slot (_out s)
                            (BufferPool._writePos (_out s))).2)
                        (_out s)) s)).
  split.
  { unfold worker_step. rewrite Hpc. simpl. rewrite He. simpl.
    destruct (Z.ltb_spec i (endOf (obj s) id)); [|lia].
    unfold work_item. rewrite Hk. simpl. rewrite Hget, Hitem. simpl.
    fold ds. by rewrite Hst. }
  split.
  { simpl. rewrite list_lookup_insert_eq; [done|].
    by eapply lookup_lt_Some. }
  simpl. rewrite writePos_set_slot, slot_set_slot.
  rewrite bool_decide_eq_true_2 by done. simpl.
  pose proof (load_store_same _ _ _ _ Hst) as Hl.
  rewrite transform_length in Hl. rewrite Z2Nat.id in Hl by lia.
  split; [done|]. by destruct (store_inv _ _ _ _ Hst) as (_ & _ & _ & ->).
Qed.

Lemma decode_write_in_bounds_witness :
  ∃ s, example_decoding = Some s ∧
    _threads (obj s) !! 1%nat = Some (WData 3 6 0) ∧
    input s = Some (BufferPool.getForRead (_in s)) ∧
    6 + 2 ≤ Z.of_nat (length (Buffer._data (output s).1)).
Proof.
  eexists. split; [reflexivity|]. split; [reflexivity|].
  destruct (decode_write_in_bounds (H := identity_media) 2 4 2 1
              (BufferPool.new 8 4 false) (BufferPool.new 8 4 false)
              (Device.mk Device.CPU []) _ 1%nat 3 6 0
              example_wf example_sized
              (exec_reachable (H := identity_media) _ example_init _
                 example_decoding_run) eq_refl eq_refl)
    as (Hin & _ & Hle & _).
  split; [exact Hin|exact Hle].
Defined.


(** Past the item loop, the [memcpy] of line 146 writes the worker's
    [_targetSpans[id]] bytes inside the target half of the output slot, at
    the rows of its range.  It is defined exactly when the input holds a
    target for the first item of the range and the span read from there
    lies inside the target half of the input pair, which the code does
    not check; the rows of the range then hold these bytes and the worker
    stands before its signal. *)
Theorem target_copy_in_bounds `{Media}
    (count batchSize datumSize targetSize : Z)
    (readBufs decodeBufs : BufferPool.t) (device : Device.t) (s : sys)
    (id : nat) (i d o : Z) :
  let s0 := init count batchSize datumSize targetSize readBufs decodeBufs
              device in
  wf_config (obj s0) → pool_sized (obj s0) decodeBufs → reachable s0 s →
  _threads (obj s) !! id = Some (WData i d o) → endOf (obj s) id ≤ i →
  let off := startOf (obj s) id * _targetSize (obj s) in
  let span := countOf (obj s) id * _targetSize (obj s) in
  let src := (BufferPool.getForRead (_in s)).2 in
  0 ≤ off ∧ 0 ≤ span ∧
  off + span ≤ Z.of_nat (length (Buffer._data (output s).2)) ∧
  (is_Some (worker_step id s) ↔
   ∃ srcOff len, Buffer.getItem src (startOf (obj s) id) = Some (srcOff, len) ∧
                 is_Some (load (Buffer._data src) srcOff span)) ∧
  ∀ s', worker_step id s = Some s' →
    _threads (obj s') !! id = Some WSignal ∧
    ∃ srcOff len b,
      Buffer.getItem src (startOf (obj s) id) = Some (srcOff, len) ∧
      load (Buffer._data src) srcOff span = Some b ∧
      load (Buffer._data (output s').2) off span = Some b.
Proof.
  intros s0 Hwf Hsz Hreach Hpc Hi off span src.
  destruct (pipeline_invariants _ _ _ _ _ _ _ _ Hwf Hsz Hreach)
    as (Hb & Hinv & Hc).
  destruct (join_data _ Hinv _ _ _ _ Hpc) as (Hm & -> & Hrange & -> & _).
  destruct (base_partition _ Hb _ _ Hpc ltac:(done))
    as (Hst & He & _ & Hto & Hts).
  pose proof (worker_lt s id _ Hb Hpc) as Hid.
  destruct (partition_bounds _ id (base_config _ Hb) Hid)
    as (Hs0 & Hse & HeB & Hcnt).
  pose proof (base_config _ Hb) as (_ & _ & _ & Htsz & _).
  destruct (pool_sized_slot _ _ (BufferPool._writePos (_out s))
              (base_out _ Hb)) as [_ Hlen].
  assert (Hk : _inputBuf (obj s) = Some (BufferPool._readPos (_in s))).
  { apply (ctl_input _ Hc). unfold holds_in. unfold mpc in Hm.
    by rewrite Hm. }
  assert (Hbounds : 0 ≤ off ∧ 0 ≤ span ∧ off + span
            ≤ Z.of_nat (length (Buffer._data (output s).2))).
  { unfold output, BufferPool.getForWrite, off, span.
    unfold endOf in HeB. nia. }
  assert (Hstep : worker_step id s =
            '(srcOff, _) ← Buffer.getItem src (startOf (obj s) id);
            d' ← memcpy (Buffer._data (output s).2) off
                   (Buffer._data src) srcOff span;
            Some (upd (set_pc id WSignal)
                    (set_out (BufferPool.set_slot
                                (BufferPool._writePos (_out s))
                                ((output s).1,
                                 Buffer.set_data d' (output s).2)
                                (_out s)) s))).
  { unfold worker_step. rewrite Hpc. simpl. rewrite He. simpl.
    destruct (Z.ltb_spec i (endOf (obj s) id)); [lia|].
    unfold work_targets. rewrite Hst, Hto, Hts. simpl. rewrite Hk. done. }
  split; [tauto|]. split; [tauto|]. split; [tauto|].
  rewrite Hstep. clear Hstep. split.
  - split.
    + intros [s' Hs'].
      destruct (Buffer.getItem src _) as [[srcOff len]|]; [|done].
      simpl in Hs'. exists srcOff, len. split; [done|].
      destruct (memcpy _ _ _ _ _) as [d'|] eqn:Hcpy; [|done].
      apply memcpy_inv in Hcpy as (b & -> & _). by eexists.
    + intros (srcOff & len & -> & [b Hb']). simpl.
      unfold memcpy. rewrite Hb'.
      pose proof (load_inv _ _ _ _ Hb') as (_ & _ & _ & _ & Hlb).
      rewrite store_Some by lia. by eexists.
  - intros s' Hs'.
    destruct (Buffer.getItem src _) as [[srcOff len]|]; [|done].
    simpl in Hs'.
    destruct (memcpy _ _ _ _ _) as [d'|] eqn:Hcpy; [|done].
    simpl in Hs'. injection Hs' as <-.
    apply memcpy_inv in Hcpy as (b & Hload & Hstore). split.
    { simpl. rewrite list_lookup_insert_eq; [done|].
      by eapply lookup_lt_Some. }
    exists srcOff, len, b. split; [done|]. split; [done|].
    unfold output at 1. cbn [_out upd set_out].
    rewrite getForWrite_set_slot. simpl.
    pose proof (load_inv _ _ _ _ Hload) as (_ & _ & _ & _ & Hlb).
    pose proof (load_store_same _ _ _ _ Hstore) as Hl.
    rewrite Hlb in Hl. by rewrite Z2Nat.id in Hl by lia.
Qed.

Lemma example_targets_run :
  exec (H := identity_media) (example_dispatch ++ take 10 example_decode)
       example_init = example_targets.
Proof. vm_compute. reflexivity. Qed.

Lemma example_targets_step :
  (s ← example_targets; worker_step (H := identity_media) 1 s)
  = example_targets_next.
Proof. vm_compute. reflexivity. Qed.

Lemma target_copy_in_bounds_witness :
  ∃ s s', example_targets = Some s ∧ example_targets_next = Some s' ∧
    _threads (obj s) !! 1%nat = Some (WData 4 8 0) ∧
    _threads (obj s') !! 1%nat = Some WSignal ∧
    2 + 2 ≤ Z.of_nat (length (Buffer._data (output s).2)).
Proof.
  eexists _, _. split; [reflexivity|]. split; [reflexivity|].
  split; [reflexivity|].
  destruct (target_copy_in_bounds (H := identity_media) 2 4 2 1
              (BufferPool.new 8 4 false) (BufferPool.new 8 4 false)
              (Device.mk Device.CPU []) _ 1%nat 4 8 0
              example_wf example_sized
              (exec_reachable (H := identity_media) _ example_init _
                 example_targets_run) eq_refl)
    as (_ & _ & Hle & _ & Hnext); [vm_compute; discriminate|].
  destruct (Hnext _ example_targets_step) as [Hpc _].
  split; [exact Hpc|exact Hle].
Defined.


(** ** The manager and the device *)

Section Manager.
Context `{Media}.

Lemma never_started_step (l : label) (s s' : sys) :
  never_started s → step l s = Some s' →
  never_started s' ∧ _device s' = _device s ∧
  BufferPool._readPos (_in s') = BufferPool._readPos (_in s) ∧
  BufferPool._writePos (_out s') = BufferPool._writePos (_out s) ∧
  BufferPool._nonEmpty (_out s') = BufferPool._nonEmpty (_out s) ∧
  ∀ k, BufferPool.slot (_out s') k = BufferPool.slot (_out s) k.
Proof.
  intros (Hsm & Hm & Hthr) Hstep.
  destruct l as [id|r|filled| |]; simpl in Hstep.
  - unfold worker_step in Hstep.
    destruct (_threads (obj s) !! id) as [pc|] eqn:Hpc;
      simpl in Hstep; [|done].
    assert (Hlt : (id < length (_threads (obj s)))%nat)
      by (by eapply lookup_lt_Some).
    assert (Hmove : ∀ pc', working pc' = false →
              _startSignaled (obj s) !! id = Some 0 →
              ∀ id0 pc0, <[id := pc']> (_threads (obj s)) !! id0 = Some pc0 →
                pc0 = WStopped ∨
                (working pc0 = false ∧
                 _startSignaled (obj s) !! id0 = Some 0)).
    { intros pc' Hw' Hs id0 pc0. destruct (decide (id = id0)) as [->|Hne].
      - rewrite list_lookup_insert_eq by done. intros [= <-]. by right.
      - rewrite list_lookup_insert_ne by done. apply Hthr. }
    destruct (Hthr _ _ Hpc) as [->|[Hw Hs]]; [done|].
    destruct pc; try done; simplify_eq.
    + repeat split; try done. by apply Hmove.
    + unfold run_loop. destruct (_done (obj s));
        repeat split; try done; by apply Hmove.
    + unfold work_top in Hstep. rewrite Hs in Hstep. simpl in Hstep.
      simplify_eq. repeat split; try done. by apply Hmove.
    + unfold work_wake. destruct (_done (obj s));
        repeat split; try done; by apply Hmove.
  - unfold manager_step in Hstep. unfold mpc in Hm.
    destruct Hm as [Hm|Hm]; rewrite Hm in Hstep; simpl in Hstep; [|done].
    simplify_eq. unfold manage_loop. rewrite Hsm.
    repeat split; try done. by right.
  - unfold reader_step in Hstep.
    destruct (holds_in (obj s) || BufferPool.full (_in s)); simplify_eq.
    repeat split; try done. simpl. unfold BufferPool.set_slot.
    by destruct (BufferPool._writePos (_in s) =? 0).
  - unfold consumer_step in Hstep.
    destruct (holds_out (obj s)); by simplify_eq.
  - unfold stop_step in Hstep.
    destruct (stopper s); repeat case_match; by simplify_eq.
Qed.

Lemma never_started_reachable (s s' : sys) :
  never_started s → reachable s s' →
  never_started s' ∧ _device s' = _device s ∧
  BufferPool._readPos (_in s') = BufferPool._readPos (_in s) ∧
  BufferPool._writePos (_out s') = BufferPool._writePos (_out s) ∧
  BufferPool._nonEmpty (_out s') = BufferPool._nonEmpty (_out s) ∧
  ∀ k, BufferPool.slot (_out s') k = BufferPool.slot (_out s) k.
Proof.
  intros Hn. induction 1 as [|s1 l s2 _ IH Hstep]; [done|].
  destruct IH as (Hn1 & E1 & E2 & E3 & E4 & E5).
  destruct (never_started_step l s1 s2 Hn1 Hstep)
    as (Hn2 & F1 & F2 & F3 & F4 & F5).
  split; [done|]. rewrite F1, F2, F3, F4.
  repeat split; try done. intros k. by rewrite F5.
Qed.

End Manager.

(** When [Device::init] fails, the manager sets its stop flag and leaves
    [manage] at the loop test without ever calling [consume]: whatever
    the other threads do afterwards, the device sees no call after
    [init], nothing is taken from the read pool, the decode pool gets no
    minibatch and no [nonEmpty] signal (a consumer asleep in [next] is
    never woken by the pool), and no worker ever enters its work. *)
Theorem device_init_failure `{Media}
    (count batchSize datumSize targetSize : Z)
    (readBufs decodeBufs : BufferPool.t) (device : Device.t) (s : sys)
    (r : Z) :
  let s0 := init count batchSize datumSize targetSize readBufs decodeBufs
              device in
  wf_config (obj s0) → pool_sized (obj s0) decodeBufs → reachable s0 s →
  mpc s = Some MInit → r ≠ 0 →
  ∃ s1, manager_step r s = Some s1 ∧
    ∀ s2, reachable s1 s2 →
      (mpc s2 = Some MLoop ∨ mpc s2 = Some MStopped) ∧
      Device.calls (_device s2) = Device.calls (_device s) ++ [Device.init] ∧
      BufferPool._readPos (_in s2) = BufferPool._readPos (_in s) ∧
      BufferPool._writePos (_out s2) = BufferPool._writePos (_out s) ∧
      BufferPool._nonEmpty (_out s2) = BufferPool._nonEmpty (_out s) ∧
      (∀ k, BufferPool.slot (_out s2) k = BufferPool.slot (_out s) k) ∧
      (∀ id pc, _threads (obj s2) !! id = Some pc → working pc = false) ∧
      ∀ r', mpc s2 = Some MLoop →
        ∃ s3, manager_step r' s2 = Some s3 ∧ mpc s3 = Some MStopped ∧
              _managerStopped (obj s3) = true.
Proof.
  intros s0 Hwf Hsz Hreach Hm Hr.
  destruct (pipeline_invariants _ _ _ _ _ _ _ _ Hwf Hsz Hreach)
    as (Hb & Hinv & Hc).
  eexists. split.
  { unfold manager_step. unfold mpc in Hm. rewrite Hm. simpl. reflexivity. }
  unfold manage_init. destruct (Z.eqb_spec r 0) as [|_]; [done|].
  set (s1 := set_mpc MLoop _).
  assert (Hn : never_started s1).
  { split; [done|]. split; [by left|]. intros id pc Hpc. simpl in Hpc.
    destruct (poking s) eqn:Hp.
    - left. by apply (base_poking _ Hb Hp id).
    - right. destruct (join_idle _ Hinv Hp) as [_ Hall]; [congruence|].
      destruct (Hall id (worker_lt s id pc Hb Hpc))
        as (Hs & pc' & Hpc' & Hw).
      rewrite Hpc in Hpc'. by injection Hpc' as <-. }
  intros s2 Hreach2.
  destruct (never_started_reachable s1 s2 Hn Hreach2)
    as ((Hsm & Hm2 & Hthr) & E1 & E2 & E3 & E4 & E5).
  split; [done|]. rewrite E1, E2, E3, E4.
  split; [done|]. split; [done|]. split; [done|]. split; [done|].
  split; [done|]. split.
  - intros id pc Hpc. by destruct (Hthr id pc Hpc) as [->|[? _]].
  - intros r' Hl. eexists. unfold manager_step. unfold mpc in Hl.
    rewrite Hl. simpl. unfold manage_loop. rewrite Hsm. done.
Qed.

Lemma device_init_failure_witness :
  ∃ s1, manager_step 1 example_init = Some s1 ∧
    mpc s1 = Some MLoop ∧
    Device.calls (_device s1) = [Device.init].
Proof.
  destruct (device_init_failure (H := identity_media) 2 4 2 1
              (BufferPool.new 8 4 false) (BufferPool.new 8 4 false)
              (Device.mk Device.CPU []) example_init 1
              example_wf example_sized (reachable_init _) eq_refl)
    as (s1 & Hstep & Hall); [discriminate|].
  exists s1. split; [exact Hstep|].
  destruct (Hall s1 (reachable_init _)) as (_ & Hcalls & _).
  split; [|exact Hcalls].
  pose proof Hstep as E. vm_compute in E. injection E as <-. reflexivity.
Defined.


Section DeviceCalls.
Context `{Media}.

Lemma device_trace_snoc (bs : list BufferPair) (pair : BufferPair) :
  device_trace true (bs ++ [pair])
  = device_trace true bs
    ++ batch_calls (Z.of_nat (length bs) mod 2) pair.
Proof.
  unfold device_trace. rewrite imap_app, join_app. simpl.
  by rewrite Nat.add_0_r.
Qed.

(** A step delivers no pair, or it is the copy of [produce], which
    delivers the pair at the write cursor of the decode pool. *)
Lemma device_inv_step (n0 m0 : nat) (bs : list BufferPair) (l : label)
    (s s' : sys) :
  device_inv n0 m0 bs s → step l s = Some s' →
  device_inv n0 m0 bs s' ∨
  (mpc s = Some MCopy ∧ (∃ r, l = LManager r) ∧
   device_inv n0 m0
     (bs ++ [BufferPool.slot (_out s') (BufferPool._writePos (_out s))]) s').
Proof.
  intros [Hcalls Hfst Hix Hdel Hcon] Hstep.
  destruct l as [id|r|filled| |]; simpl in Hstep.
  - left. destruct (worker_step_frame id s s' Hstep)
      as (E1 & E2 & E3 & E4 & _ & _ & _ & _ & E5 & _).
    assert (E6 : BufferPool._nonEmpty (_out s')
                 = BufferPool._nonEmpty (_out s)).
    { unfold worker_step, work_top, work_item, work_targets, run_loop,
        work_wake, work_signal in Hstep.
      repeat (case_match; simplify_option_eq); try done;
        simpl; unfold BufferPool.set_slot; by case_match. }
    split; unfold manager_initialised, advancing, mpc in *;
      by rewrite ?E2, ?E3, ?E4, ?E5, ?E6.
  - unfold manager_step in Hstep.
    destruct (_manager (obj s)) as [pc|] eqn:Hpc; simpl in Hstep; [|done].
    unfold manager_initialised, advancing, mpc in *. rewrite Hpc in *.
    destruct pc; simplify_eq.
    + left. rewrite (Hfst eq_refl) in *. unfold manage_init.
      destruct (r =? 0); (split; simpl; [|done..]); by rewrite Hcalls.
    + left. unfold manage_loop.
      by destruct (_stopManager (obj s)); split.
    + left. unfold consume_top.
      by destruct (BufferPool.empty (_in s)); split.
    + left. unfold consume_wake.
      by destruct (_stopManager (obj s)); split.
    + left. unfold produce_dispatch in Hstep.
      destruct (BufferPool.full (_out s)); simplify_eq. by split.
    + left. unfold produce_join in Hstep.
      destruct (_endSignaled (obj s) <? _count (obj s)); simplify_eq.
      by split.
    + right. split; [done|]. split; [by eexists|]. unfold produce_copy.
      set (w := BufferPool._writePos (_out s)).
      set (pair := (Buffer.set_data _ _, _)).
      assert (Hslot : BufferPool.slot
                (BufferPool.signalNonEmpty
                   (BufferPool.advanceWritePos
                      (BufferPool.set_slot w pair (_out s)))) w = pair).
      { unfold BufferPool.slot, BufferPool.set_slot.
        by destruct (w =? 0). }
      split; simpl; rewrite ?Hslot.
      * change (manager_initialised _) with true.
        rewrite device_trace_snoc, <- Hcalls, <- Hix. unfold batch_calls.
        simpl. by rewrite <- app_assoc.
      * done.
      * rewrite length_app. simpl. rewrite Hix.
        pose proof (Z.mod_pos_bound (Z.of_nat (length bs)) 2 ltac:(lia)).
        rewrite Nat2Z.inj_add, Z.add_mod by lia.
        destruct (Z.eqb_spec (Z.of_nat (length bs) mod 2) 0) as [E|E].
        -- by rewrite E.
        -- by replace (Z.of_nat (length bs) mod 2) with 1 by lia.
      * rewrite length_app. simpl. unfold BufferPool.set_slot.
        destruct (w =? 0); simpl; lia.
      * change (advancing _) with 1%nat. rewrite length_app. simpl. lia.
    + left. unfold consume_advance. split; try done.
      change (advancing _) with 0%nat. simpl. lia.
  - left. unfold reader_step in Hstep.
    destruct (holds_in (obj s)) eqn:Hh; simpl in Hstep; [done|].
    destruct (BufferPool.full (_in s)); simplify_eq.
    split; try done. simpl. unfold BufferPool.set_slot.
    rewrite <- Hcon. by destruct (BufferPool._writePos (_in s) =? 0).
  - left. unfold consumer_step in Hstep.
    destruct (holds_out (obj s)); by simplify_eq.
  - left. unfold stop_step in Hstep.
    destruct (stopper s); repeat case_match; by simplify_eq.
Qed.

End DeviceCalls.


(** The calls the device sees are [Device::init] once, as the first
    call (made by the manager's first step), and then for every pair
    delivered [copyData] followed at once by [copyLabels], both with the
    slot of the pair's rank modulo 2 and with the [_size] of the pair's
    halves.  The pairs delivered are the slots the copy of [produce]
    leaves at the write cursor of the decode pool; there are as many of
    them as [nonEmpty] signals on the decode pool, and as many as pairs
    released from the read pool once [consume] has finished: the manager
    drops no batch and delivers none twice. *)
Theorem device_call_sequence `{Media}
    (count batchSize datumSize targetSize : Z)
    (readBufs decodeBufs : BufferPool.t) (device : Device.t) (s : sys) :
  let s0 := init count batchSize datumSize targetSize readBufs decodeBufs
              device in
  Device.calls device = [] → reachable s0 s →
  ∃ bs : list BufferPair,
    Device.calls (_device s) = device_trace (manager_initialised s) bs ∧
    (manager_initialised s = false → bs = []) ∧
    BufferPool._nonEmpty (_out s)
      = (BufferPool._nonEmpty decodeBufs + length bs)%nat ∧
    (BufferPool._nonFull (_in s) + advancing s
      = BufferPool._nonFull readBufs + length bs)%nat ∧
    ∀ l s', step l s = Some s' →
      Device.calls (_device s') = device_trace (manager_initialised s') bs ∨
      (mpc s = Some MCopy ∧ (∃ r, l = LManager r) ∧
       Device.calls (_device s')
         = device_trace true
             (bs ++ [BufferPool.slot (_out s')
                       (BufferPool._writePos (_out s))])).
Proof.
  intros s0 Hdev Hreach.
  assert (Hinv : ∃ bs, device_inv (BufferPool._nonEmpty decodeBufs)
                         (BufferPool._nonFull readBufs) bs s).
  { induction Hreach as [|s l s' _ [bs IH] Hstep].
    - exists []. split; simpl; try done; lia.
    - destruct (device_inv_step _ _ bs l s s' IH Hstep) as [?|(_ & _ & ?)];
        by eexists. }
  destruct Hinv as [bs Hinv]. exists bs.
  split; [apply (dev_calls _ _ _ _ Hinv)|].
  split; [apply (dev_first _ _ _ _ Hinv)|].
  split; [apply (dev_delivered _ _ _ _ Hinv)|].
  split; [apply (dev_consumed _ _ _ _ Hinv)|].
  intros l s' Hstep.
  destruct (device_inv_step _ _ bs l s s' Hinv Hstep)
    as [Hs'|(Hm & Hl & Hs')].
  - left. apply (dev_calls _ _ _ _ Hs').
  - right. split; [done|]. split; [done|].
    rewrite (dev_calls _ _ _ _ Hs'). destruct Hl as [r ->].
    simpl in Hstep. unfold manager_step in Hstep. unfold mpc in Hm.
    rewrite Hm in Hstep. simpl in Hstep. by injection Hstep as <-.
Qed.

Lemma device_call_sequence_witness :
  ∃ s bs, example_final = Some s ∧ length bs = 1%nat ∧
    Device.calls (_device s) = device_trace true bs.
Proof.
  eexists.
  destruct (device_call_sequence (H := identity_media) 2 4 2 1
              (BufferPool.new 8 4 false) (BufferPool.new 8 4 false)
              (Device.mk Device.CPU []) _ eq_refl
              (exec_reachable (H := identity_media) _ example_init _
                 example_run))
    as (bs & Hcalls & _ & Hlen & _).
  exists bs. split; [reflexivity|]. split; [|exact Hcalls].
  exact (eq_sym Hlen).
Defined.
